(** * Growth Track signup pipeline (index.js): model and properties

    The pipeline of [index.js] scans a mailbox, extracts one record per
    message, appends the new ones to a spreadsheet and mails an export.
    The pure parts (the three extraction patterns, trimming, the date
    rendering) are plain functions; the parts that talk to Gmail, Drive,
    Sheets, the file system and the mail transport are computations in a
    state-and-exception monad over a [World].

    A JavaScript string is modelled by [string]: a sequence of code units,
    here restricted to the code units below 256.  Logging ([writeLog]) is
    left out: it is taken to succeed and no step reads the log.  The
    credentials ([authorize]) are taken as obtained. *)

From Stdlib Require Import ZArith List String Ascii Bool Arith Lia DecimalString
  RelationClasses.
Import ListNotations.

Local Open Scope list_scope.
Local Open Scope string_scope.

(** ** Strings as JavaScript sees them *)

Module JsString.

(** The double-quote character, used inside the extraction patterns. *)
Definition dquote : ascii := ascii_of_nat 34.

(** [WhiteSpace] and [LineTerminator] code units below 256: TAB, LF, VT, FF,
    CR, SPACE and NO-BREAK SPACE.  Both [\s] and [String.prototype.trim]
    use this class. *)
Definition is_space (c : ascii) : bool :=
  let n := nat_of_ascii c in
  Nat.eqb n 9 || Nat.eqb n 10 || Nat.eqb n 11 || Nat.eqb n 12
  || Nat.eqb n 13 || Nat.eqb n 32 || Nat.eqb n 160.

(** Canonicalisation of a code unit under the [i] flag (no [u] flag): the
    upper-case form.  Below 256 only [a]..[z] change class together with an
    ASCII letter, the other code units above 127 never canonicalise to an
    ASCII one. *)
Definition canonicalize (c : ascii) : ascii :=
  let n := nat_of_ascii c in
  if Nat.leb 97 n && Nat.leb n 122 then ascii_of_nat (n - 32) else c.

Definition char_eq_ci (a b : ascii) : bool :=
  Ascii.eqb (canonicalize a) (canonicalize b).

Fixpoint trimStart (s : string) : string :=
  match s with
  | String c s' => if is_space c then trimStart s' else s
  | EmptyString => EmptyString
  end.

Fixpoint trimEnd (s : string) : string :=
  match s with
  | String c s' =>
      let t := trimEnd s' in
      if is_space c && String.eqb t "" then "" else String c t
  | EmptyString => EmptyString
  end.

(** [String.prototype.trim]. *)
Definition trim (s : string) : string := trimEnd (trimStart s).

(** Truthiness of a string: only the empty string is falsy. *)
Definition truthy (s : string) : bool := negb (String.eqb s "").

(** [a || b] on strings. *)
Definition or_else (a b : string) : string := if truthy a then a else b.

Fixpoint all_space (s : string) : bool :=
  match s with
  | String c s' => is_space c && all_space s'
  | EmptyString => true
  end.

Fixpoint no_lt (s : string) : bool :=
  match s with
  | String c s' => negb (Ascii.eqb c "<") && no_lt s'
  | EmptyString => true
  end.

(** Two strings of the same length whose code units agree up to case. *)
Fixpoint eq_ci (a b : string) : bool :=
  match a, b with
  | EmptyString, EmptyString => true
  | String x a', String y b' => char_eq_ci x y && eq_ci a' b'
  | _, _ => false
  end.

End JsString.

(** ** The extraction patterns

    The three patterns of [extractSignupInfo] differ only in the label:

      /<td valign="top">LABEL<\/td>\s*<td>([^<]+)<\/td>/i

    Matching needs no backtracking: [\s*] is followed by [<], which is not
    white space, and [[^<]+] is followed by [<], so giving back a code unit
    of either run can never make the rest match.  [match_at] is the match
    attempt at one start position, [regex_match] is [String.prototype.match]
    (leftmost start position first) projected on capture group 1. *)

Module Pattern.
Import JsString.

(** Match the literal [p] case-insensitively at the start of [s]; the rest
    of [s] on success. *)
Fixpoint lit_ci (p s : string) : option string :=
  match p with
  | EmptyString => Some s
  | String a p' =>
      match s with
      | String b s' => if char_eq_ci a b then lit_ci p' s' else None
      | EmptyString => None
      end
  end.

(** [\s*], greedy. *)
Fixpoint skip_space (s : string) : string :=
  match s with
  | String c s' => if is_space c then skip_space s' else s
  | EmptyString => EmptyString
  end.

(** [[^<]*], greedy: the run and what follows it. *)
Fixpoint span_not_lt (s : string) : string * string :=
  match s with
  | String c s' =>
      if Ascii.eqb c "<" then (EmptyString, s)
      else let (v, r) := span_not_lt s' in (String c v, r)
  | EmptyString => (EmptyString, EmptyString)
  end.

Definition label_cell (label : string) : string :=
  "<td valign=" ++ String dquote ("top" ++ String dquote (">" ++ label ++ "</td>")).

Definition match_at (label s : string) : option string :=
  match lit_ci (label_cell label) s with
  | None => None
  | Some r1 =>
      match lit_ci "<td>" (skip_space r1) with
      | None => None
      | Some r2 =>
          let (v, r3) := span_not_lt r2 in
          if String.eqb v "" then None
          else match lit_ci "</td>" r3 with
               | Some _ => Some v
               | None => None
               end
      end
  end.

Fixpoint regex_match (label s : string) : option string :=
  match match_at label s with
  | Some v => Some v
  | None =>
      match s with
      | String _ s' => regex_match label s'
      | EmptyString => None
      end
  end.

(** The keys of [patterns], in the insertion order [Object.entries] uses. *)
Inductive Key := Name | Phone | Email.

Definition patterns (k : Key) : string :=
  match k with
  | Name => "Full Name:"
  | Phone => "Phone:"
  | Email => "Email:"
  end.

(** The body of the extraction loop for one key: the trimmed capture, or
    the empty string when the pattern does not match. *)
Definition extract_key (k : Key) (body : string) : string :=
  match regex_match (patterns k) body with
  | Some v => trim v
  | None => ""
  end.

Definition sentinel : string := "Not provided".

(** The field as it is returned: [extractedInfo[key] || 'Not provided']. *)
Definition field (k : Key) (body : string) : string :=
  or_else (extract_key k body) sentinel.

(** *** What "the body contains the labelled row" means

    A labelled two-cell row with value-cell contents [v] starts at offset
    [n] of [body]: the label cell, optional white space, and a [<td>] cell
    holding [v], which has no markup in it. *)
Definition row_at (label body : string) (n : nat) (v : string) : Prop :=
  exists pre lab ws op cl post,
    body = pre ++ lab ++ ws ++ op ++ v ++ cl ++ post
    /\ String.length pre = n
    /\ eq_ci (label_cell label) lab = true
    /\ all_space ws = true
    /\ eq_ci "<td>" op = true
    /\ no_lt v = true /\ v <> ""
    /\ eq_ci "</td>" cl = true.

(** The first labelled row of [body] has value-cell contents [v]. *)
Definition first_row (label body v : string) : Prop :=
  exists n, row_at label body n v
            /\ forall m v', m < n -> ~ row_at label body m v'.

Definition has_row (label body : string) : Prop :=
  exists n v, row_at label body n v.

End Pattern.

(** ** Dates: [parseInt], [Date] and [toLocaleDateString] *)

Module JsDate.
Import JsString.
Local Open Scope Z_scope.

(** Value of a digit in the given radix. *)
Definition digit_value (radix : Z) (c : ascii) : option Z :=
  let n := Z.of_nat (nat_of_ascii c) in
  let v := if (48 <=? n) && (n <=? 57) then n - 48
           else if (97 <=? n) && (n <=? 102) then n - 87
           else if (65 <=? n) && (n <=? 70) then n - 55
           else 99 in
  if v <? radix then Some v else None.

(** The longest digit prefix, most significant digit first. *)
Fixpoint parse_digits (radix : Z) (acc : option Z) (s : string) : option Z :=
  match s with
  | String c s' =>
      match digit_value radix c with
      | Some v =>
          parse_digits radix
            (Some (match acc with Some a => a * radix + v | None => v end)) s'
      | None => acc
      end
  | EmptyString => acc
  end.

(** [parseInt(s)] without a radix: leading white space is skipped, a sign
    is read, [0x] selects radix 16, and the longest digit prefix is the
    value; [None] is [NaN].  The value is exact here, as the Number is for
    integers below 2^53. *)
Definition parseInt (s : string) : option Z :=
  let s1 := trimStart s in
  let (sign, s2) :=
    match s1 with
    | String "-" r => (-1, r)
    | String "+" r => (1, r)
    | _ => (1, s1)
    end in
  let (radix, s3) :=
    match s2 with
    | String "0" (String "x" r) => (16, r)
    | String "0" (String "X" r) => (16, r)
    | _ => (10, s2)
    end in
  match parse_digits radix None s3 with
  | Some v => Some (sign * v)
  | None => None
  end.

(** A [Date] object: its time value in epoch milliseconds, or [None] for an
    invalid date. *)
Definition Date := option Z.

(** [new Date(value)] applies [TimeClip]. *)
Definition new_Date (value : option Z) : Date :=
  match value with
  | Some v => if Z.abs v <=? 8640000000000000 then Some v else None
  | None => None
  end.

Definition msPerDay : Z := 86400000.

(** Civil date (year, month 1..12, day 1..31) of a day number counted from
    1970-01-01 in the proleptic Gregorian calendar. *)
Definition civil_from_days (days : Z) : Z * Z * Z :=
  let z := days + 719468 in
  let era := z / 146097 in
  let doe := z - era * 146097 in
  let yoe := (doe - doe / 1460 + doe / 36524 - doe / 146096) / 365 in
  let doy := doe - (365 * yoe + yoe / 4 - yoe / 100) in
  let mp := (5 * doy + 2) / 153 in
  let d := doy - (153 * mp + 2) / 5 + 1 in
  let m := if mp <? 10 then mp + 3 else mp - 9 in
  let y := yoe + era * 400 + (if m <=? 2 then 1 else 0) in
  (y, m, d).

Inductive TimeZone := Africa_Johannesburg | UTC.

(** Offset from UTC at the instant [t], in milliseconds, as the time zone
    database has it.  Africa/Johannesburg kept local mean time (1:52)
    until 8 February 1892 and 1:30 until 1 March 1903; it has been at
    UTC+2 since, with one hour of daylight saving from 20 September 1942
    to 21 March 1943 and from 19 September 1943 to 19 March 1944.  The
    bounds are the instants of the changes. *)
Definition zone_offset (tz : TimeZone) (t : Z) : Z :=
  match tz with
  | Africa_Johannesburg =>
      if t <? -2458173120000 then 6720000
      else if t <? -2109288600000 then 5400000
      else if (-860976000000 <=? t) && (t <? -845254800000) then 10800000
      else if (-829526400000 <=? t) && (t <? -813805200000) then 10800000
      else 7200000
  | UTC => 0
  end.

(** The host's time zone, as [Date] reads it: the offset in effect at a
    UTC instant, and the offset [UTC(t)] takes for a local time value
    (where a local time occurs twice or not at all, the choice is the
    zone's). *)
Record HostZone := {
  offset_at : Z -> Z;
  offset_at_local : Z -> Z
}.

(** [LocalTime(t)] and [UTC(t)] of a time value. *)
Definition LocalTime (host : HostZone) (t : Z) : Z := t + offset_at host t.

Definition utc_of_local (host : HostZone) (t : Z) : Z :=
  t - offset_at_local host t.

(** [date.setDate(date.getDate() - days)]: the date is read in the host's
    local time; [MakeDay] counts a day of the month below 1 back into the
    months before, so the local time value moves back by whole days with
    the time within the day kept; the result is read back as UTC with the
    offset the host's zone has at that local time. *)
Definition setDate_back (host : HostZone) (days : Z) (t : Z) : Z :=
  utc_of_local host (LocalTime host t - days * msPerDay).

Definition month_name (m : Z) : string :=
  match m with
  | 1 => "January" | 2 => "February" | 3 => "March" | 4 => "April"
  | 5 => "May" | 6 => "June" | 7 => "July" | 8 => "August"
  | 9 => "September" | 10 => "October" | 11 => "November"
  | _ => "December"
  end%string.

Definition decimal (n : Z) : string :=
  DecimalString.NilZero.string_of_int (Z.to_int n).

(** [date.toLocaleDateString('en-ZA', { year: 'numeric', month: 'long',
    day: 'numeric', timeZone })].  For these fields en-ZA gives the day
    of the month as a number without a leading zero, the full month name
    and the year, in that order: "3 November 2023".  The calendar is the
    proleptic Gregorian one and the year is the year of its era, so a
    year below 1 is counted back from 1 BC.  With no [timeZone] option
    the host's zone is used. *)
Definition toLocaleDateString_en_ZA
    (host : HostZone) (timeZone : option TimeZone) (d : Date) : string :=
  match d with
  | None => "Invalid Date"%string
  | Some t =>
      let offset := match timeZone with
                    | Some tz => zone_offset tz t
                    | None => offset_at host t
                    end in
      let '(y, m, dd) := civil_from_days ((t + offset) / msPerDay) in
      let year := if y <=? 0 then 1 - y else y in
      (decimal dd ++ " " ++ month_name m ++ " " ++ decimal year)%string
  end.

(** [formatDate(date)]. *)
Definition formatDate (host : HostZone) (date : Date) : string :=
  toLocaleDateString_en_ZA host (Some Africa_Johannesburg) date.

(** The rendering the specification describes: "Month D, YYYY" in UTC+2,
    written out from its words so that it can be compared with
    [formatDate]. *)
Definition spec_month_d_yyyy (t : Z) : string :=
  let '(y, m, dd) := civil_from_days ((t + 7200000) / msPerDay) in
  (month_name m ++ " " ++ decimal dd ++ ", " ++ decimal y)%string.

End JsDate.

(** ** Computations that change the world and may throw *)

Module Monad.

Inductive Error :=
| TransportError   (* a call to an external service was rejected or lost *)
| NotFound         (* the service does not know the identifier *)
| TypeError.       (* a JavaScript TypeError *)

Inductive Result (A : Type) :=
| Ok (a : A)
| Throw (e : Error).
Arguments Ok {A} a.
Arguments Throw {A} e.

(** An [async] function over state [S]: a result or a thrown error, and the
    state left behind in both cases. *)
Definition M (S A : Type) : Type := S -> Result A * S.

Definition ret {S A} (a : A) : M S A := fun s => (Ok a, s).

Definition throw {S A} (e : Error) : M S A := fun s => (Throw e, s).

Definition bind {S A B} (m : M S A) (k : A -> M S B) : M S B :=
  fun s => match m s with
           | (Ok a, s') => k a s'
           | (Throw e, s') => (Throw e, s')
           end.

(** [try { m } catch (e) { h e }]. *)
Definition try_catch {S A} (m : M S A) (h : Error -> M S A) : M S A :=
  fun s => match m s with
           | (Ok a, s') => (Ok a, s')
           | (Throw e, s') => h e s'
           end.

Definition get {S} : M S S := fun s => (Ok s, s).

Definition modify {S} (f : S -> S) : M S unit := fun s => (Ok tt, f s).

(** [for (const x of xs) { body x }]. *)
Fixpoint for_of {S A} (xs : list A) (body : A -> M S unit) : M S unit :=
  match xs with
  | [] => ret tt
  | x :: rest => bind (body x) (fun _ => for_of rest body)
  end.

(** Run a computation on the second component of a pair of states. *)
Definition lift {L S A} (m : M S A) : M (L * S) A :=
  fun ls => let (r, s') := m (snd ls) in (r, (fst ls, s')).

Module Notations.
Notation "x <- m ;; k" := (bind m (fun x => k))
  (at level 61, m at next level, right associativity).
Notation "m ;; k" := (bind m (fun _ => k))
  (at level 61, right associativity).
End Notations.

End Monad.

(** ** The world outside the process

    Gmail, Drive, Sheets, the working directory and the mail transport are
    not part of [index.js].  The model keeps of them what the pipeline can
    observe: the mailbox in listing order, the Drive files in creation
    order (a file's identifier is its position), the rows of each
    spreadsheet, the temporary export file, the mails sent, the trace of the
    calls made, and a schedule saying which calls fail. *)

Module World.
Import Monad Monad.Notations.
Local Open Scope list_scope.

Record Part := { part_data : option string }.

(** A message payload: [parts] is [None] for a message that is not
    multipart; a body's [data] is held decoded (the text that
    [Buffer.from(data, 'base64').toString('utf8')] yields) and is [None]
    where the payload carries no data. *)
Record Payload := {
  parts : option (list Part);
  body_data : option string
}.

Record Message := {
  msg_id : string;
  msg_subject : string;
  msg_unread : bool;            (* carries the UNREAD label *)
  internalDate : string;        (* receipt time, epoch milliseconds *)
  payload : Payload
}.

Inductive Mime := folder | spreadsheet | other.

Record DriveFile := {
  file_name : string;
  file_mime : Mime;
  file_parents : list nat;
  file_rows : list (list string)      (* the values of Sheet1!A:D *)
}.

(** The search expression [q] of [gmail.users.messages.list]. *)
Record Query := {
  q_subject : string;           (* subject:"..." *)
  q_is_unread : bool;           (* is:unread *)
  q_after : option Z            (* after:SECONDS *)
}.

Inductive Format := metadata | full.

Inductive Event :=
| GmailList (q : Query) (maxResults : nat)
| GmailGet (id : string) (format : Format)
| GmailModify (id : string)
| DriveListFolders
| DriveCreateFolder
| DriveListSpreadsheets (folderId : nat)
| SheetsGet (spreadsheetId : nat)
| SheetsCreate
| SheetsBatchUpdate (spreadsheetId : nat)
| DriveAddParents (fileId folderId : nat)
| SheetsValuesGet (spreadsheetId : option nat)
| SheetsValuesAppend (spreadsheetId : nat) (row : list string)
| DriveExport (fileId : option nat)
| FsWriteFile
| SendMail.

(** What the schedule says of one call.  [FailPartial] matters to
    [fs.writeFile] only: the write fails and leaves a partial file. *)
Inductive Fault := NoFault | Fail | FailPartial.

Record Mail := {
  mail_from_date : string;              (* the date named in the text *)
  mail_attachment : list (list string)  (* the rows of the attached export *)
}.

Record World := {
  now : Z;                      (* the clock, epoch milliseconds *)
  host_zone : JsDate.HostZone;  (* the time zone of the host *)
  mailbox : list Message;
  drive : list DriveFile;
  temp_file : option (list (list string));   (* GrowthTrackSignups.xlsx *)
  outbox : list Mail;
  trace : list Event;           (* most recent call first *)
  faults : nat -> Fault         (* the fate of the n-th call *)
}.

Definition set_mailbox (mb : list Message) (w : World) : World :=
  {| now := now w; host_zone := host_zone w; mailbox := mb;
     drive := drive w; temp_file := temp_file w; outbox := outbox w;
     trace := trace w; faults := faults w |}.

Definition set_drive (d : list DriveFile) (w : World) : World :=
  {| now := now w; host_zone := host_zone w; mailbox := mailbox w;
     drive := d; temp_file := temp_file w; outbox := outbox w;
     trace := trace w; faults := faults w |}.

Definition set_temp_file (t : option (list (list string))) (w : World) : World :=
  {| now := now w; host_zone := host_zone w; mailbox := mailbox w;
     drive := drive w; temp_file := t; outbox := outbox w;
     trace := trace w; faults := faults w |}.

Definition set_outbox (o : list Mail) (w : World) : World :=
  {| now := now w; host_zone := host_zone w; mailbox := mailbox w;
     drive := drive w; temp_file := temp_file w; outbox := o;
     trace := trace w; faults := faults w |}.

Definition set_trace (t : list Event) (w : World) : World :=
  {| now := now w; host_zone := host_zone w; mailbox := mailbox w;
     drive := drive w; temp_file := temp_file w; outbox := outbox w;
     trace := t; faults := faults w |}.

(** One call to an external service: it is recorded, and it throws when
    the schedule says so. *)
Definition call (e : Event) : M World unit :=
  fun w =>
    let w' := set_trace (e :: trace w) w in
    match faults w (List.length (trace w)) with
    | NoFault => (Ok tt, w')
    | _ => (Throw TransportError, w')
    end.

Definition no_faults (w : World) : Prop := forall n, faults w n = NoFault.

(** *** Gmail *)

(** Does [phrase] occur in [subject], up to case?  This stands for Gmail's
    search of a quoted phrase in the subject. *)
Fixpoint phrase_in (phrase subject : string) : bool :=
  match Pattern.lit_ci phrase subject with
  | Some _ => true
  | None =>
      match subject with
      | String _ rest => phrase_in phrase rest
      | EmptyString => false
      end
  end.

Definition received_ms (m : Message) : option Z :=
  JsDate.parseInt (internalDate m).

Definition matches (q : Query) (m : Message) : bool :=
  phrase_in (q_subject q) (msg_subject m)
  && (if q_is_unread q then msg_unread m else true)
  && match q_after q with
     | Some secs =>
         match received_ms m with
         | Some t => (secs <? t / 1000)%Z
         | None => false
         end
     | None => true
     end.

(** [gmail.users.messages.list({ userId: 'me', q, maxResults })]: the
    first page of the matching messages, at most [maxResults] of them; an
    absent [messages] property is read as the empty list. *)
Definition messages_list (q : Query) (maxResults : nat) : M World (list string) :=
  call (GmailList q maxResults) ;;
  w <- get ;;
  ret (firstn maxResults (map msg_id (filter (matches q) (mailbox w)))).

Definition find_message (id : string) (mb : list Message) : option Message :=
  find (fun m => String.eqb (msg_id m) id) mb.

(** [gmail.users.messages.get({ userId: 'me', id, format })]. *)
Definition messages_get (id : string) (format : Format) : M World Message :=
  call (GmailGet id format) ;;
  w <- get ;;
  match find_message id (mailbox w) with
  | Some m => ret m
  | None => throw NotFound
  end.

Definition mark_read (id : string) (m : Message) : Message :=
  if String.eqb (msg_id m) id
  then {| msg_id := msg_id m; msg_subject := msg_subject m;
          msg_unread := false; internalDate := internalDate m;
          payload := payload m |}
  else m.

(** [gmail.users.messages.modify({ id, resource: { removeLabelIds:
    ['UNREAD'] } })]. *)
Definition messages_modify (id : string) : M World unit :=
  call (GmailModify id) ;;
  w <- get ;;
  match find_message id (mailbox w) with
  | Some _ => modify (fun w => set_mailbox (map (mark_read id) (mailbox w)) w)
  | None => throw NotFound
  end.

(** *** Drive and Sheets *)

(** The identifiers (positions, counted from [i]) of the files that
    satisfy [p]. *)
Fixpoint find_ids (p : DriveFile -> bool) (i : nat) (d : list DriveFile) : list nat :=
  match d with
  | [] => []
  | f :: d' => if p f then i :: find_ids p (S i) d' else find_ids p (S i) d'
  end.

Definition is_folder (f : DriveFile) : bool :=
  match file_mime f with folder => true | _ => false end.

Definition is_spreadsheet (f : DriveFile) : bool :=
  match file_mime f with spreadsheet => true | _ => false end.

(** mimeType='application/vnd.google-apps.folder' and
    name='Growth Track Registrations' *)
Definition folder_query (f : DriveFile) : bool :=
  is_folder f && String.eqb (file_name f) "Growth Track Registrations".

(** 'FOLDER' in parents and
    mimeType='application/vnd.google-apps.spreadsheet' and
    name='Growth Track Signups' *)
Definition spreadsheet_query (folderId : nat) (f : DriveFile) : bool :=
  existsb (Nat.eqb folderId) (file_parents f)
  && is_spreadsheet f && String.eqb (file_name f) "Growth Track Signups".

Definition files_list (e : Event) (p : DriveFile -> bool) : M World (list nat) :=
  call e ;;
  w <- get ;;
  ret (find_ids p 0 (drive w)).

(** Creating a file: it is appended to the Drive and its position is its
    identifier. *)
Definition files_create (e : Event) (f : DriveFile) : M World nat :=
  call e ;;
  w <- get ;;
  modify (fun w => set_drive (drive w ++ [f]) w) ;;
  ret (List.length (drive w)).

(** Replace the file at position [i]. *)
Fixpoint update_nth {A} (i : nat) (f : A -> A) (l : list A) : list A :=
  match l, i with
  | [], _ => []
  | x :: l', O => f x :: l'
  | x :: l', S j => x :: update_nth j f l'
  end.

Definition lookup_spreadsheet (sid : nat) (w : World) : option DriveFile :=
  match nth_error (drive w) sid with
  | Some f => if is_spreadsheet f then Some f else None
  | None => None
  end.

Definition header : list string :=
  ["Registration Date"; "Full Name"; "Phone"; "Email"]%string.

Definition new_folder : DriveFile :=
  {| file_name := "Growth Track Registrations"; file_mime := folder;
     file_parents := []; file_rows := [] |}.

Definition new_spreadsheet : DriveFile :=
  {| file_name := "Growth Track Signups"; file_mime := spreadsheet;
     file_parents := []; file_rows := [header] |}.

(** [sheets.spreadsheets.get({ spreadsheetId })]. *)
Definition spreadsheets_get (sid : nat) : M World unit :=
  call (SheetsGet sid) ;;
  w <- get ;;
  match lookup_spreadsheet sid w with
  | Some _ => ret tt
  | None => throw NotFound
  end.

(** [sheets.spreadsheets.batchUpdate]: the header styling and the column
    width, which no later step reads. *)
Definition spreadsheets_batchUpdate (sid : nat) : M World unit :=
  call (SheetsBatchUpdate sid) ;;
  w <- get ;;
  match lookup_spreadsheet sid w with
  | Some _ => ret tt
  | None => throw NotFound
  end.

Definition add_parent (folderId : nat) (f : DriveFile) : DriveFile :=
  {| file_name := file_name f; file_mime := file_mime f;
     file_parents := folderId :: file_parents f; file_rows := file_rows f |}.

(** [drive.files.update({ fileId, addParents })]. *)
Definition files_update_addParents (fileId folderId : nat) : M World unit :=
  call (DriveAddParents fileId folderId) ;;
  w <- get ;;
  match nth_error (drive w) fileId with
  | Some _ => modify (fun w => set_drive (update_nth fileId (add_parent folderId) (drive w)) w)
  | None => throw NotFound
  end.

(** [sheets.spreadsheets.values.get({ spreadsheetId, range: 'Sheet1!A:D'
    })]; an absent [values] property is read as the empty list. *)
Definition values_get (sid : option nat) : M World (list (list string)) :=
  call (SheetsValuesGet sid) ;;
  w <- get ;;
  match sid with
  | Some i =>
      match lookup_spreadsheet i w with
      | Some f => ret (file_rows f)
      | None => throw NotFound
      end
  | None => throw NotFound
  end.

Definition add_row (row : list string) (f : DriveFile) : DriveFile :=
  {| file_name := file_name f; file_mime := file_mime f;
     file_parents := file_parents f; file_rows := file_rows f ++ [row] |}.

(** [sheets.spreadsheets.values.append({ spreadsheetId, range:
    'Sheet1!A:D', valueInputOption: 'USER_ENTERED', resource: { values:
    [row] } })]: the row goes after the last row of the table.  The model
    takes the store to hand back each cell as it was entered. *)
Definition values_append (sid : nat) (row : list string) : M World unit :=
  call (SheetsValuesAppend sid row) ;;
  w <- get ;;
  match lookup_spreadsheet sid w with
  | Some _ => modify (fun w => set_drive (update_nth sid (add_row row) (drive w)) w)
  | None => throw NotFound
  end.

(** [drive.files.export({ fileId, mimeType })]: the rows of the file. *)
Definition files_export (fileId : option nat) : M World (list (list string)) :=
  call (DriveExport fileId) ;;
  w <- get ;;
  match fileId with
  | Some i =>
      match lookup_spreadsheet i w with
      | Some f => ret (file_rows f)
      | None => throw NotFound
      end
  | None => throw NotFound
  end.

(** *** The working directory and the mail transport *)

(** [fs.writeFile(tempFilePath, data)]. *)
Definition fs_writeFile (data : list (list string)) : M World unit :=
  fun w =>
    let w' := set_trace (FsWriteFile :: trace w) w in
    match faults w (List.length (trace w)) with
    | NoFault => (Ok tt, set_temp_file (Some data) w')
    | Fail => (Throw TransportError, w')
    | FailPartial => (Throw TransportError, set_temp_file (Some []) w')
    end.

(** [fs.unlink(tempFilePath)]: removes the file, and throws when there is
    none. *)
Definition fs_unlink : M World unit :=
  fun w =>
    match temp_file w with
    | Some _ => (Ok tt, set_temp_file None w)
    | None => (Throw NotFound, w)
    end.

(** [transporter.sendMail] with the temporary file attached. *)
Definition sendMail (from_date : string) : M World unit :=
  call SendMail ;;
  w <- get ;;
  match temp_file w with
  | Some rows =>
      modify (set_outbox ({| mail_from_date := from_date;
                             mail_attachment := rows |} :: outbox w))
  | None => throw NotFound
  end.

End World.

(** ** The pipeline of [index.js] *)

Module Pipeline.
Import Monad Monad.Notations World.
Local Open Scope list_scope.

Record SignupRecord := {
  date : string;
  name : string;
  phone : string;
  email : string
}.

(** [const sevenDaysAgo = new Date();
    sevenDaysAgo.setDate(sevenDaysAgo.getDate() - 7)]: seven calendar days
    back in the host's local time, which is seven times 24 hours back only
    where the host's zone has the same offset at both ends. *)
Definition sevenDaysAgo (w : World) : Z :=
  JsDate.setDate_back (host_zone w) 7 (now w).

Definition primary_query : Query :=
  {| q_subject := "Growth Track Signup"; q_is_unread := true; q_after := None |}.

Definition fallback_query : Query :=
  {| q_subject := "Growth Track Sign Up Form"; q_is_unread := true; q_after := None |}.

(** [queryEmails(auth)].  [after] is computed as in the source, and as in
    the source no query uses it. *)
Definition queryEmails : M World (list string) :=
  try_catch
    (w <- get ;;
     let after := (sevenDaysAgo w / 1000)%Z in
     messages <- messages_list primary_query 100 ;;
     messages <- (if Nat.eqb (List.length messages) 0
                  then messages_list fallback_query 100
                  else ret messages) ;;
     (if Nat.ltb 0 (List.length messages)
      then for_of messages (fun id => _ <- messages_get id metadata ;; ret tt)
      else ret tt) ;;
     ret messages)
    (fun error => throw error).

(** [Buffer.from(data, 'base64').toString('utf8')]: a TypeError when
    [data] is undefined. *)
Definition decode (data : option string) : M World string :=
  match data with
  | Some text => ret text
  | None => throw TypeError
  end.

(** The body text [extractSignupInfo] reads: the first part's body when
    [payload.parts] is present (an empty array has no first part, and
    reading its [body] is a TypeError), the top-level body otherwise. *)
Definition message_body (p : Payload) : M World string :=
  match parts p with
  | Some (part0 :: _) => decode (part_data part0)
  | Some [] => throw TypeError
  | None => decode (body_data p)
  end.

(** The record built from a fetched message and its decoded body. *)
Definition record_of (host : JsDate.HostZone) (res : Message) (body : string) : SignupRecord :=
  let emailDate := JsDate.new_Date (JsDate.parseInt (internalDate res)) in
  {| date := JsDate.formatDate host emailDate;
     name := Pattern.field Pattern.Name body;
     phone := Pattern.field Pattern.Phone body;
     email := Pattern.field Pattern.Email body |}.

(** [extractSignupInfo(auth, messageId)]. *)
Definition extractSignupInfo (messageId : string) : M World SignupRecord :=
  res <- messages_get messageId full ;;
  body <- message_body (payload res) ;;
  w <- get ;;
  ret (record_of (host_zone w) res body).

(** [createOrGetSpreadsheet(auth)]. *)
Definition createOrGetSpreadsheet : M World nat :=
  folders <- files_list DriveListFolders folder_query ;;
  folderId <- match folders with
              | f :: _ => ret f
              | [] => files_create DriveCreateFolder new_folder
              end ;;
  sheets <- files_list (DriveListSpreadsheets folderId) (spreadsheet_query folderId) ;;
  match sheets with
  | s :: _ =>
      spreadsheets_get s ;;
      ret s
  | [] =>
      s <- files_create SheetsCreate new_spreadsheet ;;
      spreadsheets_batchUpdate s ;;
      files_update_addParents s folderId ;;
      ret s
  end.

Definition row_of (data : SignupRecord) : list string :=
  [date data; name data; phone data; email data].

(** [saveToGoogleSheets(auth, data)]; the identifier it resolved is what
    the caller reads from the result. *)
Definition saveToGoogleSheets (data : SignupRecord) : M World nat :=
  sid <- createOrGetSpreadsheet ;;
  values_append sid (row_of data) ;;
  ret sid.

(** [row[i] === s]: an absent cell is [undefined], which equals no
    string. *)
Definition cell_is (row : list string) (i : nat) (s : string) : bool :=
  match nth_error row i with
  | Some c => String.eqb c s
  | None => false
  end.

Definition same_triple (data : SignupRecord) (row : list string) : bool :=
  cell_is row 1 (name data) && cell_is row 2 (phone data)
  && cell_is row 3 (email data).

(** [isDuplicateEntry(auth, data, spreadsheetId)]. *)
Definition isDuplicateEntry (data : SignupRecord) (sid : option nat) : M World bool :=
  rows <- values_get sid ;;
  ret (existsb (same_triple data) rows).

(** [markEmailAsRead(auth, messageId)]. *)
Definition markEmailAsRead (messageId : string) : M World unit :=
  try_catch (messages_modify messageId) (fun error => throw error).

(** [sendEmail(auth, spreadsheetId)]. *)
Definition sendEmail (sid : option nat) : M World unit :=
  try_catch
    (data <- files_export sid ;;
     fs_writeFile data ;;
     w <- get ;;
     let dateStr :=
       JsDate.formatDate (host_zone w) (JsDate.new_Date (Some (sevenDaysAgo w))) in
     sendMail dateStr ;;
     fs_unlink)
    (fun error =>
       try_catch fs_unlink (fun _ => ret tt) ;;
       throw error).

(** The variables of [main] that the loop assigns.  A Drive identifier is
    a non-empty string, so [!spreadsheetId] holds exactly while the
    variable is still undefined. *)
Record Locals := {
  spreadsheetId : option nat;
  processedCount : nat;
  skippedCount : nat
}.

Definition initial : Locals :=
  {| spreadsheetId := None; processedCount := 0; skippedCount := 0 |}.

Definition Run : Type := Locals * World.

Definition assign_spreadsheetId (sid : nat) (r : Run) : Run :=
  ({| spreadsheetId := Some sid;
      processedCount := processedCount (fst r);
      skippedCount := skippedCount (fst r) |}, snd r).

Definition incr_processedCount (r : Run) : Run :=
  ({| spreadsheetId := spreadsheetId (fst r);
      processedCount := S (processedCount (fst r));
      skippedCount := skippedCount (fst r) |}, snd r).

Definition incr_skippedCount (r : Run) : Run :=
  ({| spreadsheetId := spreadsheetId (fst r);
      processedCount := processedCount (fst r);
      skippedCount := S (skippedCount (fst r)) |}, snd r).

(** The steps of the loop body once the record is extracted and the
    store identifier is known: duplicate check, save, mark as read. *)
Definition record_and_mark (messageId : string) (signupInfo : SignupRecord) : M Run unit :=
  r <- get ;;
  isDuplicate <- lift (isDuplicateEntry signupInfo (spreadsheetId (fst r))) ;;
  (if isDuplicate : bool
   then modify incr_skippedCount
   else result <- lift (saveToGoogleSheets signupInfo) ;;
        modify (assign_spreadsheetId result) ;;
        modify incr_processedCount) ;;
  lift (markEmailAsRead messageId).

(** The guarded resolution: [if (!spreadsheetId) spreadsheetId = await
    createOrGetSpreadsheet(auth)]. *)
Definition resolve_once : M Run unit :=
  r <- get ;;
  match spreadsheetId (fst r) with
  | None =>
      sid <- lift createOrGetSpreadsheet ;;
      modify (assign_spreadsheetId sid)
  | Some _ => ret tt
  end.

(** The body of the loop of [main] for one message; an error thrown by
    any step is caught and the loop goes on. *)
Definition process_message (messageId : string) : M Run unit :=
  try_catch
    (signupInfo <- lift (extractSignupInfo messageId) ;;
     resolve_once ;;
     record_and_mark messageId signupInfo)
    (fun _ => ret tt).

(** [main()], from the mailbox query on; credentials are taken as
    obtained. *)
Definition main : M Run unit :=
  try_catch
    (messages <- lift queryEmails ;;
     for_of messages process_message ;;
     r <- get ;;
     if Nat.ltb 0 (processedCount (fst r))
     then lift (sendEmail (spreadsheetId (fst r)))
     else ret tt)
    (fun _ => ret tt).

(** The variables and the world when [main] has returned. *)
Definition run (w : World) : Run := snd (main (initial, w)).

End Pipeline.

(** ** Vocabulary of the properties *)

Module Spec.
Import Monad Monad.Notations World Pipeline.
Local Open Scope list_scope.

(** The field of a record that belongs to a pattern key. *)
Definition field_of (k : Pattern.Key) (r : SignupRecord) : string :=
  match k with
  | Pattern.Name => name r
  | Pattern.Phone => phone r
  | Pattern.Email => email r
  end.

(** The text [message_body] decodes, when there is one. *)
Definition decoded_body (p : Payload) : option string :=
  match parts p with
  | Some (part0 :: _) => part_data part0
  | Some [] => None
  | None => body_data p
  end.

(** The next call to an external service is not scheduled to fail. *)
Definition next_call_ok (w : World) : Prop :=
  faults w (List.length (trace w)) = NoFault.

(** The identifiers of all the messages a query matches, in listing
    order, and the page of at most 100 that one call returns. *)
Definition all_matching (q : Query) (w : World) : list string :=
  map msg_id (filter (matches q) (mailbox w)).

Definition listing (q : Query) (w : World) : list string :=
  firstn 100 (all_matching q w).

(** The query whose result [queryEmails] returns: the primary one unless
    its page is empty. *)
Definition selected_query (w : World) : Query :=
  match listing primary_query w with
  | [] => fallback_query
  | _ :: _ => primary_query
  end.

(** The search expressions sent to [messages.list], oldest first. *)
Fixpoint queries_issued (t : list Event) : list Query :=
  match t with
  | [] => []
  | GmailList q _ :: t' => queries_issued t' ++ [q]
  | _ :: t' => queries_issued t'
  end.

(** *** The store *)

(** The Drive resolves to the spreadsheet [sid]: the folder lookup finds a
    folder, and the spreadsheet lookup in the first folder found finds
    [sid] first. *)
Definition resolved (w : World) (sid : nat) : Prop :=
  exists fid rest rest',
    find_ids folder_query 0 (drive w) = fid :: rest
    /\ find_ids (spreadsheet_query fid) 0 (drive w) = sid :: rest'.

(** The rows of the spreadsheet [sid]. *)
Definition rows_at (w : World) (sid : nat) : option (list (list string)) :=
  match lookup_spreadsheet sid w with
  | Some f => Some (file_rows f)
  | None => None
  end.

(** The (name, phone, email) cells of a row; a cell the row does not have
    is [None]. *)
Definition triple (row : list string) : option string * option string * option string :=
  (nth_error row 1, nth_error row 2, nth_error row 3).

Definition triple_of (c : SignupRecord) : option string * option string * option string :=
  (Some (name c), Some (phone c), Some (email c)).

(** No two rows below the header have the same triple. *)
Definition no_repeat (rows : list (list string)) : Prop :=
  NoDup (map triple (tl rows)).

Definition unique_at (i : nat) (w : World) : Prop :=
  forall f, nth_error (drive w) i = Some f -> no_repeat (file_rows f).

(** A file as it is created: without rows, or with the header row only. *)
Definition pristine (f : DriveFile) : Prop :=
  file_rows f = [] \/ file_rows f = [header].

(** Every message with identifier [id] has lost its UNREAD label. *)
Definition is_read (id : string) (w : World) : Prop :=
  forall m, In m (mailbox w) -> msg_id m = id -> msg_unread m = false.

(** *** Counting calls *)

Definition is_resolution (e : Event) : bool :=
  match e with DriveListFolders => true | _ => false end.

Definition is_export (e : Event) : bool :=
  match e with DriveExport _ => true | _ => false end.

Definition is_send (e : Event) : bool :=
  match e with SendMail => true | _ => false end.

Definition count (p : Event -> bool) (t : list Event) : nat :=
  List.length (filter p t).

(** Store resolutions begun: each one starts with the folder lookup. *)
Definition resolutions (t : list Event) : nat := count is_resolution t.
Definition exports (t : list Event) : nat := count is_export t.
Definition sends (t : list Event) : nat := count is_send t.

(** The second half of [createOrGetSpreadsheet], once the folder is
    known. *)
Definition resolve_in (folderId : nat) : M World nat :=
  sheets <- files_list (DriveListSpreadsheets folderId) (spreadsheet_query folderId) ;;
  match sheets with
  | s :: _ =>
      spreadsheets_get s ;;
      ret s
  | [] =>
      s <- files_create SheetsCreate new_spreadsheet ;;
      spreadsheets_batchUpdate s ;;
      files_update_addParents s folderId ;;
      ret s
  end.

(** What the loop of [main] maintains whichever calls fail: a cached
    identifier is the one the Drive resolves to, the file at position [i]
    has no repeated triple, and a record has been counted only after the
    identifier was set. *)
Definition store_invariant (i : nat) (r : Run) : Prop :=
  (forall s, spreadsheetId (fst r) = Some s -> resolved (snd r) s)
  /\ unique_at i (snd r)
  /\ (0 < processedCount (fst r) -> spreadsheetId (fst r) <> None).

(** The guarded resolution has run: 1 once the identifier is cached. *)
Definition guard_resolutions (l : Locals) : nat :=
  match spreadsheetId l with
  | Some _ => 1
  | None => 0
  end.

(** What the loop of [main] maintains when no call fails: besides the
    cached identifier being the resolved one, the resolutions begun since
    the trace held [r0] of them are the guarded one and one per accepted
    record. *)
Definition counting_invariant (r0 : nat) (r : Run) : Prop :=
  no_faults (snd r)
  /\ (forall s, spreadsheetId (fst r) = Some s -> resolved (snd r) s)
  /\ resolutions (trace (snd r))
     = r0 + guard_resolutions (fst r) + processedCount (fst r)
  /\ (0 < processedCount (fst r) -> spreadsheetId (fst r) <> None).

(** *** What a step leaves alone *)

Definition same_drive (w w' : World) : Prop := drive w' = drive w.

(** No row is written: a file of [w'] has the rows it had in [w], or is
    pristine. *)
Definition keeps_rows (w w' : World) : Prop :=
  forall i f', nth_error (drive w') i = Some f' ->
    (exists f, nth_error (drive w) i = Some f /\ file_rows f' = file_rows f)
    \/ pristine f'.

(** The schedule is not touched and the calls made are all [allowed]. *)
Definition emits (allowed : Event -> bool) (w w' : World) : Prop :=
  faults w' = faults w
  /\ exists new, trace w' = new ++ trace w /\ forallb allowed new = true.

Definition not_dispatch (e : Event) : bool :=
  negb (is_export e) && negb (is_send e).

Definition not_resolution (e : Event) : bool := negb (is_resolution e).

(** A step of a computation is within [R] whatever it returns. *)
Definition within {S A} (R : S -> S -> Prop) (m : M S A) : Prop :=
  forall s, R s (snd (m s)).

(** A relation on worlds, read on the runs of [main]. *)
Definition on_world (R : World -> World -> Prop) (r r' : Run) : Prop :=
  R (snd r) (snd r').

(** *** Further vocabulary: what the pipeline never does *)

(** Files stay, keep their name and kind, keep every parent, and have
    rows added at the end only. *)
Definition grows_only (w w' : World) : Prop :=
  forall i f, nth_error (drive w) i = Some f ->
    exists f', nth_error (drive w') i = Some f'
      /\ file_name f' = file_name f /\ file_mime f' = file_mime f
      /\ incl (file_parents f) (file_parents f')
      /\ exists more, file_rows f' = file_rows f ++ more.

(** The same message, except that it may have lost the UNREAD label. *)
Definition same_but_unread (m m' : Message) : Prop :=
  msg_id m' = msg_id m /\ msg_subject m' = msg_subject m
  /\ internalDate m' = internalDate m /\ payload m' = payload m
  /\ (msg_unread m' = true -> msg_unread m = true).

(** The mailbox holds the same messages in the same order; UNREAD labels
    may have been removed, none was added. *)
Definition only_marks (w w' : World) : Prop :=
  Forall2 same_but_unread (mailbox w) (mailbox w').

(** Nothing but the trace of calls has changed. *)
Definition only_calls (w w' : World) : Prop :=
  now w' = now w /\ host_zone w' = host_zone w
  /\ mailbox w' = mailbox w /\ drive w' = drive w
  /\ temp_file w' = temp_file w /\ outbox w' = outbox w
  /\ faults w' = faults w.

(** The mailbox is as it was. *)
Definition same_mailbox (w w' : World) : Prop := mailbox w' = mailbox w.

(** The clock, the host zone and the mails sent are as they were. *)
Definition same_outbox (w w' : World) : Prop :=
  now w' = now w /\ host_zone w' = host_zone w /\ outbox w' = outbox w.

(** The identifiers fetched in full, oldest first. *)
Fixpoint fetched (t : list Event) : list string :=
  match t with
  | [] => []
  | GmailGet id full :: t' => fetched t' ++ [id]
  | _ :: t' => fetched t'
  end.

Definition not_fetch (e : Event) : bool :=
  match e with
  | GmailGet _ full => false
  | _ => true
  end.

(** The record [extractSignupInfo] builds for the identifier [id]: that of
    the message the mailbox returns for [id], when its body decodes. *)
Definition signup_of (w : World) (id : string) : option SignupRecord :=
  match find_message id (mailbox w) with
  | Some m =>
      match decoded_body (payload m) with
      | Some body => Some (record_of (host_zone w) m body)
      | None => None
      end
  | None => None
  end.

(** The spreadsheet whose identifier [main] holds has a row with the
    (name, phone, email) triple of [c]. *)
Definition stored (c : SignupRecord) (r : Run) : Prop :=
  exists s rows,
    spreadsheetId (fst r) = Some s
    /\ rows_at (snd r) s = Some rows
    /\ exists row, In row rows /\ triple row = triple_of c.

(** A message and what a run made of it: the same message, and if the run
    removed its UNREAD label, its record is stored. *)
Definition marked_means_stored (w0 : World) (r : Run) (m m' : Message) : Prop :=
  msg_unread m = true -> msg_unread m' = false ->
  exists c, signup_of w0 (msg_id m) = Some c /\ stored c r.

(** The cached identifier, if any, is the one the Drive resolves to. *)
Definition cache_valid (r : Run) : Prop :=
  forall s, spreadsheetId (fst r) = Some s -> resolved (snd r) s.

(** The next [n] calls to an external service are not scheduled to
    fail. *)
Definition calls_ok (n : nat) (w : World) : Prop :=
  forall k, k < n -> faults w (List.length (trace w) + k) = NoFault.

(** The calls [queryEmails] makes when none fails: one listing, or two
    when the first page of the primary query is empty, and one metadata
    request per message listed. *)
Definition scan_calls (w : World) : nat :=
  match listing primary_query w with
  | [] => 2
  | _ :: _ => 1
  end + List.length (listing (selected_query w) w).

(** The message the mailbox returns for [id] has a body that decodes. *)
Definition decodes (w : World) (id : string) : bool :=
  match signup_of w id with
  | Some _ => true
  | None => false
  end.

(** The messages [main] has settled: records accepted and duplicates
    skipped. *)
Definition settled (l : Locals) : nat := processedCount l + skippedCount l.

(** No row is written and no file is removed: a file of [w'] is a file of
    [w] with its rows and its kind, or a new one as it is created, a
    folder or a spreadsheet holding the header row. *)
Definition no_row_written (w w' : World) : Prop :=
  List.length (drive w) <= List.length (drive w')
  /\ forall i f', nth_error (drive w') i = Some f' ->
       (exists f, nth_error (drive w) i = Some f
                  /\ file_rows f' = file_rows f /\ file_mime f' = file_mime f)
       \/ (nth_error (drive w) i = None
           /\ (file_mime f' = folder \/ file_rows f' = [header])).



(** The world when the loop of [main] has ended, before the report is
    dispatched. *)
Definition before_dispatch (w : World) : World :=
  match queryEmails w with
  | (Ok msgs, w1) => snd (snd (for_of msgs process_message (initial, w1)))
  | (Throw _, w1) => w1
  end.

(** What the loop maintains, for a run started in [w0]. *)
Definition delivery_invariant (w0 : World) (r : Run) : Prop :=
  cache_valid r
  /\ host_zone (snd r) = host_zone w0
  /\ only_marks w0 (snd r)
  /\ Forall2 (marked_means_stored w0 r) (mailbox w0) (mailbox (snd r)).

End Spec.

(** ** Concrete mailboxes and worlds used as examples *)

Module Examples.
Import Monad World Pipeline.
Local Open Scope list_scope.

Definition row (label value : string) : string :=
  (Pattern.label_cell label ++ "<td>" ++ value ++ "</td>")%string.

Definition message (id subject received body : string) : Message :=
  {| msg_id := id; msg_subject := subject; msg_unread := true;
     internalDate := received;
     payload := {| parts := Some [ {| part_data := Some body |} ];
                   body_data := None |} |}.

(** A host whose zone is UTC. *)
Definition utc_host : JsDate.HostZone :=
  {| JsDate.offset_at := fun _ => 0%Z; JsDate.offset_at_local := fun _ => 0%Z |}.

Definition world_of (host : JsDate.HostZone) (clock : Z) (mb : list Message)
    (d : list DriveFile) (schedule : nat -> Fault) : World :=
  {| now := clock; host_zone := host; mailbox := mb; drive := d;
     temp_file := None; outbox := []; trace := []; faults := schedule |}.

Definition world (clock : Z) (mb : list Message) (d : list DriveFile)
    (schedule : nat -> Fault) : World :=
  world_of utc_host clock mb d schedule.

Definition never : nat -> Fault := fun _ => NoFault.

(** A body with the three labelled rows, the phone cell holding one
    space. *)
Definition blank_phone_body : string :=
  (row "Full Name:" "Ann" ++ row "Phone:" " " ++ row "Email:" "ann@example.org")%string.

Definition blank_phone_world : World :=
  world 1700000000000
    [message "m1" "Growth Track Signup" "1700000000000" blank_phone_body]
    [] never.

(** A body whose first phone cell is empty, followed by a second phone
    row, and whose email cell holds a link. *)
Definition linked_body : string :=
  (row "Full Name:" " Ann Lee " ++ row "Phone:" "" ++ row "Phone:" "071 234 5678"
   ++ Pattern.label_cell "Email:"
   ++ "<td><a href=mailto:ann@example.org>ann@example.org</a></td>")%string.

Definition linked_world : World :=
  world 1700000000000
    [message "m1" "Growth Track Signup" "1700000000000" linked_body]
    [] never.

(** A body with the name row only, the value padded with white space. *)
Definition name_only_body : string :=
  row "Full Name:" "  Ann Lee ".

Definition name_only_world : World :=
  world 1700000000000
    [message "m1" "Growth Track Signup" "1700000000000" name_only_body]
    [] never.

(** A body with the three labelled rows, each value padded. *)
Definition padded_body : string :=
  (row "Full Name:" " Ann Lee " ++ row "Phone:" "071 234 5678 "
   ++ row "Email:" " ann@example.org")%string.

Definition padded_message : Message :=
  message "m1" "Growth Track Signup" "1700000000000" padded_body.

Definition padded_world : World :=
  world 1700000000000 [padded_message] [] never.



(** A notification received on the third day of a month. *)
Definition early_message : Message :=
  message "e1" "Growth Track Signup" "1699000000000" padded_body.

Definition early_world : World :=
  world 1700000000000 [early_message] [] never.

(** An unread notification received long before the run: the clock reads
    1700000000000 and the message arrived at 1600000000000, more than three
    years earlier. *)
Definition stale_message : Message :=
  message "old" "Growth Track Signup" "1600000000000" padded_body.

Definition stale_world : World :=
  world 1700000000000 [stale_message] [] never.

(** A mailbox of [n] unread notifications, identified "1" to "n". *)
Definition crowd (n : nat) : list Message :=
  map (fun i => message (NilZero.string_of_uint (Nat.to_uint i))
                  "Growth Track Signup" "1700000000000" padded_body)
      (seq 1 n).

Definition crowd_world : World := world 1700000000000 (crowd 101) [] never.

(** Only the legacy subject is present. *)
Definition legacy_world : World :=
  world 1700000000000
    [message "f1" "Growth Track Sign Up Form" "1700000000000" padded_body]
    [] never.

(** A Drive that already holds the folder and the spreadsheet, with one
    recorded signup. *)
Definition ann_row : list string :=
  ["15 November 2023"; "Ann Lee"; "071 234 5678"; "ann@example.org"]%string.

Definition stored_sheet : DriveFile :=
  {| file_name := "Growth Track Signups"; file_mime := spreadsheet;
     file_parents := [0]; file_rows := [header; ann_row] |}.

Definition stored_world : World :=
  world 1700000000000 [padded_message] [new_folder; stored_sheet] never.


Definition cached (sid : nat) : Locals :=
  {| spreadsheetId := Some sid; processedCount := 0; skippedCount := 0 |}.

(** One new notification, an empty Drive, and the call number [n]
    failing. *)
Definition failing_at (n : nat) : nat -> Fault :=
  fun k => if Nat.eqb k n then Fail else NoFault.

Definition new_signup_world (schedule : nat -> Fault) : World :=
  world 1700000000000 [padded_message] [] schedule.

(** One new notification and a Drive that holds the folder and no
    spreadsheet yet. *)
Definition folder_only_world (schedule : nat -> Fault) : World :=
  world 1700000000000 [padded_message] [new_folder] schedule.

(** A notification whose [internalDate] is not a number. *)
Definition undated_world : World :=
  world 1700000000000
    [message "u1" "Growth Track Signup" "soon" padded_body] [] never.

(** The stored signup arrives once more, and a new signup without a
    phone row arrives twice. *)
Definition bob_body : string :=
  (row "Full Name:" "Bob Roe" ++ row "Email:" "bob@example.org")%string.

Definition stored_twin_world : World :=
  world 1700000000000
    [message "m1" "Growth Track Signup" "1700000000000" padded_body;
     message "m2" "Growth Track Signup" "1700000100000" bob_body;
     message "m3" "Growth Track Signup" "1700000200000" bob_body]
    [new_folder; stored_sheet] never.

(** Two notifications with the same name, phone and email, and an empty
    Drive. *)
Definition twin_world : World :=
  world 1700000000000
    [message "m1" "Growth Track Signup" "1700000000000" padded_body;
     message "m2" "Growth Track Signup" "1700000500000" padded_body]
    [] never.

End Examples.

(** * Properties *)

(** ** The extraction patterns find the first labelled row *)

Module PatternFacts.
Import JsString Pattern.

Lemma lit_ci_app p : forall lab r,
  eq_ci p lab = true -> lit_ci p (lab ++ r) = Some r.
Proof.
  induction p as [|a p IH]; intros [|b lab] r H; simpl in *; try discriminate.
  - reflexivity.
  - apply andb_prop in H as [H1 H2]. rewrite H1. auto.
Qed.

Lemma lit_ci_inv p : forall s r,
  lit_ci p s = Some r -> exists lab, s = lab ++ r /\ eq_ci p lab = true.
Proof.
  induction p as [|a p IH]; intros s r H; simpl in H.
  - inversion H; subst. exists "". auto.
  - destruct s as [|b s]; try discriminate.
    destruct (char_eq_ci a b) eqn:E; try discriminate.
    apply IH in H as (lab & -> & H). exists (String b lab).
    simpl. rewrite E. auto.
Qed.

Lemma skip_space_app ws r :
  all_space ws = true -> skip_space (ws ++ r) = skip_space r.
Proof.
  induction ws as [|c ws IH]; simpl; intros H; auto.
  apply andb_prop in H as [H1 H2]. rewrite H1. auto.
Qed.

Lemma skip_space_inv s :
  exists ws, s = ws ++ skip_space s /\ all_space ws = true.
Proof.
  induction s as [|c s (ws & E & H)]; simpl.
  - exists "". auto.
  - destruct (is_space c) eqn:S.
    + exists (String c ws). simpl. rewrite S, H, <- E. auto.
    + exists "". auto.
Qed.

Lemma char_lt c : char_eq_ci "<" c = true -> c = "<"%char.
Proof.
  destruct c as [[] [] [] [] [] [] [] []]; vm_compute; intros H;
    try discriminate H; reflexivity.
Qed.

Lemma eq_ci_lt_head p cl :
  eq_ci (String "<" p) cl = true -> exists cl', cl = String "<" cl'.
Proof.
  destruct cl as [|c cl]; simpl; try discriminate.
  intros H. apply andb_prop in H as [H _]. apply char_lt in H. subst. eauto.
Qed.

Lemma span_not_lt_app v r :
  no_lt v = true -> span_not_lt (v ++ String "<" r) = (v, String "<" r).
Proof.
  induction v as [|c v IH]; simpl; intros H; auto.
  apply andb_prop in H as [H1 H2].
  destruct (Ascii.eqb c "<"); try discriminate. rewrite (IH H2). reflexivity.
Qed.

Lemma span_not_lt_inv s : forall v r,
  span_not_lt s = (v, r) ->
  s = v ++ r /\ no_lt v = true.
Proof.
  induction s as [|c s IH]; simpl; intros v r H.
  - inversion H. auto.
  - destruct (Ascii.eqb c "<") eqn:E.
    + inversion H. auto.
    + destruct (span_not_lt s) as [v' r'] eqn:Es. inversion H; subst.
      destruct (IH _ _ eq_refl) as [-> Hv]. simpl. rewrite E. auto.
Qed.

Lemma eqb_empty_false v : v <> "" -> String.eqb v "" = false.
Proof. intros H. apply String.eqb_neq. exact H. Qed.

(** A match attempt succeeds exactly on a labelled row that starts there. *)
Lemma match_at_row label s v :
  match_at label s = Some v <-> row_at label s 0 v.
Proof.
  unfold match_at, row_at. split.
  - destruct (lit_ci (label_cell label) s) as [r1|] eqn:E1; try discriminate.
    destruct (lit_ci "<td>" (skip_space r1)) as [r2|] eqn:E2; try discriminate.
    destruct (span_not_lt r2) as [v' r3] eqn:E3.
    destruct (String.eqb v' "") eqn:E4; try discriminate.
    destruct (lit_ci "</td>" r3) as [post|] eqn:E5; try discriminate.
    intros H; inversion H; subst v'.
    apply lit_ci_inv in E1 as (lab & -> & Hlab).
    apply lit_ci_inv in E2 as (op & Eop & Hop).
    apply lit_ci_inv in E5 as (cl & -> & Hcl).
    apply span_not_lt_inv in E3 as [-> Hv].
    destruct (skip_space_inv r1) as (ws & Ews & Hws).
    exists "", lab, ws, op, cl, post. simpl.
    rewrite Ews at 1. rewrite Eop.
    repeat split; auto.
    apply String.eqb_neq. exact E4.
  - intros (pre & lab & ws & op & cl & post & -> & Hpre & Hlab & Hws & Hop & Hv & Hne & Hcl).
    destruct pre; try discriminate. cbn [append].
    rewrite (lit_ci_app _ _ _ Hlab), (skip_space_app _ _ Hws).
    assert (Hs : skip_space (op ++ v ++ cl ++ post) = op ++ v ++ cl ++ post)
      by (destruct (eq_ci_lt_head _ _ Hop) as [op' ->]; reflexivity).
    rewrite Hs, (lit_ci_app _ _ _ Hop).
    assert (Hsp : span_not_lt (v ++ cl ++ post) = (v, cl ++ post))
      by (destruct (eq_ci_lt_head _ _ Hcl) as [cl' ->];
          apply (span_not_lt_app v (cl' ++ post) Hv)).
    rewrite Hsp, (eqb_empty_false _ Hne).
    rewrite (lit_ci_app _ _ _ Hcl). reflexivity.
Qed.

Lemma row_at_shift label c s n v :
  row_at label (String c s) (S n) v <-> row_at label s n v.
Proof.
  unfold row_at. split.
  - intros (pre & lab & ws & op & cl & post & E & Hpre & H).
    destruct pre as [|c' pre]; try discriminate. simpl in E, Hpre.
    inversion E; subst. exists pre, lab, ws, op, cl, post.
    split; [reflexivity|]. split; [congruence|exact H].
  - intros (pre & lab & ws & op & cl & post & -> & Hpre & H).
    exists (String c pre), lab, ws, op, cl, post.
    split; [reflexivity|]. split; [simpl; congruence|exact H].
Qed.

Lemma row_at_bound label s n v : row_at label s n v -> n < String.length s.
Proof.
  revert n. induction s as [|c s IH]; intros n H.
  - destruct H as (pre & lab & ws & op & cl & post & E & Hpre & Hlab & _).
    destruct pre; try discriminate. destruct lab; discriminate.
  - destruct n; simpl; [lia|]. apply row_at_shift in H. apply IH in H. lia.
Qed.

(** [match] returns the value cell of the first labelled row. *)
Lemma regex_match_first_row label s v :
  regex_match label s = Some v <-> first_row label s v.
Proof.
  revert v. induction s as [|c s IH]; intros v.
  - split; [discriminate|].
    intros (n & H & _). pose proof (row_at_bound _ _ _ _ H) as B.
    simpl in B. lia.
  - cbn [regex_match]. destruct (match_at label (String c s)) as [v'|] eqn:E.
    + split.
      * intros H; inversion H; subst. exists 0. split.
        -- apply match_at_row. exact E.
        -- intros; lia.
      * intros (n & H & Hmin). destruct n.
        -- apply match_at_row in H. congruence.
        -- exfalso. apply (Hmin 0 v'); [lia|]. apply match_at_row. exact E.
    + rewrite IH. split.
      * intros (n & H & Hmin). exists (S n). split.
        -- apply row_at_shift. exact H.
        -- intros m v' Hm Hrow. destruct m.
           ++ apply match_at_row in Hrow. congruence.
           ++ apply row_at_shift in Hrow. apply (Hmin m v'); [lia|exact Hrow].
      * intros (n & H & Hmin). destruct n.
        -- apply match_at_row in H. congruence.
        -- exists n. split.
           ++ apply row_at_shift in H. exact H.
           ++ intros m v' Hm Hrow. apply (Hmin (S m) v'); [lia|].
              apply row_at_shift. exact Hrow.
Qed.

(** [match] returns [null] exactly when the body has no labelled row. *)
Lemma regex_match_none label s :
  regex_match label s = None <-> ~ has_row label s.
Proof.
  unfold has_row. induction s as [|c s IH]; cbn [regex_match].
  - split; auto. intros _ (n & v & H).
    pose proof (row_at_bound _ _ _ _ H) as B. simpl in B. lia.
  - destruct (match_at label (String c s)) as [v|] eqn:E.
    + split; [discriminate|]. intros H. exfalso. apply H.
      exists 0, v. apply match_at_row. exact E.
    + rewrite IH. split.
      * intros H (n & v & Hrow). destruct n.
        -- apply match_at_row in Hrow. congruence.
        -- apply H. exists n, v. apply row_at_shift in Hrow. exact Hrow.
      * intros H (n & v & Hrow). apply H. exists (S n), v.
        apply row_at_shift. exact Hrow.
Qed.

End PatternFacts.

(** ** Field extraction *)

Module ExtractFacts.
Import Monad World Pipeline Spec JsString Pattern PatternFacts.

Lemma extractSignupInfo_ok w id m body :
  next_call_ok w ->
  find_message id (mailbox w) = Some m ->
  decoded_body (payload m) = Some body ->
  extractSignupInfo id w
  = (Ok (record_of (host_zone w) m body),
     set_trace (GmailGet id full :: trace w) w).
Proof.
  unfold next_call_ok, decoded_body. intros Hf Hm Hb.
  unfold extractSignupInfo, messages_get, call, bind, get.
  rewrite Hf. cbn [mailbox set_trace]. rewrite Hm. cbn [ret].
  unfold message_body. destruct (parts (payload m)) as [[|p0 ps]|];
    try discriminate; rewrite Hb; reflexivity.
Qed.

(** When [extractSignupInfo] throws: the fetch failed or did not find the
    message, or the payload holds no body data to decode. *)
Lemma extractSignupInfo_throws w id e w' :
  extractSignupInfo id w = (Throw e, w') ->
  e = TransportError
  \/ (e = NotFound /\ find_message id (mailbox w) = None)
  \/ (e = TypeError
      /\ exists m, find_message id (mailbox w) = Some m
                   /\ decoded_body (payload m) = None).
Proof.
  unfold extractSignupInfo, messages_get, call, bind, get.
  destruct (faults w _); cbn [mailbox set_trace];
    try (intros H; inversion H; auto; fail).
  destruct (find_message id (mailbox w)) as [m|] eqn:Hm; cbn [ret throw].
  - intros H. right. right.
    assert (D : decoded_body (payload m) = None /\ e = TypeError).
    { unfold message_body, decode, decoded_body in *.
      destruct (parts (payload m)) as [[|p0 ps]|].
      - inversion H. auto.
      - destruct (part_data p0); inversion H. auto.
      - destruct (body_data (payload m)); inversion H. auto. }
    destruct D as [D ->]. eauto.
  - intros H. inversion H. auto.
Qed.

Lemma or_else_if a b :
  or_else a b = if String.eqb a "" then b else a.
Proof. unfold or_else, truthy. destruct (String.eqb a ""); reflexivity. Qed.

Lemma field_first_row k body v :
  first_row (patterns k) body v ->
  field k body = if String.eqb (trim v) "" then sentinel else trim v.
Proof.
  intros H. apply regex_match_first_row in H.
  unfold field, extract_key. rewrite H. apply or_else_if.
Qed.

Lemma field_no_row k body :
  ~ has_row (patterns k) body -> field k body = sentinel.
Proof.
  intros H. apply regex_match_none in H.
  unfold field, extract_key. rewrite H. reflexivity.
Qed.

Lemma field_nonempty k body : field k body <> "".
Proof.
  unfold field. rewrite or_else_if.
  destruct (String.eqb (extract_key k body) "") eqn:E.
  - discriminate.
  - apply String.eqb_neq. exact E.
Qed.

Lemma field_of_record k host m body :
  field_of k (record_of host m body) = field k body.
Proof. destruct k; reflexivity. Qed.

Lemma append_nonempty a c b : (a ++ String c b)%string <> "".
Proof. destruct a; discriminate. Qed.

Lemma formatDate_nonempty host d : JsDate.formatDate host d <> "".
Proof.
  unfold JsDate.formatDate, JsDate.toLocaleDateString_en_ZA.
  destruct d as [t|]; [|discriminate].
  destruct (JsDate.civil_from_days _) as [[y mo] dd].
  apply append_nonempty.
Qed.

(** C5 (as amended).  A labelled row counts where the label cell is
    followed, after optional white space, by a [<td>] cell whose contents
    are not empty and hold no [<].  For each of name, phone and email: when
    the decoded body has such a row, the field is the contents of the
    first one with the surrounding white space stripped, or the sentinel
    when nothing is left after stripping; when it has none (the row is
    absent, or its value cell is empty or holds markup) the field is the
    sentinel.  So a body with the three rows gives the three stripped
    contents, each replaced by the sentinel where it is blank. *)
Theorem extract_labelled_rows w id m body :
  next_call_ok w ->
  find_message id (mailbox w) = Some m ->
  decoded_body (payload m) = Some body ->
  exists r w',
    extractSignupInfo id w = (Ok r, w')
    /\ (forall k,
          (exists v,
             first_row (patterns k) body v
             /\ no_lt v = true /\ v <> ""
             /\ field_of k r
                = (if String.eqb (trim v) "" then "Not provided" else trim v))
          \/ (~ has_row (patterns k) body /\ field_of k r = "Not provided"))
    /\ (forall vn vp ve,
          first_row "Full Name:" body vn ->
          first_row "Phone:" body vp ->
          first_row "Email:" body ve ->
          name r = (if String.eqb (trim vn) "" then "Not provided" else trim vn)
          /\ phone r = (if String.eqb (trim vp) "" then "Not provided" else trim vp)
          /\ email r = (if String.eqb (trim ve) "" then "Not provided" else trim ve)).
Proof.
  intros Hf Hm Hb.
  eexists _, _. split; [apply extractSignupInfo_ok; eassumption|]. split.
  - intros k. rewrite field_of_record.
    destruct (regex_match (patterns k) body) as [v|] eqn:E.
    + left. exists v. apply regex_match_first_row in E.
      split; [exact E|].
      pose proof E as (n & R & _).
      destruct R as (pre & lab & ws & op & cl & post & _ & _ & _ & _ & _ & N & V & _).
      split; [exact N|]. split; [exact V|].
      apply field_first_row. exact E.
    + right. apply regex_match_none in E. split; [exact E|].
      apply field_no_row. exact E.
  - intros vn vp ve Hn Hp He. cbn [name phone email record_of].
    rewrite (field_first_row Name body vn Hn), (field_first_row Phone body vp Hp),
      (field_first_row Email body ve He).
    auto.
Qed.

(** C6.  Whatever rows the decoded body lacks, extraction returns a
    record: a field whose row is absent is the sentinel, a field whose row
    is present is decided by that row alone, and none of the four fields
    is empty. *)
Theorem extract_missing_rows w id m body :
  next_call_ok w ->
  find_message id (mailbox w) = Some m ->
  decoded_body (payload m) = Some body ->
  exists r w',
    extractSignupInfo id w = (Ok r, w')
    /\ (forall k, ~ has_row (patterns k) body -> field_of k r = "Not provided")
    /\ (forall k v, first_row (patterns k) body v ->
          field_of k r = if String.eqb (trim v) "" then "Not provided" else trim v)
    /\ date r <> "" /\ name r <> "" /\ phone r <> "" /\ email r <> "".
Proof.
  intros Hf Hm Hb.
  eexists _, _. split; [apply extractSignupInfo_ok; eassumption|].
  split; [|split].
  - intros k H. rewrite field_of_record. apply field_no_row. exact H.
  - intros k v H. rewrite field_of_record. apply field_first_row. exact H.
  - cbn [date name phone email record_of].
    repeat split; try apply field_nonempty. apply formatDate_nonempty.
Qed.

Lemma extract_labelled_rows_witness :
  exists r w',
    extractSignupInfo "m1" Examples.linked_world = (Ok r, w')
    /\ name r = "Ann Lee" /\ phone r = "071 234 5678"
    /\ email r = "Not provided"
    /\ ~ has_row "Email:" Examples.linked_body
    /\ (forall k,
          (exists v,
             first_row (patterns k) Examples.linked_body v
             /\ no_lt v = true /\ v <> ""
             /\ field_of k r
                = (if String.eqb (trim v) "" then "Not provided" else trim v))
          \/ (~ has_row (patterns k) Examples.linked_body
              /\ field_of k r = "Not provided")).
Proof.
  destruct (extract_labelled_rows Examples.linked_world "m1"
              (Examples.message "m1" "Growth Track Signup" "1700000000000"
                 Examples.linked_body)
              Examples.linked_body eq_refl eq_refl eq_refl)
    as (r & w' & E & K & _).
  exists r, w'. split; [exact E|].
  assert (E0 : extractSignupInfo "m1" Examples.linked_world
               = (Ok (record_of Examples.utc_host
                        (Examples.message "m1" "Growth Track Signup"
                           "1700000000000" Examples.linked_body)
                        Examples.linked_body),
                  snd (extractSignupInfo "m1" Examples.linked_world)))
    by (vm_compute; reflexivity).
  rewrite E0 in E. injection E as Er _. subst r.
  split; [vm_compute; reflexivity|]. split; [vm_compute; reflexivity|].
  split; [vm_compute; reflexivity|].
  split; [apply regex_match_none; vm_compute; reflexivity|exact K].
Defined.

(** C5, counterexample.  The body holds the three labelled rows and the
    phone cell holds one space: the phone field is the sentinel, not the
    stripped cell contents (the empty string). *)
Lemma blank_cell_counterexample :
  first_row "Full Name:" Examples.blank_phone_body "Ann"
  /\ first_row "Phone:" Examples.blank_phone_body " "
  /\ first_row "Email:" Examples.blank_phone_body "ann@example.org"
  /\ exists r w',
       extractSignupInfo "m1" Examples.blank_phone_world = (Ok r, w')
       /\ phone r = "Not provided"
       /\ phone r <> trim " ".
Proof.
  repeat split; try (apply regex_match_first_row; reflexivity).
  eexists _, _. split; [reflexivity|]. split; [reflexivity|].
  vm_compute. discriminate.
Qed.

Lemma extract_missing_rows_witness :
  exists r w',
    extractSignupInfo "m1" Examples.name_only_world = (Ok r, w')
    /\ (forall k, ~ has_row (patterns k) Examples.name_only_body ->
          field_of k r = "Not provided")
    /\ (forall k v, first_row (patterns k) Examples.name_only_body v ->
          field_of k r = if String.eqb (trim v) "" then "Not provided" else trim v)
    /\ date r <> "" /\ name r <> "" /\ phone r <> "" /\ email r <> "".
Proof.
  apply (extract_missing_rows Examples.name_only_world "m1"
           (Examples.message "m1" "Growth Track Signup" "1700000000000"
              Examples.name_only_body)
           Examples.name_only_body); reflexivity.
Defined.

End ExtractFacts.

(** ** The registration date *)

Module DateFacts.
Import Monad World Pipeline Spec JsDate ExtractFacts.
Local Open Scope Z_scope.

Lemma civil_from_days_bounds n :
  0 <= n < 2932897 ->
  let '(y, m, d) := civil_from_days n in
  1970 <= y <= 9999 /\ 1 <= m <= 12 /\ 1 <= d <= 31.
Proof.
  intros H. unfold civil_from_days. cbv zeta.
  set (z := n + 719468).
  set (era := z / 146097).
  set (doe := z - era * 146097).
  set (yoe := (doe - doe / 1460 + doe / 36524 - doe / 146096) / 365).
  set (doy := doe - (365 * yoe + yoe / 4 - yoe / 100)).
  set (mp := (5 * doy + 2) / 153).
  assert (Hdoe : 0 <= doe < 146097)
    by (subst doe era; Z.div_mod_to_equations; lia).
  assert (Hyoe : 0 <= yoe <= 399)
    by (subst yoe; Z.div_mod_to_equations; lia).
  assert (Hdoy : 0 <= doy <= 365)
    by (subst doy yoe; Z.div_mod_to_equations; lia).
  assert (Hmp : 0 <= mp <= 11)
    by (subst mp; Z.div_mod_to_equations; lia).
  assert (Hd : 1 <= doy - (153 * mp + 2) / 5 + 1 <= 31)
    by (subst mp; Z.div_mod_to_equations; lia).
  split; [|split; [|exact Hd]].
  - destruct (mp <? 10) eqn:E; [apply Z.ltb_lt in E|apply Z.ltb_ge in E].
    + replace (mp + 3 <=? 2) with false by (symmetry; apply Z.leb_gt; lia).
      subst mp doy yoe doe era z. Z.div_mod_to_equations. lia.
    + replace (mp - 9 <=? 2) with true by (symmetry; apply Z.leb_le; lia).
      subst mp doy yoe doe era z. Z.div_mod_to_equations. lia.
  - destruct (mp <? 10) eqn:E; [apply Z.ltb_lt in E|apply Z.ltb_ge in E]; lia.
Qed.

(** A boolean check that holds on a whole interval holds at each of its
    points. *)
Lemma interval_check (f : Z -> bool) (lo : Z) (n : nat) :
  forallb f (map (fun i => lo + Z.of_nat i) (seq 0 n)) = true ->
  forall x, lo <= x < lo + Z.of_nat n -> f x = true.
Proof.
  intros H x Hx. rewrite forallb_forall in H. apply H.
  apply in_map_iff. exists (Z.to_nat (x - lo)). split; [lia|].
  apply in_seq. lia.
Qed.

Lemma day_length d :
  1 <= d <= 31 ->
  String.length (decimal d) = if d <? 10 then 1%nat else 2%nat.
Proof.
  intros H. apply Nat.eqb_eq.
  apply (interval_check
           (fun d => Nat.eqb (String.length (decimal d))
                       (if d <? 10 then 1%nat else 2%nat)) 1 31);
    [vm_compute; reflexivity|lia].
Qed.

Lemma year_length y :
  1000 <= y <= 9999 -> String.length (decimal y) = 4%nat.
Proof.
  intros H. apply Nat.eqb_eq.
  apply (interval_check (fun y => Nat.eqb (String.length (decimal y)) 4) 1000
           (Z.to_nat 9000));
    [vm_compute; reflexivity|lia].
Qed.

(** Africa/Johannesburg has been at UTC+2 on every instant since its last
    change, in March 1944. *)
Lemma zone_offset_since_1944 t :
  -813805200000 <= t -> zone_offset Africa_Johannesburg t = 7200000.
Proof.
  intros H. unfold zone_offset.
  destruct (Z.ltb_spec t (-2458173120000)); [lia|].
  destruct (Z.ltb_spec t (-2109288600000)); [lia|].
  destruct (Z.ltb_spec t (-845254800000)); [lia|].
  destruct (Z.ltb_spec t (-813805200000)); [lia|].
  rewrite !andb_false_r. reflexivity.
Qed.

(** C3 (as amended).  The date of the record is a function of the
    message's receipt timestamp alone: neither the body nor the host's
    time zone enters it.  It is the calendar date of the timestamp at
    UTC+2, written day first: the day of the month without a leading
    zero, the full month name and the four-digit year. *)
Theorem record_date_from_timestamp w id m body ms :
  next_call_ok w ->
  find_message id (mailbox w) = Some m ->
  decoded_body (payload m) = Some body ->
  received_ms m = Some ms ->
  0 <= ms < 253402293600000 ->
  exists r w',
    extractSignupInfo id w = (Ok r, w')
    /\ (forall host, date r = formatDate host (new_Date (Some ms)))
    /\ let '(y, mo, d) := civil_from_days ((ms + 7200000) / msPerDay) in
       date r = (decimal d ++ " " ++ month_name mo ++ " " ++ decimal y)%string
       /\ 1 <= d <= 31
       /\ String.length (decimal d) = (if d <? 10 then 1%nat else 2%nat)
       /\ 1 <= mo <= 12
       /\ String.length (decimal y) = 4%nat.
Proof.
  intros Hf Hm Hb Hr Hms.
  eexists _, _. split; [apply extractSignupInfo_ok; eassumption|].
  cbn [date record_of]. unfold received_ms in Hr. rewrite Hr.
  split; [intros host; reflexivity|].
  unfold new_Date.
  replace (Z.abs ms <=? 8640000000000000) with true
    by (symmetry; apply Z.leb_le; lia).
  unfold formatDate, toLocaleDateString_en_ZA.
  rewrite zone_offset_since_1944 by lia.
  assert (Hd : 0 <= (ms + 7200000) / msPerDay < 2932897).
  { unfold msPerDay. split.
    - apply Z.div_pos; lia.
    - apply Z.div_lt_upper_bound; lia. }
  pose proof (civil_from_days_bounds _ Hd) as B.
  destruct (civil_from_days ((ms + 7200000) / msPerDay)) as [[y mo] d].
  destruct B as (Hy & Hmo & Hdd). cbv zeta.
  replace (y <=? 0) with false by (symmetry; apply Z.leb_gt; lia).
  split; [reflexivity|]. split; [exact Hdd|].
  split; [apply day_length; exact Hdd|].
  split; [exact Hmo|]. apply year_length. lia.
Qed.

Lemma record_date_from_timestamp_witness :
  exists r w',
    extractSignupInfo "e1" Examples.early_world = (Ok r, w')
    /\ (forall host, date r = formatDate host (new_Date (Some 1699000000000)))
    /\ date r = "3 November 2023"%string
    /\ 1 <= 3 <= 31
    /\ String.length "3" = 1%nat
    /\ 1 <= 11 <= 12
    /\ String.length "2023" = 4%nat.
Proof.
  apply (record_date_from_timestamp Examples.early_world "e1"
           Examples.early_message Examples.padded_body 1699000000000);
    try reflexivity.
  lia.
Defined.

(** C3, counterexample.  For a message received at 1700000000000 the
    record's date is "15 November 2023", and for one received at
    1699000000000 it is "3 November 2023"; the renderings "Month D, YYYY"
    of the same instants are "November 15, 2023" and "November 3,
    2023". *)
Lemma month_first_counterexample :
  (exists r w',
     extractSignupInfo "m1" Examples.padded_world = (Ok r, w')
     /\ received_ms Examples.padded_message = Some 1700000000000
     /\ date r = "15 November 2023"%string
     /\ spec_month_d_yyyy 1700000000000 = "November 15, 2023"%string
     /\ date r <> spec_month_d_yyyy 1700000000000)
  /\ (exists r w',
        extractSignupInfo "e1" Examples.early_world = (Ok r, w')
        /\ received_ms Examples.early_message = Some 1699000000000
        /\ date r = "3 November 2023"%string
        /\ spec_month_d_yyyy 1699000000000 = "November 3, 2023"%string
        /\ date r <> spec_month_d_yyyy 1699000000000).
Proof.
  split; eexists _, _; (split; [reflexivity|]);
    repeat split; vm_compute; discriminate.
Qed.

End DateFacts.

(** ** The mailbox scanner *)

Module QueryFacts.
Import Monad Monad.Notations World Pipeline Spec.
Local Open Scope list_scope.

Lemma no_faults_next w : no_faults w -> next_call_ok w.
Proof. intros H. apply H. Qed.

Lemma no_faults_set_trace t w : no_faults w -> no_faults (set_trace t w).
Proof. intros H n. apply H. Qed.

Lemma call_ok e w :
  next_call_ok w -> call e w = (Ok tt, set_trace (e :: trace w) w).
Proof. unfold next_call_ok, call. intros ->. reflexivity. Qed.

Lemma messages_list_ok q w :
  next_call_ok w ->
  messages_list q 100 w
  = (Ok (listing q w), set_trace (GmailList q 100 :: trace w) w).
Proof.
  intros H. unfold messages_list, bind. rewrite (call_ok _ _ H). reflexivity.
Qed.

Lemma find_message_in id mb :
  In id (map msg_id mb) -> exists m, find_message id mb = Some m.
Proof.
  unfold find_message. induction mb as [|m mb IH]; simpl; [tauto|].
  intros [E|H].
  - subst. rewrite String.eqb_refl. eauto.
  - destruct (String.eqb (msg_id m) id); eauto.
Qed.

Lemma all_matching_in q w id :
  In id (all_matching q w) -> In id (map msg_id (mailbox w)).
Proof.
  unfold all_matching. rewrite !in_map_iff.
  intros (m & E & H). apply filter_In in H as [H _]. eauto.
Qed.

Lemma in_firstn {A} (x : A) n l : In x (firstn n l) -> In x l.
Proof.
  revert n. induction l as [|y l IH]; intros [|n]; simpl; try tauto.
  intros [E|H]; eauto.
Qed.

Lemma listing_in q w id :
  In id (listing q w) -> In id (map msg_id (mailbox w)).
Proof.
  unfold listing. intros H. apply (all_matching_in q).
  apply (in_firstn _ _ _ H).
Qed.

(** The logging loop: one metadata request per listed message. *)
Lemma metadata_loop_ok ids : forall w,
  no_faults w ->
  (forall id, In id ids -> In id (map msg_id (mailbox w))) ->
  for_of ids (fun id => _ <- messages_get id metadata ;; ret tt) w
  = (Ok tt,
     set_trace (rev (map (fun id => GmailGet id metadata) ids) ++ trace w) w).
Proof.
  induction ids as [|id ids IH]; intros w Hf Hin.
  - destruct w; reflexivity.
  - cbn [for_of]. unfold bind at 1. unfold bind at 1.
    unfold messages_get, bind at 1.
    rewrite (call_ok _ _ (no_faults_next _ Hf)).
    unfold bind, get. cbn [mailbox set_trace].
    destruct (find_message_in id (mailbox w)) as [m Hm];
      [apply Hin; left; reflexivity|].
    rewrite Hm. cbn [ret].
    rewrite IH.
    + cbn [map rev trace set_trace]. rewrite <- app_assoc. reflexivity.
    + apply no_faults_set_trace. exact Hf.
    + intros id' H. apply Hin. right. exact H.
Qed.

(** What [queryEmails] returns and which calls it makes when no call
    fails. *)
Lemma queryEmails_ok w :
  no_faults w ->
  queryEmails w
  = (Ok (listing (selected_query w) w),
     set_trace
       (rev (map (fun id => GmailGet id metadata) (listing (selected_query w) w))
        ++ match listing primary_query w with
           | [] => [GmailList fallback_query 100; GmailList primary_query 100]
           | _ :: _ => [GmailList primary_query 100]
           end ++ trace w) w).
Proof.
  intros Hf. unfold queryEmails, try_catch, bind at 1, get.
  unfold bind at 1. rewrite (messages_list_ok _ _ (no_faults_next _ Hf)).
  unfold selected_query.
  assert (Hl : forall q t, listing q (set_trace t w) = listing q w) by reflexivity.
  destruct (listing primary_query w) as [|id ids] eqn:E.
  - cbn [List.length Nat.eqb]. unfold bind at 1.
    rewrite messages_list_ok, Hl
      by (apply no_faults_next, no_faults_set_trace, Hf).
    cbn [trace set_trace].
    destruct (listing fallback_query w) as [|id ids] eqn:E2.
    + destruct w; reflexivity.
    + unfold bind at 1. cbn [List.length Nat.ltb Nat.leb].
      rewrite metadata_loop_ok.
      * reflexivity.
      * repeat apply no_faults_set_trace. exact Hf.
      * intros id' H. apply (listing_in fallback_query w). rewrite E2. exact H.
  - cbn [List.length Nat.eqb]. unfold bind at 1. cbn [ret].
    unfold bind at 1. cbn [List.length Nat.ltb Nat.leb].
    rewrite metadata_loop_ok.
    + cbv iota. rewrite E. reflexivity.
    + apply no_faults_set_trace. exact Hf.
    + intros id' H. apply (listing_in primary_query w). rewrite E. exact H.
Qed.

Lemma queries_issued_app t1 t2 :
  queries_issued (t1 ++ t2) = queries_issued t2 ++ queries_issued t1.
Proof.
  induction t1 as [|e t1 IH]; simpl.
  - rewrite app_nil_r. reflexivity.
  - destruct e; rewrite ?IH, ?app_assoc; reflexivity.
Qed.

Lemma queries_issued_metadata ids :
  queries_issued (rev (map (fun id => GmailGet id metadata) ids)) = [].
Proof.
  induction ids as [|id ids IH]; simpl; auto.
  rewrite queries_issued_app, IH. reflexivity.
Qed.

Lemma firstn_length_le {A} n (l : list A) : List.length (firstn n l) <= n.
Proof. rewrite length_firstn. lia. Qed.

Lemma selected_query_shape w :
  q_is_unread (selected_query w) = true /\ q_after (selected_query w) = None.
Proof. unfold selected_query. destruct (listing primary_query w); auto. Qed.

(** What does hold of the scanner's result: every identifier it returns
    belongs to an unread message whose subject matches one of the two
    patterns. *)
Lemma queryEmails_unread_matching w :
  no_faults w ->
  exists r w',
    queryEmails w = (Ok r, w')
    /\ forall id, In id r ->
         exists m, In m (mailbox w) /\ msg_id m = id
                   /\ msg_unread m = true
                   /\ (phrase_in "Growth Track Signup" (msg_subject m) = true
                       \/ phrase_in "Growth Track Sign Up Form" (msg_subject m)
                          = true).
Proof.
  intros Hf. eexists _, _. split; [apply queryEmails_ok; exact Hf|].
  intros id H. unfold listing in H. apply in_firstn in H.
  unfold all_matching in H. apply in_map_iff in H as (m & E & H).
  apply filter_In in H as [Hin Hm]. exists m. split; [exact Hin|].
  split; [exact E|]. unfold matches in Hm.
  destruct (selected_query_shape w) as [Hu _]. rewrite Hu in Hm.
  apply andb_prop in Hm as [Hm _]. apply andb_prop in Hm as [Hs Hr].
  split; [exact Hr|]. unfold selected_query in Hs.
  destruct (listing primary_query w); [right|left]; exact Hs.
Qed.

(** C1, the code at the failing input.  Neither search expression has an
    [after:] term.  The clock reads 1700000000000 and the only message,
    unread and with the primary subject, was received at 1600000000000,
    before the seven-day window: it is returned. *)
Theorem stale_message_returned :
  q_after primary_query = None
  /\ q_after fallback_query = None
  /\ exists w',
       queryEmails Examples.stale_world = (Ok ["old"%string], w')
       /\ received_ms Examples.stale_message = Some 1600000000000%Z
       /\ (1600000000000 < now Examples.stale_world - 7 * JsDate.msPerDay)%Z.
Proof.
  split; [reflexivity|]. split; [reflexivity|].
  eexists. split; [reflexivity|]. split; [reflexivity|]. reflexivity.
Qed.

(** C8.  The primary subject "Growth Track Signup" is queried first; the
    legacy subject "Growth Track Sign Up Form" is queried only when the
    first query returns nothing; the result is that of the first query
    when it is not empty and that of the second otherwise. *)
Theorem subject_patterns_in_order w :
  no_faults w ->
  exists r w',
    queryEmails w = (Ok r, w')
    /\ q_subject primary_query = "Growth Track Signup"%string
    /\ q_subject fallback_query = "Growth Track Sign Up Form"%string
    /\ (listing primary_query w <> [] ->
        r = listing primary_query w
        /\ queries_issued (trace w')
           = queries_issued (trace w) ++ [primary_query])
    /\ (listing primary_query w = [] ->
        r = listing fallback_query w
        /\ queries_issued (trace w')
           = queries_issued (trace w) ++ [primary_query; fallback_query]).
Proof.
  intros Hf. eexists _, _. split; [apply queryEmails_ok; exact Hf|].
  split; [reflexivity|]. split; [reflexivity|].
  cbn [trace set_trace]. rewrite !queries_issued_app, queries_issued_metadata.
  unfold selected_query.
  destruct (listing primary_query w) as [|id ids] eqn:E; split; intros H;
    try congruence; split; try reflexivity; try exact E;
    cbn [queries_issued app]; rewrite app_nil_r; reflexivity.
Qed.

Lemma subject_patterns_in_order_witness :
  no_faults Examples.legacy_world
  /\ exists r w',
       queryEmails Examples.legacy_world = (Ok r, w')
       /\ r = ["f1"%string]
       /\ queries_issued (trace w') = [primary_query; fallback_query].
Proof.
  assert (Hf : no_faults Examples.legacy_world) by (intros n; reflexivity).
  split; [exact Hf|].
  destruct (subject_patterns_in_order Examples.legacy_world Hf)
    as (r & w' & E & _ & _ & _ & H).
  exists r, w'. split; [exact E|].
  destruct (H eq_refl) as [Hr Hq]. split.
  - rewrite Hr. reflexivity.
  - rewrite Hq. reflexivity.
Defined.

(** C9 (as amended).  The scanner returns the first page of the selected
    query: the first 100 unread messages that match it, in listing order.
    The result never has more than 100 identifiers, and it holds every
    unread message matching the selected subject whenever there are at
    most 100 of them. *)
Theorem first_page_only w :
  no_faults w ->
  exists r w',
    queryEmails w = (Ok r, w')
    /\ r = firstn 100 (all_matching (selected_query w) w)
    /\ List.length r <= 100
    /\ (List.length (all_matching (selected_query w) w) <= 100 ->
        forall m, In m (mailbox w) ->
                  msg_unread m = true ->
                  phrase_in (q_subject (selected_query w)) (msg_subject m) = true ->
                  In (msg_id m) r).
Proof.
  intros Hf. eexists _, _. split; [apply queryEmails_ok; exact Hf|].
  split; [reflexivity|]. split; [apply firstn_length_le|].
  intros Hlen m Hin Hu Hs. unfold listing.
  rewrite firstn_all2 by exact Hlen.
  unfold all_matching. apply in_map. apply filter_In. split; [exact Hin|].
  destruct (selected_query_shape w) as [Hq Ha].
  unfold matches. rewrite Hs, Hq, Hu, Ha. reflexivity.
Qed.

Lemma first_page_only_witness :
  no_faults Examples.stale_world
  /\ exists r w',
       queryEmails Examples.stale_world = (Ok r, w')
       /\ r = ["old"%string]
       /\ List.length r <= 100
       /\ In (msg_id Examples.stale_message) r.
Proof.
  assert (Hf : no_faults Examples.stale_world) by (intros n; reflexivity).
  split; [exact Hf|].
  destruct (first_page_only Examples.stale_world Hf)
    as (r & w' & E & Hr & Hl & Hall).
  exists r, w'. split; [exact E|]. split; [rewrite Hr; reflexivity|].
  split; [exact Hl|].
  apply Hall.
  - vm_compute. lia.
  - left. reflexivity.
  - reflexivity.
  - reflexivity.
Defined.

Lemma not_in_by_eqb (x : string) l :
  existsb (String.eqb x) l = false -> ~ In x l.
Proof.
  intros H Hin. assert (E : existsb (String.eqb x) l = true).
  { apply existsb_exists. exists x. split; [exact Hin|apply String.eqb_refl]. }
  congruence.
Qed.

(** C9, counterexample.  With 101 unread notifications in the mailbox the
    scanner returns 100 identifiers, and the message "101", unread and
    matching like the others, is not among them. *)
Lemma page_limit_counterexample :
  exists r w' m,
    queryEmails Examples.crowd_world = (Ok r, w')
    /\ List.length r = 100
    /\ In m (mailbox Examples.crowd_world)
    /\ msg_id m = "101"%string
    /\ msg_unread m = true
    /\ phrase_in "Growth Track Signup" (msg_subject m) = true
    /\ ~ In (msg_id m) r.
Proof.
  eexists _, _,
    (Examples.message "101" "Growth Track Signup" "1700000000000"
       Examples.padded_body).
  split; [vm_compute; reflexivity|].
  split; [reflexivity|].
  split; [apply in_map_iff; exists 101; split;
          [reflexivity|apply in_seq; lia]|].
  split; [reflexivity|]. split; [reflexivity|]. split; [reflexivity|].
  apply not_in_by_eqb. vm_compute. reflexivity.
Qed.

End QueryFacts.

(** ** Steps that stay within a relation *)

Module Frame.
Import Monad Monad.Notations World Pipeline Spec.

Local Open Scope list_scope.

Section Combinators.
Context {S : Type} (R : S -> S -> Prop) `{!PreOrder R}.

Lemma within_ret {A} (a : A) : within R (ret a).
Proof. intros s. reflexivity. Qed.

Lemma within_throw {A} e : within R (@throw S A e).
Proof. intros s. reflexivity. Qed.

Lemma within_get : within R get.
Proof. intros s. reflexivity. Qed.

Lemma within_bind {A B} (m : M S A) (k : A -> M S B) :
  within R m -> (forall a, within R (k a)) -> within R (bind m k).
Proof.
  intros Hm Hk s. unfold bind. specialize (Hm s).
  destruct (m s) as [[a|e] s']; simpl in *.
  - etransitivity; [exact Hm|apply Hk].
  - exact Hm.
Qed.

Lemma within_try_catch {A} (m : M S A) h :
  within R m -> (forall e, within R (h e)) -> within R (try_catch m h).
Proof.
  intros Hm Hh s. unfold try_catch. specialize (Hm s).
  destruct (m s) as [[a|e] s']; simpl in *.
  - exact Hm.
  - etransitivity; [exact Hm|apply Hh].
Qed.

Lemma within_for_of {A} (xs : list A) body :
  (forall x, within R (body x)) -> within R (for_of xs body).
Proof.
  intros H. induction xs as [|x xs IH]; simpl.
  - apply within_ret.
  - apply within_bind; auto.
Qed.

Lemma within_modify (f : S -> S) :
  (forall s, R s (f s)) -> within R (modify f).
Proof. intros H s. apply H. Qed.

End Combinators.

#[global] Instance on_world_preorder R `{!PreOrder R} : PreOrder (on_world R).
Proof.
  split.
  - intros r. unfold on_world. reflexivity.
  - intros a b c H1 H2. unfold on_world in *. etransitivity; eassumption.
Qed.

Lemma within_lift {A} R (m : M World A) :
  within R m -> within (on_world R) (lift (L := Locals) m).
Proof.
  intros H [l w]. unfold on_world, lift. simpl.
  specialize (H w). destruct (m w) as [r w']. exact H.
Qed.

#[global] Instance same_drive_preorder : PreOrder same_drive.
Proof.
  split; unfold same_drive.
  - intros w. reflexivity.
  - intros a b c H1 H2. congruence.
Qed.

#[global] Instance keeps_rows_preorder : PreOrder keeps_rows.
Proof.
  split; unfold keeps_rows.
  - intros w i f H. left. eauto.
  - intros a b c H1 H2 i f'' H.
    destruct (H2 i f'' H) as [(f' & Hf' & E')|P]; [|right; exact P].
    destruct (H1 i f' Hf') as [(f & Hf & E)|P].
    + left. exists f. split; [exact Hf|congruence].
    + right. unfold pristine in *. rewrite E'. exact P.
Qed.

#[global] Instance emits_preorder allowed : PreOrder (emits allowed).
Proof.
  split; unfold emits.
  - intros w. split; [reflexivity|]. exists []. auto.
  - intros a b c [F1 (n1 & T1 & A1)] [F2 (n2 & T2 & A2)].
    split; [congruence|]. exists (n2 ++ n1). split.
    + rewrite T2, T1, app_assoc. reflexivity.
    + rewrite forallb_app, A1, A2. reflexivity.
Qed.

(** One step of a proof that a computation stays within a relation. *)
Ltac within_step :=
  match goal with
  | |- within _ (bind _ _) =>
      apply within_bind; [typeclasses eauto| |intros ?]
  | |- within _ (try_catch _ _) =>
      apply within_try_catch; [typeclasses eauto| |intros ?]
  | |- within _ (ret _) => apply within_ret; typeclasses eauto
  | |- within _ (throw _) => apply within_throw; typeclasses eauto
  | |- within _ get => apply within_get; typeclasses eauto
  | |- within _ (for_of _ _) =>
      apply within_for_of; [typeclasses eauto|intros ?]
  | |- within (on_world _) (lift _) => apply within_lift
  | |- within _ (modify _) => apply within_modify; intros ?
  | |- within _ (match ?x with _ => _ end) => destruct x
  end.

Lemma nth_error_snoc {A} (d : list A) (x : A) i y :
  nth_error (d ++ [x]) i = Some y ->
  nth_error d i = Some y \/ (i = List.length d /\ y = x).
Proof.
  intros H. destruct (Nat.lt_ge_cases i (List.length d)) as [L|L].
  - rewrite nth_error_app1 in H by exact L. auto.
  - rewrite nth_error_app2 in H by exact L.
    destruct (i - List.length d) as [|k] eqn:E; simpl in H.
    + inversion H. right. split; [lia|reflexivity].
    + destruct k; discriminate.
Qed.

Lemma nth_error_update_nth {A} (g : A -> A) k (d : list A) i :
  nth_error (update_nth k g d) i
  = if Nat.eqb i k then option_map g (nth_error d i) else nth_error d i.
Proof.
  revert k i. induction d as [|x d IH]; intros k i.
  - destruct k, i; simpl; try reflexivity; destruct (Nat.eqb _ _); reflexivity.
  - destruct k, i; simpl; try reflexivity. apply IH.
Qed.

(** *** The calls and the updates, relation by relation *)

Lemma same_drive_call e : within same_drive (call e).
Proof. intros w. unfold call. destruct (faults w _); reflexivity. Qed.

Lemma keeps_rows_call e : within keeps_rows (call e).
Proof.
  intros w. unfold call, keeps_rows. destruct (faults w _); simpl; eauto.
Qed.

Lemma emits_call allowed e : allowed e = true -> within (emits allowed) (call e).
Proof.
  intros H w. unfold call, emits.
  destruct (faults w _); simpl; (split; [reflexivity|]); exists [e];
    simpl; rewrite H; auto.
Qed.

Lemma emits_same allowed w w' :
  faults w' = faults w -> trace w' = trace w -> emits allowed w w'.
Proof. intros F T. split; [exact F|]. exists []. auto. Qed.

Lemma keeps_rows_same w w' : drive w' = drive w -> keeps_rows w w'.
Proof. intros E i f H. rewrite E in H. left. eauto. Qed.

Lemma keeps_rows_create w f :
  pristine f -> keeps_rows w (set_drive (drive w ++ [f]) w).
Proof.
  intros P i f' H. simpl in H.
  apply nth_error_snoc in H as [H|[_ ->]]; [left; eauto|right; exact P].
Qed.

Lemma keeps_rows_add_parent w k folderId :
  keeps_rows w (set_drive (update_nth k (add_parent folderId) (drive w)) w).
Proof.
  intros i f' H. simpl in H. rewrite nth_error_update_nth in H. left.
  destruct (Nat.eqb i k); [|eauto].
  destruct (nth_error (drive w) i) as [f|]; [|discriminate].
  inversion H. eauto.
Qed.

Create HintDb frame.

#[export] Hint Resolve same_drive_call keeps_rows_call keeps_rows_create
  keeps_rows_add_parent : frame.
#[export] Hint Extern 1 (emits _ _ _) =>
  apply emits_same; reflexivity : frame.
#[export] Hint Extern 1 (keeps_rows _ _) =>
  apply keeps_rows_same; reflexivity : frame.
#[export] Hint Extern 1 (same_drive _ _) => reflexivity : frame.
#[export] Hint Extern 1 (on_world _ _ _) => unfold on_world; simpl : frame.
#[export] Hint Extern 1 (pristine _) => (left; reflexivity) : frame.
#[export] Hint Extern 1 (pristine _) => (right; reflexivity) : frame.
#[export] Hint Extern 1 (within (emits _) (call _)) =>
  apply emits_call; reflexivity : frame.

(** Unfold nothing, decompose the computation, close the leaves. *)
Ltac within_auto := repeat within_step; auto with frame.

End Frame.

(** ** What the steps of the pipeline leave alone *)

Module StepFacts.
Import Monad Monad.Notations World Pipeline Spec Frame.
Local Open Scope list_scope.

Ltac unfold_steps :=
  unfold process_message, record_and_mark, resolve_once, extractSignupInfo,
    message_body, decode, saveToGoogleSheets, createOrGetSpreadsheet,
    isDuplicateEntry, markEmailAsRead, sendEmail, queryEmails,
    messages_list, messages_get, messages_modify, files_list, files_create,
    spreadsheets_get, spreadsheets_batchUpdate, files_update_addParents,
    values_get, values_append, files_export, sendMail.

Ltac within_steps := unfold_steps; within_auto.

Lemma writeFile_same_drive data : within same_drive (fs_writeFile data).
Proof. intros w. unfold fs_writeFile. destruct (faults w _); reflexivity. Qed.

Lemma unlink_same_drive : within same_drive fs_unlink.
Proof. intros w. unfold fs_unlink. destruct (temp_file w); reflexivity. Qed.

Lemma writeFile_emits allowed data :
  allowed FsWriteFile = true -> within (emits allowed) (fs_writeFile data).
Proof.
  intros H w. unfold fs_writeFile, emits.
  destruct (faults w _); simpl; (split; [reflexivity|]); exists [FsWriteFile];
    simpl; rewrite H; auto.
Qed.

Lemma unlink_emits allowed : within (emits allowed) fs_unlink.
Proof.
  intros w. unfold fs_unlink. destruct (temp_file w); auto with frame.
Qed.

#[export] Hint Resolve writeFile_same_drive unlink_same_drive unlink_emits : frame.
#[export] Hint Extern 1 (within (emits _) (fs_writeFile _)) =>
  apply writeFile_emits; reflexivity : frame.

Lemma queryEmails_same_drive : within same_drive queryEmails.
Proof. within_steps. Qed.

Lemma queryEmails_emits : within (emits not_dispatch) queryEmails.
Proof. within_steps. Qed.

Lemma extractSignupInfo_same_drive id : within same_drive (extractSignupInfo id).
Proof. within_steps. Qed.

Lemma markEmailAsRead_same_drive id : within same_drive (markEmailAsRead id).
Proof. within_steps. Qed.

Lemma sendEmail_same_drive sid : within same_drive (sendEmail sid).
Proof. within_steps. Qed.

Lemma sendEmail_no_resolution sid : within (emits not_resolution) (sendEmail sid).
Proof. within_steps. Qed.

Lemma createOrGetSpreadsheet_keeps_rows : within keeps_rows createOrGetSpreadsheet.
Proof. within_steps. Qed.

Lemma process_message_emits id :
  within (on_world (emits not_dispatch)) (process_message id).
Proof. within_steps. Qed.

Lemma queryEmails_no_resolution : within (emits not_resolution) queryEmails.
Proof. within_steps. Qed.

Lemma extractSignupInfo_no_resolution id :
  within (emits not_resolution) (extractSignupInfo id).
Proof. within_steps. Qed.

Lemma markEmailAsRead_no_resolution id :
  within (emits not_resolution) (markEmailAsRead id).
Proof. within_steps. Qed.

Lemma count_app p t1 t2 : count p (t1 ++ t2) = count p t1 + count p t2.
Proof. unfold count. rewrite filter_app, length_app. reflexivity. Qed.

(** Calls that are all allowed add nothing to the count of a kind of call
    that is not allowed. *)
Lemma emits_count allowed p w w' :
  emits allowed w w' ->
  (forall e, allowed e = true -> p e = false) ->
  count p (trace w') = count p (trace w).
Proof.
  intros [_ (new & -> & H)] Hp. rewrite count_app.
  assert (E : count p new = 0).
  { unfold count. induction new as [|e new IH]; simpl in *; auto.
    apply andb_prop in H as [H1 H2]. rewrite (Hp e H1). auto. }
  rewrite E. reflexivity.
Qed.

Lemma not_dispatch_export e : not_dispatch e = true -> is_export e = false.
Proof. destruct e; simpl; auto; discriminate. Qed.

Lemma not_dispatch_send e : not_dispatch e = true -> is_send e = false.
Proof. destruct e; simpl; auto; discriminate. Qed.

Lemma not_resolution_false e : not_resolution e = true -> is_resolution e = false.
Proof. destruct e; simpl; auto; discriminate. Qed.

End StepFacts.

(** ** Store resolution *)

Module ResolveFacts.
Import Monad Monad.Notations World Pipeline Spec Frame StepFacts QueryFacts.
Local Open Scope list_scope.

Lemma find_ids_snoc p i d f :
  find_ids p i (d ++ [f])
  = find_ids p i d ++ (if p f then [i + List.length d] else []).
Proof.
  revert i. induction d as [|x d IH]; intros i; simpl.
  - rewrite Nat.add_0_r. destruct (p f); reflexivity.
  - rewrite IH. replace (S i + List.length d) with (i + S (List.length d)) by lia.
    destruct (p x); reflexivity.
Qed.

Lemma find_ids_update p (g : DriveFile -> DriveFile) k d i :
  (forall f, p (g f) = p f) ->
  find_ids p i (update_nth k g d) = find_ids p i d.
Proof.
  intros Hg. revert k i. induction d as [|x d IH]; intros [|k] i; simpl; auto.
  - rewrite Hg. reflexivity.
  - rewrite IH. reflexivity.
Qed.

Lemma find_ids_head p d i k rest :
  find_ids p i d = k :: rest ->
  i <= k /\ exists f, nth_error d (k - i) = Some f /\ p f = true.
Proof.
  revert i. induction d as [|x d IH]; intros i H; simpl in H; [discriminate|].
  destruct (p x) eqn:E.
  - inversion H; subst. split; [lia|]. rewrite Nat.sub_diag. simpl. eauto.
  - apply IH in H as [L (f & Hf & Pf)]. split; [lia|].
    replace (k - i) with (S (k - S i)) by lia. simpl. eauto.
Qed.

Lemma update_nth_snoc {A} (g : A -> A) (d : list A) x :
  update_nth (List.length d) g (d ++ [x]) = d ++ [g x].
Proof. induction d as [|y d IH]; simpl; congruence. Qed.

(** A resolved identifier names a spreadsheet of the Drive. *)
Lemma resolved_lookup w sid :
  resolved w sid -> exists f, lookup_spreadsheet sid w = Some f.
Proof.
  intros (fid & rest & rest' & _ & E).
  apply find_ids_head in E as [_ (f & Hf & Pf)].
  rewrite Nat.sub_0_r in Hf. unfold lookup_spreadsheet. rewrite Hf.
  unfold spreadsheet_query in Pf.
  apply andb_prop in Pf as [Pf _]. apply andb_prop in Pf as [_ Pf].
  rewrite Pf. eauto.
Qed.

(** Appending a row to a file does not change what the Drive resolves
    to. *)
Lemma resolved_add_row w sid k row :
  resolved w sid ->
  resolved (set_drive (update_nth k (add_row row) (drive w)) w) sid.
Proof.
  intros (fid & rest & rest' & E1 & E2). exists fid, rest, rest'.
  cbn [drive set_drive]. rewrite !find_ids_update; auto.
Qed.

Lemma resolved_same_drive w w' sid :
  same_drive w w' -> resolved w sid -> resolved w' sid.
Proof. unfold same_drive, resolved. intros ->. auto. Qed.

(** *** Reading a result back through the steps that produced it *)

Lemma bind_ok {S A B} (m : M S A) (k : A -> M S B) s b s' :
  bind m k s = (Ok b, s') ->
  exists a s1, m s = (Ok a, s1) /\ k a s1 = (Ok b, s').
Proof.
  unfold bind. destruct (m s) as [[a|e] s1]; [eauto|discriminate].
Qed.

Lemma call_ok_inv e w u w' :
  call e w = (Ok u, w') -> next_call_ok w /\ w' = set_trace (e :: trace w) w.
Proof.
  unfold call, next_call_ok. destruct (faults w _); intros H; inversion H; auto.
Qed.

Lemma files_list_ok_inv e p w l w' :
  files_list e p w = (Ok l, w') ->
  l = find_ids p 0 (drive w) /\ drive w' = drive w.
Proof.
  unfold files_list. intros H.
  apply bind_ok in H as (u & w1 & Hc & H). apply call_ok_inv in Hc as [_ ->].
  inversion H; subst. auto.
Qed.

Lemma files_create_ok_inv e f w n w' :
  files_create e f w = (Ok n, w') ->
  n = List.length (drive w) /\ drive w' = drive w ++ [f].
Proof.
  unfold files_create. intros H.
  apply bind_ok in H as (u & w1 & Hc & H). apply call_ok_inv in Hc as [_ ->].
  inversion H; subst. auto.
Qed.

Lemma spreadsheets_get_ok_inv sid w u w' :
  spreadsheets_get sid w = (Ok u, w') -> drive w' = drive w.
Proof.
  intros H.
  assert (S : within same_drive (spreadsheets_get sid)) by within_steps.
  specialize (S w). rewrite H in S. exact S.
Qed.

Lemma batchUpdate_ok_inv sid w u w' :
  spreadsheets_batchUpdate sid w = (Ok u, w') -> drive w' = drive w.
Proof.
  intros H.
  assert (S : within same_drive (spreadsheets_batchUpdate sid)) by within_steps.
  specialize (S w). rewrite H in S. exact S.
Qed.

Lemma addParents_ok_inv k fid w u w' :
  files_update_addParents k fid w = (Ok u, w') ->
  drive w' = update_nth k (add_parent fid) (drive w).
Proof.
  unfold files_update_addParents. intros H.
  apply bind_ok in H as (u1 & w1 & Hc & H). apply call_ok_inv in Hc as [_ ->].
  unfold bind, get in H. cbn [drive set_trace] in H.
  destruct (nth_error (drive w) k); inversion H; subst. reflexivity.
Qed.

Lemma resolve_in_resolved fid w sid w' :
  (exists rest, find_ids folder_query 0 (drive w) = fid :: rest) ->
  resolve_in fid w = (Ok sid, w') ->
  resolved w' sid.
Proof.
  intros [rest E1] H. unfold resolve_in in H.
  apply bind_ok in H as (sheets & w1 & Hl & H).
  apply files_list_ok_inv in Hl as [-> D1].
  destruct (find_ids (spreadsheet_query fid) 0 (drive w)) as [|s sheets] eqn:E2.
  - apply bind_ok in H as (s & w2 & Hc & H).
    apply files_create_ok_inv in Hc as [-> D2].
    apply bind_ok in H as (u & w3 & Hb & H).
    apply batchUpdate_ok_inv in Hb.
    apply bind_ok in H as (u' & w4 & Ha & H).
    apply addParents_ok_inv in Ha. inversion H; subst.
    rewrite Hb, D2, D1 in Ha. rewrite update_nth_snoc in Ha.
    exists fid, rest, []. rewrite Ha, !find_ids_snoc, E1, E2. split.
    + simpl. rewrite app_nil_r. reflexivity.
    + unfold spreadsheet_query. simpl. rewrite Nat.eqb_refl, D1. reflexivity.
  - apply bind_ok in H as (u & w2 & Hg & H).
    apply spreadsheets_get_ok_inv in Hg. inversion H; subst.
    exists fid, rest, sheets. rewrite Hg, D1, E1, E2. auto.
Qed.

Lemma createOrGetSpreadsheet_unfold :
  createOrGetSpreadsheet
  = (folders <- files_list DriveListFolders folder_query ;;
     folderId <- match folders with
                 | f :: _ => ret f
                 | [] => files_create DriveCreateFolder new_folder
                 end ;;
     resolve_in folderId).
Proof. reflexivity. Qed.

(** Whatever the Drive held and whichever calls fail, an identifier that
    [createOrGetSpreadsheet] returns is the one the Drive resolves to
    afterwards. *)
Lemma createOrGetSpreadsheet_resolved w sid w' :
  createOrGetSpreadsheet w = (Ok sid, w') -> resolved w' sid.
Proof.
  rewrite createOrGetSpreadsheet_unfold. intros H.
  apply bind_ok in H as (folders & w1 & Hl & H).
  apply files_list_ok_inv in Hl as [-> D1].
  apply bind_ok in H as (fid & w2 & Hf & H).
  apply (resolve_in_resolved fid w2); [|exact H].
  destruct (find_ids folder_query 0 (drive w)) as [|f folders] eqn:E1.
  - apply files_create_ok_inv in Hf as [-> D2].
    rewrite D2, D1, find_ids_snoc, E1. simpl. eauto.
  - inversion Hf; subst. rewrite D1, E1. eauto.
Qed.

(** Reduce the projections of updated worlds. *)
Ltac world_simpl :=
  cbv beta iota;
  cbn [drive set_trace set_drive set_mailbox set_temp_file set_outbox trace
       faults mailbox temp_file outbox now host_zone List.length fst snd].

Lemma call_cases e w :
  call e w = (Ok tt, set_trace (e :: trace w) w)
  \/ call e w = (Throw TransportError, set_trace (e :: trace w) w).
Proof. unfold call. destruct (faults w _); auto. Qed.

(** When the Drive already resolves to [sid], resolution creates nothing:
    it makes its three lookups and returns [sid], or stops at the first
    of them that fails. *)
Lemma createOrGetSpreadsheet_again w sid :
  resolved w sid ->
  exists fid,
    let w1 := set_trace (DriveListFolders :: trace w) w in
    let w2 := set_trace (DriveListSpreadsheets fid :: trace w1) w1 in
    let w3 := set_trace (SheetsGet sid :: trace w2) w2 in
    createOrGetSpreadsheet w
    = match faults w (List.length (trace w)) with
      | NoFault =>
          match faults w (S (List.length (trace w))) with
          | NoFault =>
              match faults w (S (S (List.length (trace w)))) with
              | NoFault => (Ok sid, w3)
              | _ => (Throw TransportError, w3)
              end
          | _ => (Throw TransportError, w2)
          end
      | _ => (Throw TransportError, w1)
      end.
Proof.
  intros R. destruct (resolved_lookup _ _ R) as [f Hf].
  destruct R as (fid & rest & rest' & E1 & E2). exists fid.
  unfold createOrGetSpreadsheet, files_list, spreadsheets_get, bind, call, get, ret.
  destruct (faults w (List.length (trace w))); try reflexivity.
  world_simpl. rewrite E1. world_simpl.
  destruct (faults w (S (List.length (trace w)))); try reflexivity.
  world_simpl. rewrite E2. world_simpl.
  destruct (faults w (S (S (List.length (trace w))))); try reflexivity.
  unfold lookup_spreadsheet in *. world_simpl.
  destruct (nth_error (drive w) sid) as [g|]; [|discriminate].
  destruct (is_spreadsheet g); [reflexivity|discriminate].
Qed.

(** The specification of one resolution, whichever calls fail. *)
Lemma createOrGetSpreadsheet_spec w :
  match createOrGetSpreadsheet w with
  | (Ok s, w') =>
      resolved w' s
      /\ forall s0, resolved w s0 -> s = s0 /\ drive w' = drive w
  | (Throw _, w') => forall s0, resolved w s0 -> drive w' = drive w
  end.
Proof.
  destruct (createOrGetSpreadsheet w) as [[s|e] w'] eqn:E.
  - split; [apply (createOrGetSpreadsheet_resolved _ _ _ E)|].
    intros s0 R. destruct (createOrGetSpreadsheet_again _ _ R) as [fid Hrun].
    cbv zeta in Hrun. rewrite E in Hrun.
    destruct (faults w (List.length (trace w))); try discriminate.
    destruct (faults w (S (List.length (trace w)))); try discriminate.
    destruct (faults w (S (S (List.length (trace w))))); try discriminate.
    inversion Hrun; subst. auto.
  - intros s0 R. destruct (createOrGetSpreadsheet_again _ _ R) as [fid Hrun].
    cbv zeta in Hrun. rewrite E in Hrun.
    destruct (faults w (List.length (trace w)));
      [|inversion Hrun; reflexivity|inversion Hrun; reflexivity].
    destruct (faults w (S (List.length (trace w))));
      [|inversion Hrun; reflexivity|inversion Hrun; reflexivity].
    destruct (faults w (S (S (List.length (trace w)))));
      inversion Hrun; reflexivity.
Qed.

(** Every resolution begins with one folder lookup and makes no other. *)
Lemma createOrGetSpreadsheet_counts w :
  resolutions (trace (snd (createOrGetSpreadsheet w)))
  = S (resolutions (trace w)).
Proof.
  rewrite createOrGetSpreadsheet_unfold.
  unfold files_list at 1. unfold bind at 1. unfold bind at 1.
  destruct (call_cases DriveListFolders w) as [C|C]; rewrite C.
  - unfold bind at 1. cbn [get ret].
    set (w1 := set_trace (DriveListFolders :: trace w) w).
    match goal with
    | |- context [snd (?m w1)] =>
        assert (W : within (emits not_resolution) m)
    end.
    { unfold resolve_in. within_steps. }
    specialize (W w1).
    match goal with
    | |- context [snd ?x] => destruct x as [r w2]
    end.
    cbn [snd] in *. unfold resolutions.
    rewrite (emits_count _ _ _ _ W not_resolution_false). reflexivity.
  - reflexivity.
Qed.

Lemma createOrGetSpreadsheet_emits :
  within (emits not_dispatch) createOrGetSpreadsheet.
Proof. within_steps. Qed.

(** *** Runs in which no call fails *)

Lemma bind_eq_ok {S A B} (m : M S A) (k : A -> M S B) s a s1 :
  m s = (Ok a, s1) -> bind m k s = k a s1.
Proof. unfold bind. intros ->. reflexivity. Qed.

Lemma files_list_ok e p w :
  next_call_ok w ->
  files_list e p w = (Ok (find_ids p 0 (drive w)), set_trace (e :: trace w) w).
Proof.
  intros H. unfold files_list. rewrite (bind_eq_ok _ _ _ _ _ (call_ok _ _ H)).
  reflexivity.
Qed.

Lemma files_create_ok e f w :
  next_call_ok w ->
  files_create e f w
  = (Ok (List.length (drive w)),
     set_drive (drive w ++ [f]) (set_trace (e :: trace w) w)).
Proof.
  intros H. unfold files_create. rewrite (bind_eq_ok _ _ _ _ _ (call_ok _ _ H)).
  reflexivity.
Qed.

Lemma spreadsheets_get_ok sid f w :
  next_call_ok w -> lookup_spreadsheet sid w = Some f ->
  spreadsheets_get sid w = (Ok tt, set_trace (SheetsGet sid :: trace w) w).
Proof.
  intros H L. unfold spreadsheets_get.
  rewrite (bind_eq_ok _ _ _ _ _ (call_ok _ _ H)). unfold bind, get.
  change (lookup_spreadsheet sid (set_trace (SheetsGet sid :: trace w) w))
    with (lookup_spreadsheet sid w).
  rewrite L. reflexivity.
Qed.

Lemma batchUpdate_ok sid f w :
  next_call_ok w -> lookup_spreadsheet sid w = Some f ->
  spreadsheets_batchUpdate sid w
  = (Ok tt, set_trace (SheetsBatchUpdate sid :: trace w) w).
Proof.
  intros H L. unfold spreadsheets_batchUpdate.
  rewrite (bind_eq_ok _ _ _ _ _ (call_ok _ _ H)). unfold bind, get.
  change (lookup_spreadsheet sid (set_trace (SheetsBatchUpdate sid :: trace w) w))
    with (lookup_spreadsheet sid w).
  rewrite L. reflexivity.
Qed.

Lemma addParents_ok k fid f w :
  next_call_ok w -> nth_error (drive w) k = Some f ->
  files_update_addParents k fid w
  = (Ok tt,
     set_drive (update_nth k (add_parent fid) (drive w))
       (set_trace (DriveAddParents k fid :: trace w) w)).
Proof.
  intros H L. unfold files_update_addParents.
  rewrite (bind_eq_ok _ _ _ _ _ (call_ok _ _ H)). unfold bind, get.
  world_simpl. rewrite L. reflexivity.
Qed.

Lemma lookup_created w' d :
  drive w' = d ++ [new_spreadsheet] ->
  lookup_spreadsheet (List.length d) w' = Some new_spreadsheet.
Proof.
  intros E. unfold lookup_spreadsheet. rewrite E.
  rewrite nth_error_app2, Nat.sub_diag by lia. reflexivity.
Qed.

Lemma resolve_in_ok fid w :
  no_faults w -> exists sid w', resolve_in fid w = (Ok sid, w').
Proof.
  intros Hf. unfold resolve_in.
  rewrite (bind_eq_ok _ _ _ _ _ (files_list_ok _ _ _ (no_faults_next _ Hf))).
  destruct (find_ids (spreadsheet_query fid) 0 (drive w)) as [|s sheets] eqn:E.
  - set (w1 := set_trace (DriveListSpreadsheets fid :: trace w) w).
    assert (Hf1 : no_faults w1) by (intros n; apply Hf).
    rewrite (bind_eq_ok _ _ _ _ _ (files_create_ok _ _ _ (no_faults_next _ Hf1))).
    set (w2 := set_drive _ _).
    assert (Hf2 : no_faults w2) by (intros n; apply Hf).
    assert (L2 : lookup_spreadsheet (List.length (drive w1)) w2 = Some new_spreadsheet)
      by (apply lookup_created; reflexivity).
    rewrite (bind_eq_ok _ _ _ _ _ (batchUpdate_ok _ _ _ (no_faults_next _ Hf2) L2)).
    set (w3 := set_trace _ w2).
    assert (Hf3 : no_faults w3) by (intros n; apply Hf).
    assert (L3 : nth_error (drive w3) (List.length (drive w1)) = Some new_spreadsheet).
    { subst w3 w2. world_simpl. rewrite nth_error_app2, Nat.sub_diag by lia.
      reflexivity. }
    rewrite (bind_eq_ok _ _ _ _ _ (addParents_ok _ _ _ _ (no_faults_next _ Hf3) L3)).
    eexists _, _. reflexivity.
  - set (w1 := set_trace (DriveListSpreadsheets fid :: trace w) w).
    assert (Hf1 : no_faults w1) by (intros n; apply Hf).
    assert (L : exists f, lookup_spreadsheet s w1 = Some f).
    { apply find_ids_head in E as [_ (f & Hn & Pf)].
      rewrite Nat.sub_0_r in Hn. unfold lookup_spreadsheet. subst w1.
      world_simpl. rewrite Hn. unfold spreadsheet_query in Pf.
      apply andb_prop in Pf as [Pf _]. apply andb_prop in Pf as [_ Pf].
      rewrite Pf. eauto. }
    destruct L as [f L].
    rewrite (bind_eq_ok _ _ _ _ _ (spreadsheets_get_ok _ _ _ (no_faults_next _ Hf1) L)).
    eexists _, _. reflexivity.
Qed.

(** With no failing call, resolution returns an identifier. *)
Lemma createOrGetSpreadsheet_ok w :
  no_faults w -> exists sid w', createOrGetSpreadsheet w = (Ok sid, w').
Proof.
  intros Hf. rewrite createOrGetSpreadsheet_unfold.
  rewrite (bind_eq_ok _ _ _ _ _ (files_list_ok _ _ _ (no_faults_next _ Hf))).
  set (w1 := set_trace (DriveListFolders :: trace w) w).
  assert (Hf1 : no_faults w1) by (intros n; apply Hf).
  destruct (find_ids folder_query 0 (drive w)) as [|f folders].
  - rewrite (bind_eq_ok _ _ _ _ _ (files_create_ok _ _ _ (no_faults_next _ Hf1))).
    apply resolve_in_ok. intros n. apply Hf.
  - unfold bind at 1. cbn [ret]. apply resolve_in_ok. exact Hf1.
Qed.

End ResolveFacts.

(** ** Duplicate check, append and mark as read *)

Module RecordFacts.
Import Monad Monad.Notations World Pipeline Spec Frame StepFacts QueryFacts
  ResolveFacts.
Local Open Scope list_scope.

Lemma lift_eq {A} (m : M World A) (l : Locals) w r w' :
  m w = (r, w') -> lift m (l, w) = (r, (l, w')).
Proof. unfold lift. cbn [fst snd]. intros ->. reflexivity. Qed.

Lemma cell_is_iff row i s : cell_is row i s = true <-> nth_error row i = Some s.
Proof.
  unfold cell_is. destruct (nth_error row i) as [c|].
  - rewrite String.eqb_eq. split; congruence.
  - split; discriminate.
Qed.

Lemma same_triple_iff c row :
  same_triple c row = true <-> triple row = triple_of c.
Proof.
  unfold same_triple, triple, triple_of.
  rewrite !andb_true_iff, !cell_is_iff. split.
  - intros [[-> ->] ->]. reflexivity.
  - intros H. inversion H. auto.
Qed.

Lemma existsb_same_triple c rows :
  existsb (same_triple c) rows = true
  <-> exists row, In row rows /\ triple row = triple_of c.
Proof.
  rewrite existsb_exists. split; intros (row & H1 & H2); exists row;
    (split; [exact H1|apply same_triple_iff; exact H2]).
Qed.


(** *** The store calls, whichever of them fail *)

Lemma values_get_spec sid w :
  match values_get sid w with
  | (Ok rows, w') =>
      drive w' = drive w /\ exists s, sid = Some s /\ rows_at w s = Some rows
  | (Throw _, w') => drive w' = drive w
  end.
Proof.
  unfold values_get, bind, call, get, rows_at.
  destruct (faults w _); world_simpl; try reflexivity.
  destruct sid as [s|]; [|reflexivity].
  change (lookup_spreadsheet s (set_trace (SheetsValuesGet (Some s) :: trace w) w))
    with (lookup_spreadsheet s w).
  destruct (lookup_spreadsheet s w) as [f|] eqn:L; [|reflexivity].
  split; [reflexivity|]. exists s. rewrite L. auto.
Qed.

Lemma values_append_spec s row w :
  match values_append s row w with
  | (Ok _, w') =>
      drive w' = update_nth s (add_row row) (drive w)
      /\ lookup_spreadsheet s w <> None
  | (Throw _, w') => drive w' = drive w
  end.
Proof.
  unfold values_append, bind, call, get.
  destruct (faults w _); world_simpl; try reflexivity.
  change (lookup_spreadsheet s (set_trace (SheetsValuesAppend s row :: trace w) w))
    with (lookup_spreadsheet s w).
  destruct (lookup_spreadsheet s w) as [f|]; [|reflexivity].
  split; [reflexivity|discriminate].
Qed.

(** *** The store calls when none fails *)

Lemma values_get_ok s f w :
  next_call_ok w -> lookup_spreadsheet s w = Some f ->
  values_get (Some s) w
  = (Ok (file_rows f), set_trace (SheetsValuesGet (Some s) :: trace w) w).
Proof.
  intros H L. unfold values_get.
  rewrite (bind_eq_ok _ _ _ _ _ (call_ok _ _ H)). unfold bind, get.
  change (lookup_spreadsheet s (set_trace (SheetsValuesGet (Some s) :: trace w) w))
    with (lookup_spreadsheet s w).
  rewrite L. reflexivity.
Qed.

Lemma values_append_ok s row f w :
  next_call_ok w -> lookup_spreadsheet s w = Some f ->
  values_append s row w
  = (Ok tt,
     set_drive (update_nth s (add_row row) (drive w))
       (set_trace (SheetsValuesAppend s row :: trace w) w)).
Proof.
  intros H L. unfold values_append.
  rewrite (bind_eq_ok _ _ _ _ _ (call_ok _ _ H)). unfold bind, get.
  change (lookup_spreadsheet s (set_trace (SheetsValuesAppend s row :: trace w) w))
    with (lookup_spreadsheet s w).
  rewrite L. reflexivity.
Qed.

Lemma markEmailAsRead_ok id m w :
  next_call_ok w -> find_message id (mailbox w) = Some m ->
  markEmailAsRead id w
  = (Ok tt,
     set_mailbox (map (mark_read id) (mailbox w))
       (set_trace (GmailModify id :: trace w) w)).
Proof.
  intros H L. unfold markEmailAsRead, try_catch, messages_modify.
  rewrite (bind_eq_ok _ _ _ _ _ (call_ok _ _ H)). unfold bind, get.
  world_simpl. rewrite L. reflexivity.
Qed.

Lemma is_read_marked id mb w :
  mailbox w = map (mark_read id) mb -> is_read id w.
Proof.
  intros E m Hin Hid. rewrite E in Hin.
  apply in_map_iff in Hin as (m0 & <- & _). unfold mark_read in *.
  destruct (String.eqb (msg_id m0) id) eqn:Q; [reflexivity|].
  apply String.eqb_neq in Q. contradiction.
Qed.


Lemma isDuplicateEntry_ok c s f w :
  next_call_ok w -> lookup_spreadsheet s w = Some f ->
  isDuplicateEntry c (Some s) w
  = (Ok (existsb (same_triple c) (file_rows f)),
     set_trace (SheetsValuesGet (Some s) :: trace w) w).
Proof.
  intros H L. unfold isDuplicateEntry.
  rewrite (bind_eq_ok _ _ _ _ _ (values_get_ok _ _ _ H L)). reflexivity.
Qed.

Lemma saveToGoogleSheets_ok c sid f w :
  no_faults w -> resolved w sid -> lookup_spreadsheet sid w = Some f ->
  exists fid,
    saveToGoogleSheets c w
    = (Ok sid,
       set_drive (update_nth sid (add_row (row_of c)) (drive w))
         (set_trace
            (SheetsValuesAppend sid (row_of c) :: SheetsGet sid
             :: DriveListSpreadsheets fid :: DriveListFolders :: trace w) w)).
Proof.
  intros Hf R L. destruct (createOrGetSpreadsheet_again _ _ R) as [fid Hrun].
  exists fid. cbv zeta in Hrun. rewrite !Hf in Hrun.
  unfold saveToGoogleSheets. rewrite (bind_eq_ok _ _ _ _ _ Hrun).
  match type of Hrun with
  | _ = (_, ?w3) =>
      pose proof (values_append_ok sid (row_of c) f w3 (Hf _) L) as Ha
  end.
  rewrite (bind_eq_ok _ _ _ _ _ Ha). reflexivity.
Qed.



(** The same store and a candidate that differs from the stored row in the
    phone cell only: it is appended. *)
Example other_phone_appended :
  let other := {| date := "15 November 2023"; name := "Ann Lee";
                  phone := "071 234 5679"; email := "ann@example.org" |} in
  exists l' w',
    record_and_mark "m1" other (Examples.cached 1, Examples.stored_world)
    = (Ok tt, (l', w'))
    /\ rows_at w' 1 = Some [header; Examples.ann_row; row_of other]
    /\ processedCount l' = 1.
Proof. cbv zeta. eexists _, _. vm_compute. repeat split; reflexivity. Qed.

End RecordFacts.

(** ** The loop of [main] keeps the store free of repeated triples *)

Module LoopFacts.
Import Monad Monad.Notations World Pipeline Spec Frame StepFacts QueryFacts
  ResolveFacts RecordFacts.
Local Open Scope list_scope.

Lemma pristine_no_repeat f : pristine f -> no_repeat (file_rows f).
Proof. unfold no_repeat. intros [-> | ->]; constructor. Qed.

Lemma unique_at_same_drive i w w' :
  same_drive w w' -> unique_at i w -> unique_at i w'.
Proof. unfold same_drive, unique_at. intros ->. auto. Qed.

Lemma unique_at_keeps_rows i w w' :
  keeps_rows w w' -> unique_at i w -> unique_at i w'.
Proof.
  intros K U f' H. destruct (K i f' H) as [(f & Hf & E)|P].
  - rewrite E. apply U. exact Hf.
  - apply pristine_no_repeat. exact P.
Qed.

Lemma NoDup_snoc {A} (l : list A) x : NoDup l -> ~ In x l -> NoDup (l ++ [x]).
Proof.
  intros N H. induction N as [|y l Hy N IH]; simpl.
  - constructor; [tauto|constructor].
  - constructor.
    + rewrite in_app_iff. simpl. intros [I|[E|[]]]; [tauto|].
      subst. apply H. left. reflexivity.
    + apply IH. intros I. apply H. right. exact I.
Qed.

Lemma no_repeat_add_row c rows :
  no_repeat rows ->
  existsb (same_triple c) rows = false ->
  no_repeat (rows ++ [row_of c]).
Proof.
  unfold no_repeat. intros N D. destruct rows as [|r0 rs]; simpl in *.
  - constructor.
  - rewrite map_app. apply NoDup_snoc; [exact N|].
    apply orb_false_elim in D as [_ D].
    intros I. apply in_map_iff in I as (row & E & Hin).
    assert (T : existsb (same_triple c) rs = true).
    { apply existsb_same_triple. exists row. split; [exact Hin|].
      rewrite E. reflexivity. }
    congruence.
Qed.

Lemma unique_at_add_row i w s c rows :
  unique_at i w ->
  rows_at w s = Some rows ->
  existsb (same_triple c) rows = false ->
  unique_at i (set_drive (update_nth s (add_row (row_of c)) (drive w)) w).
Proof.
  intros U Hr D f' H. cbn [drive set_drive] in H.
  rewrite nth_error_update_nth in H.
  destruct (Nat.eqb i s) eqn:E.
  - apply Nat.eqb_eq in E. subst s.
    unfold rows_at, lookup_spreadsheet in Hr.
    destruct (nth_error (drive w) i) as [f|] eqn:Hf; [|discriminate].
    inversion H; subst f'. cbn [file_rows add_row].
    destruct (is_spreadsheet f); [|discriminate]. inversion Hr; subst rows.
    apply no_repeat_add_row; [apply U; exact Hf|exact D].
  - apply U. exact H.
Qed.

(** *** The steps of the loop body, whichever calls fail *)

Lemma isDuplicateEntry_spec c sid w :
  match isDuplicateEntry c sid w with
  | (Ok b, w') =>
      drive w' = drive w
      /\ exists s rows, sid = Some s /\ rows_at w s = Some rows
                        /\ b = existsb (same_triple c) rows
  | (Throw _, w') => drive w' = drive w
  end.
Proof.
  unfold isDuplicateEntry, bind. pose proof (values_get_spec sid w) as G.
  destruct (values_get sid w) as [[rows|e] w1]; [|exact G].
  destruct G as [D (s & E & Hr)]. cbn [ret]. split; [exact D|eauto].
Qed.

Lemma saveToGoogleSheets_spec c s w :
  resolved w s ->
  match saveToGoogleSheets c w with
  | (Ok s', w') =>
      s' = s /\ drive w' = update_nth s (add_row (row_of c)) (drive w)
  | (Throw _, w') => drive w' = drive w
  end.
Proof.
  intros R. unfold saveToGoogleSheets, bind.
  pose proof (createOrGetSpreadsheet_spec w) as G.
  destruct (createOrGetSpreadsheet w) as [[s'|e] w1]; [|apply (G s R)].
  destruct G as [_ G]. destruct (G s R) as [-> D1].
  pose proof (values_append_spec s (row_of c) w1) as A.
  destruct (values_append s (row_of c) w1) as [[u|e] w2].
  - destruct A as [A _]. cbn [ret]. rewrite A, D1. auto.
  - congruence.
Qed.

Lemma store_invariant_cached i l w s :
  spreadsheetId l = Some s -> resolved w s -> unique_at i w ->
  store_invariant i (l, w).
Proof.
  intros Hs R U. repeat split; cbn [fst snd]; auto.
  - intros s' E. rewrite Hs in E. inversion E; subst. exact R.
  - congruence.
Qed.

Lemma record_and_mark_invariant i id c l w s :
  spreadsheetId l = Some s ->
  store_invariant i (l, w) ->
  store_invariant i (snd (record_and_mark id c (l, w))).
Proof.
  intros Hs (Hres & U & _). pose proof (Hres s Hs) as R.
  unfold record_and_mark, bind, get, lift, modify. cbn [fst snd]. rewrite Hs.
  pose proof (isDuplicateEntry_spec c (Some s) w) as G.
  destruct (isDuplicateEntry c (Some s) w) as [[b|e] w1]; cbv beta iota.
  2:{ cbn [fst snd]. apply (store_invariant_cached i l w1 s Hs).
      - apply (resolved_same_drive w); assumption.
      - apply (unique_at_same_drive i w); assumption. }
  destruct G as [D1 (s0 & rows & Es & Hr & Eb)]. inversion Es; subst s0.
  assert (R1 : resolved w1 s) by (apply (resolved_same_drive w); assumption).
  assert (U1 : unique_at i w1) by (apply (unique_at_same_drive i w); assumption).
  destruct b; cbv beta iota delta [fst snd].
  - cbv beta iota delta [fst snd incr_skippedCount].
    pose proof (markEmailAsRead_same_drive id w1) as M.
    destruct (markEmailAsRead id w1) as [r w2].
    cbv beta iota delta [fst snd] in *.
    apply (store_invariant_cached i _ w2 s Hs).
    + apply (resolved_same_drive w1); assumption.
    + apply (unique_at_same_drive i w1); assumption.
  - pose proof (saveToGoogleSheets_spec c s w1 R1) as S.
    destruct (saveToGoogleSheets c w1) as [[s'|e] w2]; cbv beta iota.
    + destruct S as [-> D2].
      cbn [fst snd incr_processedCount assign_spreadsheetId spreadsheetId
           processedCount skippedCount].
      assert (R2 : resolved w2 s).
      { destruct (resolved_add_row w1 s s (row_of c) R1) as (a & b & b' & A1 & A2).
        exists a, b, b'. rewrite D2. auto. }
      assert (U2 : unique_at i w2).
      { assert (Hr1 : rows_at w1 s = Some rows).
        { unfold rows_at, lookup_spreadsheet in *. rewrite D1. exact Hr. }
        pose proof (unique_at_add_row i w1 s c rows U1 Hr1 (eq_sym Eb)) as U2.
        intros f' H. apply U2. cbn [drive set_drive]. rewrite <- D2. exact H. }
      pose proof (markEmailAsRead_same_drive id w2) as M.
      destruct (markEmailAsRead id w2) as [r w3].
      cbv beta iota delta [incr_processedCount assign_spreadsheetId fst snd] in *.
      apply (store_invariant_cached i _ w3 s); [reflexivity| |].
      * apply (resolved_same_drive w2); assumption.
      * apply (unique_at_same_drive i w2); assumption.
    + cbn [fst snd]. apply (store_invariant_cached i l w2 s Hs).
      * apply (resolved_same_drive w1); assumption.
      * apply (unique_at_same_drive i w1); assumption.
Qed.

Lemma store_invariant_same_drive i l w w' :
  same_drive w w' -> store_invariant i (l, w) -> store_invariant i (l, w').
Proof.
  intros D (R & U & P). repeat split; cbn [fst snd] in *.
  - intros s E. apply (resolved_same_drive w); auto.
  - apply (unique_at_same_drive i w); assumption.
  - exact P.
Qed.

Lemma resolve_once_invariant i l w :
  store_invariant i (l, w) ->
  match resolve_once (l, w) with
  | (Ok _, r') => store_invariant i r' /\ spreadsheetId (fst r') <> None
  | (Throw _, r') => store_invariant i r'
  end.
Proof.
  intros J. pose proof J as (R & U & P). cbn [fst snd] in *.
  unfold resolve_once, bind, get, lift, modify. cbn [fst snd].
  destruct (spreadsheetId l) as [s|] eqn:Hs.
  - cbn [ret fst snd]. rewrite Hs. split; [exact J|discriminate].
  - cbv beta iota delta [fst snd].
    pose proof (createOrGetSpreadsheet_resolved w) as G.
    pose proof (createOrGetSpreadsheet_keeps_rows w) as K.
    destruct (createOrGetSpreadsheet w) as [[s|e] w1];
      cbv beta iota delta [fst snd assign_spreadsheetId] in *.
    + split; [|discriminate].
      apply (store_invariant_cached i _ w1 s); [reflexivity| |].
      * apply (G s w1). reflexivity.
      * apply (unique_at_keeps_rows i w); assumption.
    + repeat split; cbn [fst snd].
      * intros s E. congruence.
      * apply (unique_at_keeps_rows i w); assumption.
      * rewrite Hs. exact P.
Qed.

(** The body of the loop catches whatever its steps throw. *)
Lemma process_message_returns id r : fst (process_message id r) = Ok tt.
Proof.
  unfold process_message, try_catch.
  match goal with
  | |- context [match ?x with _ => _ end] => destruct x as [[[]|e] r']
  end; reflexivity.
Qed.

Lemma process_message_invariant i id r :
  store_invariant i r -> store_invariant i (snd (process_message id r)).
Proof.
  destruct r as [l w]. intros J.
  unfold process_message, try_catch. unfold bind at 1. unfold lift at 1.
  cbv beta iota delta [fst snd].
  pose proof (extractSignupInfo_same_drive id w) as D.
  destruct (extractSignupInfo id w) as [[c|e] w1];
    cbv beta iota delta [fst snd] in *.
  2:{ apply (store_invariant_same_drive i l w); assumption. }
  assert (J1 : store_invariant i (l, w1))
    by (apply (store_invariant_same_drive i l w); assumption).
  unfold bind at 1.
  pose proof (resolve_once_invariant i l w1 J1) as G.
  destruct (resolve_once (l, w1)) as [[u|e] [l2 w2]]; cbv beta iota.
  2:{ exact G. }
  destruct G as [J2 N]. cbn [fst] in N.
  destruct (spreadsheetId l2) as [s|] eqn:Hs; [|congruence].
  pose proof (record_and_mark_invariant i id c l2 w2 s Hs J2) as J3.
  destruct (record_and_mark id c (l2, w2)) as [[u'|e] r3]; exact J3.
Qed.

Lemma loop_returns msgs : forall r,
  fst (for_of msgs process_message r) = Ok tt.
Proof.
  induction msgs as [|id msgs IH]; intros r; [reflexivity|].
  cbn [for_of]. unfold bind.
  pose proof (process_message_returns id r) as P.
  destruct (process_message id r) as [[u|e] r1]; [apply IH|discriminate].
Qed.

Lemma loop_invariant i msgs : forall r,
  store_invariant i r ->
  store_invariant i (snd (for_of msgs process_message r)).
Proof.
  induction msgs as [|id msgs IH]; intros r J; [exact J|].
  cbn [for_of]. unfold bind.
  pose proof (process_message_invariant i id r J) as J1.
  destruct (process_message id r) as [[u|e] r1]; [apply IH|]; exact J1.
Qed.

(** [main], step by step: the query, the loop, and the report when a
    record was accepted. *)
Lemma run_unfold w :
  run w
  = match queryEmails w with
    | (Ok msgs, w1) =>
        let r := snd (for_of msgs process_message (initial, w1)) in
        if Nat.ltb 0 (processedCount (fst r))
        then (fst r, snd (sendEmail (spreadsheetId (fst r)) (snd r)))
        else r
    | (Throw _, w1) => (initial, w1)
    end.
Proof.
  unfold run, main, try_catch. unfold bind at 1. unfold lift at 1.
  cbv beta iota delta [fst snd].
  destruct (queryEmails w) as [[msgs|e] w1]; [|reflexivity].
  cbv beta iota zeta. unfold bind at 1.
  pose proof (loop_returns msgs (initial, w1)) as L.
  destruct (for_of msgs process_message (initial, w1)) as [[u|e] [l w2]];
    [|discriminate].
  unfold bind, get. cbv beta iota delta [fst snd].
  destruct (Nat.ltb 0 (processedCount l)); [|reflexivity].
  unfold lift. cbv beta iota delta [fst snd].
  destruct (sendEmail (spreadsheetId l) w2) as [[u'|e] w3]; reflexivity.
Qed.

(** C10.  Whichever calls fail, a file whose rows below the header carry
    no repeated (name, phone, email) triple when [main] starts carries
    none when [main] has returned; this holds at every position of the
    Drive, the store's included. *)
Theorem store_stays_unique i w :
  unique_at i w -> unique_at i (snd (run w)).
Proof.
  intros U. rewrite run_unfold.
  pose proof (queryEmails_same_drive w) as D.
  destruct (queryEmails w) as [[msgs|e] w1]; cbn [snd] in *.
  2:{ apply (unique_at_same_drive i w); assumption. }
  assert (J : store_invariant i (initial, w1)).
  { repeat split; cbn [fst snd initial spreadsheetId processedCount].
    - discriminate.
    - apply (unique_at_same_drive i w); assumption.
    - lia. }
  apply (loop_invariant i msgs) in J. cbv zeta.
  destruct (snd (for_of msgs process_message (initial, w1))) as [l w2].
  destruct J as (_ & U2 & _). cbn [fst snd] in *.
  destruct (Nat.ltb 0 (processedCount l)); cbn [snd]; [|exact U2].
  apply (unique_at_same_drive i w2); [apply sendEmail_same_drive|exact U2].
Qed.

Lemma store_stays_unique_witness :
  unique_at 1 Examples.stored_twin_world
  /\ unique_at 1 (snd (run Examples.stored_twin_world)).
Proof.
  assert (H : unique_at 1 Examples.stored_twin_world).
  { intros f E. injection E as <-. unfold no_repeat. simpl.
    constructor; [simpl; tauto|constructor]. }
  split; [exact H|]. apply (store_stays_unique 1 Examples.stored_twin_world H).
Defined.

(** In [stored_twin_world] the stored signup arrives once more and a new
    one arrives twice: one row is appended, two messages are skipped. *)
Example stored_twin_world_rows :
  rows_at (snd (run Examples.stored_twin_world)) 1
  = Some [header; Examples.ann_row;
          ["15 November 2023"; "Bob Roe"; "Not provided"; "bob@example.org"]%string]
  /\ processedCount (fst (run Examples.stored_twin_world)) = 1
  /\ skippedCount (fst (run Examples.stored_twin_world)) = 2.
Proof. vm_compute. repeat split; reflexivity. Qed.

(** The two notifications of [twin_world] carry the same triple: one row
    is appended and the second message is skipped. *)
Example twin_world_one_row :
  rows_at (snd (run Examples.twin_world)) 1
  = Some [header; Examples.ann_row]
  /\ processedCount (fst (run Examples.twin_world)) = 1
  /\ skippedCount (fst (run Examples.twin_world)) = 1.
Proof. vm_compute. repeat split; reflexivity. Qed.

End LoopFacts.

(** ** Counting resolutions, exports and sends *)

Module CountFacts.
Import Monad Monad.Notations World Pipeline Spec Frame StepFacts QueryFacts
  ResolveFacts RecordFacts LoopFacts.
Local Open Scope list_scope.

Lemma emits_no_faults allowed w w' :
  emits allowed w w' -> no_faults w -> no_faults w'.
Proof. intros [F _] H n. rewrite F. apply H. Qed.

Lemma emits_resolutions w w' :
  emits not_resolution w w' -> resolutions (trace w') = resolutions (trace w).
Proof. intros E. apply (emits_count _ _ _ _ E not_resolution_false). Qed.

(** A step that begins no resolution and leaves the Drive alone keeps the
    counting invariant. *)
Lemma counting_invariant_step r0 l w w' :
  emits not_resolution w w' -> same_drive w w' ->
  counting_invariant r0 (l, w) -> counting_invariant r0 (l, w').
Proof.
  intros E D (F & R & C & P). cbn [fst snd] in *. repeat split; cbn [fst snd].
  - apply (emits_no_faults _ _ _ E F).
  - intros s Hs. apply (resolved_same_drive w); auto.
  - rewrite (emits_resolutions _ _ E). exact C.
  - exact P.
Qed.

Lemma record_and_mark_counting r0 id c l w s :
  spreadsheetId l = Some s ->
  counting_invariant r0 (l, w) ->
  counting_invariant r0 (snd (record_and_mark id c (l, w))).
Proof.
  intros Hs (F & Hres & C & P). cbn [fst snd] in *.
  pose proof (Hres s Hs) as R. destruct (resolved_lookup _ _ R) as [f L].
  unfold record_and_mark. unfold bind at 1, get. cbn [fst]. rewrite Hs.
  rewrite (bind_eq_ok _ _ _ _ _
             (lift_eq _ l _ _ _ (isDuplicateEntry_ok c _ _ _ (F _) L))).
  set (w1 := set_trace (SheetsValuesGet (Some s) :: trace w) w).
  assert (F1 : no_faults w1) by (intros n; apply F).
  destruct (existsb (same_triple c) (file_rows f)).
  - unfold bind at 1, modify, incr_skippedCount. cbv beta iota. cbn [fst snd].
    pose proof (markEmailAsRead_no_resolution id w1) as E.
    pose proof (markEmailAsRead_same_drive id w1) as D.
    unfold lift. cbn [fst snd].
    destruct (markEmailAsRead id w1) as [r w2]. cbn [fst snd] in *.
    apply (counting_invariant_step r0 _ w1 w2 E D).
    repeat split; cbn [fst snd spreadsheetId processedCount guard_resolutions];
      auto.
  - destruct (saveToGoogleSheets_ok c s f w1 F1 R L) as [fid Hsave].
    unfold bind at 1. rewrite (bind_eq_ok _ _ _ _ _ (lift_eq _ l _ _ _ Hsave)).
    unfold bind, modify. unfold incr_processedCount, assign_spreadsheetId.
    cbv beta iota. cbn [fst snd].
    set (w2 := set_drive _ _).
    pose proof (markEmailAsRead_no_resolution id w2) as E.
    pose proof (markEmailAsRead_same_drive id w2) as D.
    unfold lift. cbn [fst snd].
    destruct (markEmailAsRead id w2) as [r w3]. cbn [fst snd] in *.
    apply (counting_invariant_step r0 _ w2 w3 E D).
    repeat split; cbn [fst snd spreadsheetId processedCount guard_resolutions].
    + intros n. apply F.
    + intros s' Hs'. inversion Hs'; subst s'.
      apply (resolved_add_row w1 s s (row_of c) R).
    + unfold guard_resolutions in C. rewrite Hs in C.
      subst w2 w1. world_simpl. unfold resolutions, count in *.
      cbn [filter is_resolution List.length]. rewrite C. lia.
    + discriminate.
Qed.

Lemma resolve_once_counting r0 l w :
  counting_invariant r0 (l, w) ->
  exists l' w',
    resolve_once (l, w) = (Ok tt, (l', w'))
    /\ counting_invariant r0 (l', w')
    /\ spreadsheetId l' <> None.
Proof.
  intros J. pose proof J as (F & R & C & P). cbn [fst snd] in *.
  unfold resolve_once. unfold bind at 1, get. cbn [fst].
  destruct (spreadsheetId l) as [s|] eqn:Hs.
  - exists l, w. split; [reflexivity|]. split; [exact J|congruence].
  - destruct (createOrGetSpreadsheet_ok w F) as (sid & w1 & Hok).
    rewrite (bind_eq_ok _ _ _ _ _ (lift_eq _ l _ _ _ Hok)).
    unfold modify, assign_spreadsheetId. cbn [fst snd].
    eexists _, _. split; [reflexivity|].
    pose proof (createOrGetSpreadsheet_counts w) as N.
    pose proof (createOrGetSpreadsheet_emits w) as E.
    rewrite Hok in N, E. cbn [snd] in N, E.
    split; [|discriminate].
    repeat split; cbn [fst snd spreadsheetId processedCount guard_resolutions].
    + apply (emits_no_faults _ _ _ E F).
    + intros s Es. inversion Es; subst.
      apply (createOrGetSpreadsheet_resolved _ _ _ Hok).
    + rewrite N, C. unfold guard_resolutions. rewrite Hs. lia.
    + discriminate.
Qed.

Lemma process_message_counting r0 id r :
  counting_invariant r0 r -> counting_invariant r0 (snd (process_message id r)).
Proof.
  destruct r as [l w]. intros J.
  unfold process_message, try_catch. unfold bind at 1. unfold lift at 1.
  cbv beta iota delta [fst snd].
  pose proof (extractSignupInfo_same_drive id w) as D.
  pose proof (extractSignupInfo_no_resolution id w) as E.
  destruct (extractSignupInfo id w) as [[c|e] w1];
    cbv beta iota delta [fst snd] in *.
  2:{ apply (counting_invariant_step r0 l w w1); assumption. }
  assert (J1 : counting_invariant r0 (l, w1))
    by (apply (counting_invariant_step r0 l w w1); assumption).
  destruct (resolve_once_counting r0 l w1 J1) as (l2 & w2 & Hr & J2 & N).
  rewrite (bind_eq_ok _ _ _ _ _ Hr).
  destruct (spreadsheetId l2) as [s|] eqn:Hs; [|congruence].
  pose proof (record_and_mark_counting r0 id c l2 w2 s Hs J2) as J3.
  destruct (record_and_mark id c (l2, w2)) as [[u'|e] r3]; exact J3.
Qed.

Lemma loop_counting r0 msgs : forall r,
  counting_invariant r0 r ->
  counting_invariant r0 (snd (for_of msgs process_message r)).
Proof.
  induction msgs as [|id msgs IH]; intros r J; [exact J|].
  cbn [for_of]. unfold bind.
  pose proof (process_message_counting r0 id r J) as J1.
  destruct (process_message id r) as [[u|e] r1]; [apply IH|]; exact J1.
Qed.

(** C2 (as amended).  In a run where no call fails, store resolution is
    executed once by the guard of [main], which caches the identifier,
    and once more inside every [saveToGoogleSheets]: the number of
    resolutions is 1 (0 if [main] never cached an identifier) plus the
    number of accepted records.  The report export resolves nothing, and
    the identifier [main] holds at the end is the one the Drive resolves
    to. *)
Theorem resolution_once_per_save w :
  no_faults w ->
  resolutions (trace (snd (run w)))
  = resolutions (trace w) + guard_resolutions (fst (run w))
    + processedCount (fst (run w))
  /\ (forall s, spreadsheetId (fst (run w)) = Some s -> resolved (snd (run w)) s).
Proof.
  intros F. rewrite run_unfold.
  pose proof (queryEmails_same_drive w) as D.
  pose proof (queryEmails_no_resolution w) as E.
  destruct (queryEmails w) as [[msgs|e] w1]; cbn [snd] in *.
  2:{ unfold guard_resolutions, initial.
      cbn [fst snd spreadsheetId processedCount].
      rewrite (emits_resolutions _ _ E). split; [lia|discriminate]. }
  assert (J : counting_invariant (resolutions (trace w)) (initial, w1)).
  { repeat split; unfold guard_resolutions, initial;
      cbn [fst snd spreadsheetId processedCount].
    - apply (emits_no_faults _ _ _ E F).
    - discriminate.
    - rewrite (emits_resolutions _ _ E). lia.
    - lia. }
  apply (loop_counting _ msgs) in J. cbv zeta.
  destruct (snd (for_of msgs process_message (initial, w1))) as [l w2].
  destruct J as (F2 & R2 & C2 & _). cbn [fst snd] in *.
  destruct (Nat.ltb 0 (processedCount l)); cbn [fst snd]; [|auto].
  pose proof (sendEmail_no_resolution (spreadsheetId l) w2) as E3.
  pose proof (sendEmail_same_drive (spreadsheetId l) w2) as D3.
  rewrite (emits_resolutions _ _ E3). split; [exact C2|].
  intros s Hs. apply (resolved_same_drive w2); auto.
Qed.

Lemma resolution_once_per_save_witness :
  resolutions (trace (snd (run (Examples.new_signup_world Examples.never))))
  = 0 + guard_resolutions (fst (run (Examples.new_signup_world Examples.never)))
    + processedCount (fst (run (Examples.new_signup_world Examples.never)))
  /\ (forall s,
        spreadsheetId (fst (run (Examples.new_signup_world Examples.never)))
        = Some s ->
        resolved (snd (run (Examples.new_signup_world Examples.never))) s).
Proof.
  apply (resolution_once_per_save (Examples.new_signup_world Examples.never)).
  intros n. reflexivity.
Defined.

(** C2, counterexample.  One new notification, an empty Drive, no failing
    call: one record is accepted and the store is resolved twice, by the
    guard of [main] and again by [saveToGoogleSheets]. *)
Lemma second_resolution_counterexample :
  processedCount (fst (run (Examples.new_signup_world Examples.never))) = 1
  /\ resolutions (trace (snd (run (Examples.new_signup_world Examples.never)))) = 2
  /\ ~ resolutions (trace (snd (run (Examples.new_signup_world Examples.never))))
       <= 1.
Proof.
  assert (E : resolutions
                (trace (snd (run (Examples.new_signup_world Examples.never)))) = 2)
    by (vm_compute; reflexivity).
  split; [vm_compute; reflexivity|]. split; [exact E|]. rewrite E. lia.
Qed.

(** *** The report *)

Ltac dispatch_cases :=
  repeat (world_simpl;
          match goal with
          | |- context [match faults ?w ?n with _ => _ end] =>
              destruct (faults w n)
          | |- context [match ?o with Some _ => _ | None => _ end] =>
              destruct o eqn:?
          | |- context [if ?b then _ else _] => destruct b
          end).

(** Whichever of its calls fail, [sendEmail] asks for one export, sends at
    most one mail, and leaves no temporary file behind. *)
Lemma sendEmail_spec sid w :
  temp_file (snd (sendEmail sid w)) = None
  /\ exports (trace (snd (sendEmail sid w))) = S (exports (trace w))
  /\ sends (trace (snd (sendEmail sid w))) <= S (sends (trace w)).
Proof.
  unfold sendEmail, files_export, sendMail.
  unfold try_catch, bind, fs_writeFile, fs_unlink, call, get, modify, ret,
    throw, lookup_spreadsheet.
  dispatch_cases; world_simpl; unfold exports, sends, count;
    cbn [filter is_export is_send List.length]; repeat split;
    solve [lia | assumption | reflexivity].
Qed.

(** With no failing call and an existing spreadsheet, the report is
    sent: one mail, carrying the rows of the store. *)
Lemma sendEmail_ok s f w :
  no_faults w -> lookup_spreadsheet s w = Some f ->
  sends (trace (snd (sendEmail (Some s) w))) = S (sends (trace w))
  /\ outbox (snd (sendEmail (Some s) w))
     = {| mail_from_date :=
            JsDate.formatDate (host_zone w)
              (JsDate.new_Date (Some (sevenDaysAgo w)));
          mail_attachment := file_rows f |} :: outbox w.
Proof.
  intros F L.
  unfold sendEmail, files_export, sendMail.
  unfold try_catch, bind, fs_writeFile, fs_unlink, call, get, modify, ret,
    throw.
  rewrite F. world_simpl.
  change (lookup_spreadsheet s (set_trace (DriveExport (Some s) :: trace w) w))
    with (lookup_spreadsheet s w).
  rewrite L. world_simpl. rewrite F. world_simpl. rewrite F. world_simpl.
  unfold sends, count. cbn [filter is_send List.length]. split; reflexivity.
Qed.

(** The calls of the report, counted: no export and no send when no
    record was accepted; one export, at most one send and no temporary
    file left when one was, and one send when no call of the run
    fails. *)
Lemma run_dispatch_counts w :
  let accepted := processedCount (fst (run w)) in
  let dispatches := if Nat.ltb 0 accepted then 1 else 0 in
  exports (trace (snd (run w))) = exports (trace w) + dispatches
  /\ sends (trace (snd (run w))) <= sends (trace w) + dispatches
  /\ (0 < accepted -> temp_file (snd (run w)) = None)
  /\ (no_faults w ->
      sends (trace (snd (run w))) = sends (trace w) + dispatches).
Proof.
  cbv zeta. rewrite run_unfold.
  pose proof (queryEmails_emits w) as E1.
  pose proof (queryEmails_no_resolution w) as N1.
  destruct (queryEmails w) as [[msgs|e] w1]; cbn [snd] in *.
  2:{ unfold initial. cbn [fst snd processedCount Nat.ltb Nat.leb].
      unfold exports, sends.
      rewrite (emits_count _ _ _ _ E1 not_dispatch_export),
        (emits_count _ _ _ _ E1 not_dispatch_send).
      repeat split; lia. }
  pose proof (within_for_of (on_world (emits not_dispatch)) msgs
                process_message process_message_emits (initial, w1)) as E2.
  assert (J : no_faults w ->
              counting_invariant (resolutions (trace w)) (initial, w1)).
  { intros F. repeat split; unfold guard_resolutions, initial;
      cbn [fst snd spreadsheetId processedCount].
    - apply (emits_no_faults _ _ _ E1 F).
    - discriminate.
    - rewrite (emits_resolutions _ _ N1). lia.
    - lia. }
  assert (J2 : no_faults w ->
               counting_invariant (resolutions (trace w))
                 (snd (for_of msgs process_message (initial, w1))))
    by (intros F; apply loop_counting, J, F).
  clear J. unfold on_world in E2. cbn [snd] in E2.
  destruct (snd (for_of msgs process_message (initial, w1))) as [l w2].
  cbn [fst snd] in *.
  assert (E : emits not_dispatch w w2) by (etransitivity; eassumption).
  assert (Cx : exports (trace w2) = exports (trace w))
    by (apply (emits_count _ _ _ _ E not_dispatch_export)).
  assert (Cs : sends (trace w2) = sends (trace w))
    by (apply (emits_count _ _ _ _ E not_dispatch_send)).
  destruct (Nat.ltb 0 (processedCount l)) eqn:Hpc; cbn [fst snd].
  - rewrite Hpc.
    destruct (sendEmail_spec (spreadsheetId l) w2) as (T & X & S).
    rewrite X, Cx. split; [lia|]. split; [lia|]. split; [auto|].
    intros F. destruct (J2 F) as (F2 & R2 & _ & P2). cbn [fst snd] in *.
    apply Nat.ltb_lt in Hpc.
    destruct (spreadsheetId l) as [s|] eqn:Hs; [|destruct (P2 Hpc eq_refl)].
    destruct (resolved_lookup _ _ (R2 s eq_refl)) as [f L].
    destruct (sendEmail_ok s f w2 F2 L) as [S1 _]. lia.
  - rewrite Hpc. apply Nat.ltb_ge in Hpc.
    repeat split; try lia.
Qed.

(** C7, counterexample.  One new notification is accepted and the export
    call (call number 15 of the run) fails: one record was accepted, one
    export was requested, and no mail was sent. *)
Lemma failed_export_counterexample :
  let r := run (Examples.new_signup_world (Examples.failing_at 15)) in
  processedCount (fst r) = 1
  /\ exports (trace (snd r)) = 1
  /\ sends (trace (snd r)) = 0
  /\ outbox (snd r) = []
  /\ temp_file (snd r) = None.
Proof. vm_compute. repeat split; reflexivity. Qed.

End CountFacts.

(** * Further properties of the pipeline *)

(** ** What no step undoes *)

Module SafetyFacts.
Import Monad Monad.Notations World Pipeline Spec Frame StepFacts QueryFacts
  ResolveFacts RecordFacts LoopFacts CountFacts.
Local Open Scope list_scope.

Lemma same_but_unread_refl m : same_but_unread m m.
Proof. repeat split; auto. Qed.

Lemma same_but_unread_trans a b c :
  same_but_unread a b -> same_but_unread b c -> same_but_unread a c.
Proof.
  intros (A1 & A2 & A3 & A4 & A5) (B1 & B2 & B3 & B4 & B5).
  repeat split; try congruence. auto.
Qed.

Lemma Forall2_refl_on {A} (R : A -> A -> Prop) l :
  (forall x, R x x) -> Forall2 R l l.
Proof. intros H. induction l; constructor; auto. Qed.

Lemma Forall2_trans_on {A} (R : A -> A -> Prop) :
  (forall x y z, R x y -> R y z -> R x z) ->
  forall l1 l2 l3, Forall2 R l1 l2 -> Forall2 R l2 l3 -> Forall2 R l1 l3.
Proof.
  intros T l1 l2 l3 H. revert l3.
  induction H as [|x y l1 l2 Hxy H IH]; intros l3 H3; inversion H3; subst.
  - constructor.
  - constructor; eauto.
Qed.

#[global] Instance only_marks_preorder : PreOrder only_marks.
Proof.
  split; unfold only_marks.
  - intros w. apply Forall2_refl_on, same_but_unread_refl.
  - intros a b c. apply Forall2_trans_on. exact same_but_unread_trans.
Qed.

#[global] Instance grows_only_preorder : PreOrder grows_only.
Proof.
  split; unfold grows_only.
  - intros w i f H. exists f. repeat split; auto.
    + apply incl_refl.
    + exists []. rewrite app_nil_r. reflexivity.
  - intros a b c H1 H2 i f H.
    destruct (H1 i f H) as (f1 & N1 & A1 & B1 & C1 & (m1 & D1)).
    destruct (H2 i f1 N1) as (f2 & N2 & A2 & B2 & C2 & (m2 & D2)).
    exists f2. repeat split; try congruence.
    + eapply incl_tran; eassumption.
    + exists (m1 ++ m2). rewrite D2, D1, app_assoc. reflexivity.
Qed.

#[global] Instance only_calls_preorder : PreOrder only_calls.
Proof.
  split; unfold only_calls.
  - intros w. repeat split.
  - intros a b c (A1 & A2 & A3 & A4 & A5 & A6 & A7) (B1 & B2 & B3 & B4 & B5 & B6 & B7).
    repeat split; congruence.
Qed.

#[global] Instance same_mailbox_preorder : PreOrder same_mailbox.
Proof.
  split; unfold same_mailbox.
  - intros w. reflexivity.
  - intros a b c H1 H2. congruence.
Qed.

#[global] Instance same_outbox_preorder : PreOrder same_outbox.
Proof.
  split; unfold same_outbox.
  - intros w. repeat split.
  - intros a b c (A1 & A2 & A3) (B1 & B2 & B3). repeat split; congruence.
Qed.

(** *** The calls and the updates, for these relations *)

Lemma only_marks_same w w' : mailbox w' = mailbox w -> only_marks w w'.
Proof.
  unfold only_marks. intros ->. apply Forall2_refl_on, same_but_unread_refl.
Qed.

Lemma only_marks_mark id w :
  only_marks w (set_mailbox (map (mark_read id) (mailbox w)) w).
Proof.
  unfold only_marks. cbn [mailbox set_mailbox].
  induction (mailbox w) as [|m mb IH]; constructor; [|exact IH].
  unfold mark_read. destruct (String.eqb (msg_id m) id).
  - repeat split; cbn; auto. discriminate.
  - apply same_but_unread_refl.
Qed.

Lemma grows_only_same w w' : drive w' = drive w -> grows_only w w'.
Proof.
  intros E i f H. rewrite E. exists f. repeat split; auto.
  - apply incl_refl.
  - exists []. rewrite app_nil_r. reflexivity.
Qed.

Lemma grows_only_create w f : grows_only w (set_drive (drive w ++ [f]) w).
Proof.
  intros i g H. cbn [drive set_drive]. exists g.
  rewrite nth_error_app1 by (apply nth_error_Some; congruence).
  repeat split; auto.
  - apply incl_refl.
  - exists []. rewrite app_nil_r. reflexivity.
Qed.

Lemma grows_only_add_parent w k fid :
  grows_only w (set_drive (update_nth k (add_parent fid) (drive w)) w).
Proof.
  intros i f H. cbn [drive set_drive]. rewrite nth_error_update_nth, H.
  destruct (Nat.eqb i k); cbn [option_map].
  - exists (add_parent fid f). repeat split; auto.
    + cbn. apply incl_tl, incl_refl.
    + exists []. rewrite app_nil_r. reflexivity.
  - exists f. repeat split; auto.
    + apply incl_refl.
    + exists []. rewrite app_nil_r. reflexivity.
Qed.

Lemma grows_only_add_row w k row :
  grows_only w (set_drive (update_nth k (add_row row) (drive w)) w).
Proof.
  intros i f H. cbn [drive set_drive]. rewrite nth_error_update_nth, H.
  destruct (Nat.eqb i k); cbn [option_map].
  - exists (add_row row f). repeat split; auto.
    + apply incl_refl.
    + exists [row]. reflexivity.
  - exists f. repeat split; auto.
    + apply incl_refl.
    + exists []. rewrite app_nil_r. reflexivity.
Qed.

Lemma call_only_marks e : within only_marks (call e).
Proof.
  intros w. unfold call. destruct (faults w _); apply only_marks_same; reflexivity.
Qed.

Lemma call_grows_only e : within grows_only (call e).
Proof.
  intros w. unfold call. destruct (faults w _); apply grows_only_same; reflexivity.
Qed.

Lemma call_only_calls e : within only_calls (call e).
Proof.
  intros w. unfold call. destruct (faults w _); repeat split.
Qed.

Lemma call_same_mailbox e : within same_mailbox (call e).
Proof. intros w. unfold call. destruct (faults w _); reflexivity. Qed.

Lemma call_same_outbox e : within same_outbox (call e).
Proof. intros w. unfold call. destruct (faults w _); repeat split. Qed.

Lemma writeFile_only_marks data : within only_marks (fs_writeFile data).
Proof.
  intros w. unfold fs_writeFile.
  destruct (faults w _); apply only_marks_same; reflexivity.
Qed.

Lemma unlink_only_marks : within only_marks fs_unlink.
Proof.
  intros w. unfold fs_unlink.
  destruct (temp_file w); apply only_marks_same; reflexivity.
Qed.

Lemma writeFile_grows_only data : within grows_only (fs_writeFile data).
Proof.
  intros w. unfold fs_writeFile.
  destruct (faults w _); apply grows_only_same; reflexivity.
Qed.

Lemma unlink_grows_only : within grows_only fs_unlink.
Proof.
  intros w. unfold fs_unlink.
  destruct (temp_file w); apply grows_only_same; reflexivity.
Qed.

#[export] Hint Resolve call_only_marks call_grows_only call_only_calls
  call_same_mailbox call_same_outbox writeFile_only_marks unlink_only_marks
  writeFile_grows_only unlink_grows_only only_marks_mark grows_only_create
  grows_only_add_parent grows_only_add_row : frame.
#[export] Hint Extern 1 (only_marks _ _) =>
  apply only_marks_same; reflexivity : frame.
#[export] Hint Extern 1 (grows_only _ _) =>
  apply grows_only_same; reflexivity : frame.
#[export] Hint Extern 1 (only_calls _ _) => (repeat split) : frame.
#[export] Hint Extern 1 (same_mailbox _ _) => reflexivity : frame.
#[export] Hint Extern 1 (same_outbox _ _) => (repeat split) : frame.

Lemma main_only_marks : within (on_world only_marks) main.
Proof. unfold main. within_steps. Qed.

Lemma main_grows_only : within (on_world grows_only) main.
Proof. unfold main. within_steps. Qed.

Lemma queryEmails_only_calls : within only_calls queryEmails.
Proof. within_steps. Qed.

Lemma extractSignupInfo_only_calls id : within only_calls (extractSignupInfo id).
Proof. within_steps. Qed.

Lemma isDuplicateEntry_only_calls c sid : within only_calls (isDuplicateEntry c sid).
Proof. within_steps. Qed.

(** X1.  Whichever calls fail, [main] deletes no file and no row, and
    changes no existing row: a file of the Drive is still there afterwards,
    with its name, kind and parents, and its rows are the old rows followed
    by the rows appended. *)
Theorem rows_only_appended w i f :
  nth_error (drive w) i = Some f ->
  exists f',
    nth_error (drive (snd (run w))) i = Some f'
    /\ file_name f' = file_name f /\ file_mime f' = file_mime f
    /\ incl (file_parents f) (file_parents f')
    /\ exists more, file_rows f' = file_rows f ++ more.
Proof. intros H. apply (main_grows_only (initial, w) i f H). Qed.

Lemma rows_only_appended_witness :
  nth_error (drive Examples.stored_twin_world) 1 = Some Examples.stored_sheet
  /\ exists f',
       nth_error (drive (snd (run Examples.stored_twin_world))) 1 = Some f'
       /\ file_name f' = file_name Examples.stored_sheet
       /\ file_mime f' = file_mime Examples.stored_sheet
       /\ incl (file_parents Examples.stored_sheet) (file_parents f')
       /\ exists more, file_rows f' = file_rows Examples.stored_sheet ++ more.
Proof.
  split; [reflexivity|].
  apply (rows_only_appended Examples.stored_twin_world 1 Examples.stored_sheet).
  reflexivity.
Defined.

(** X2.  Whichever calls fail, [main] leaves the mailbox with the same
    messages in the same order; the only change it ever makes to a
    message is to remove its UNREAD label. *)
Theorem mailbox_only_marked w :
  Forall2 same_but_unread (mailbox w) (mailbox (snd (run w))).
Proof. apply (main_only_marks (initial, w)). Qed.

(** X3.  The scanner, the field extractor and the duplicate check are
    read-only: whatever they return or throw, the mailbox, the Drive, the
    temporary file and the mails sent are as before. *)
Theorem scanner_extractor_check_read_only w id c sid :
  only_calls w (snd (queryEmails w))
  /\ only_calls w (snd (extractSignupInfo id w))
  /\ only_calls w (snd (isDuplicateEntry c sid w)).
Proof.
  split; [apply queryEmails_only_calls|].
  split; [apply extractSignupInfo_only_calls|apply isDuplicateEntry_only_calls].
Qed.

(** *** What the scanner returns, whichever calls fail *)

Lemma try_catch_rethrow {S A} (m : M S A) s :
  try_catch m (fun e => throw e) s = m s.
Proof. unfold try_catch, throw. destruct (m s) as [[a|e] s']; reflexivity. Qed.

Lemma messages_list_ok_inv q n w l w' :
  messages_list q n w = (Ok l, w') ->
  l = firstn n (all_matching q w) /\ mailbox w' = mailbox w.
Proof.
  unfold messages_list. intros H.
  apply bind_ok in H as (u & w1 & Hc & H). apply call_ok_inv in Hc as [_ ->].
  inversion H; subst. auto.
Qed.

Lemma queryEmails_ok_inv w r w' :
  queryEmails w = (Ok r, w') -> r = listing (selected_query w) w.
Proof.
  unfold queryEmails. rewrite try_catch_rethrow. intros H.
  apply bind_ok in H as (w0 & s0 & Hg & H). inversion Hg; subst w0 s0.
  cbv zeta in H.
  apply bind_ok in H as (msgs & w1 & Hl & H).
  apply messages_list_ok_inv in Hl as [-> M1].
  apply bind_ok in H as (msgs2 & w2 & H2 & H).
  apply bind_ok in H as (u & w3 & _ & H). inversion H; subst r w'.
  unfold selected_query, listing in *.
  destruct (firstn 100 (all_matching primary_query w)) as [|id ids] eqn:E.
  - cbn [List.length Nat.eqb] in H2.
    apply messages_list_ok_inv in H2 as [-> _].
    unfold all_matching. rewrite M1. reflexivity.
  - cbn [List.length Nat.eqb] in H2. inversion H2. cbv iota.
    rewrite E. reflexivity.
Qed.

Lemma nothing_unread_nothing_listed q w :
  q_is_unread q = true ->
  (forall m, In m (mailbox w) -> msg_unread m = false) ->
  all_matching q w = [].
Proof.
  intros Hq H. unfold all_matching.
  induction (mailbox w) as [|m mb IH]; [reflexivity|].
  cbn [filter]. unfold matches at 1. rewrite Hq, (H m (or_introl eq_refl)).
  rewrite andb_false_r. cbn [andb]. apply IH.
  intros m' Hin. apply H. right. exact Hin.
Qed.

(** X4.  When no message of the mailbox is unread, a run does nothing:
    whichever calls fail, no record is counted, and the mailbox, the
    Drive, the temporary file and the mails sent are as before. *)
Theorem nothing_unread_nothing_done w :
  (forall m, In m (mailbox w) -> msg_unread m = false) ->
  fst (run w) = initial /\ only_calls w (snd (run w)).
Proof.
  intros H. rewrite run_unfold.
  pose proof (queryEmails_only_calls w) as Q.
  destruct (queryEmails w) as [[msgs|e] w1] eqn:E; cbn [snd] in Q.
  - apply queryEmails_ok_inv in E. subst msgs.
    unfold listing.
    rewrite (nothing_unread_nothing_listed (selected_query w) w
               (proj1 (selected_query_shape w)) H).
    change (firstn 100 (@nil string)) with (@nil string).
    cbv zeta. cbn [for_of ret snd fst]. unfold initial at 2.
    cbn [processedCount Nat.ltb Nat.leb]. auto.
  - auto.
Qed.

Lemma nothing_unread_nothing_done_witness :
  (forall m, In m (mailbox (snd (run Examples.padded_world))) ->
             msg_unread m = false)
  /\ fst (run (snd (run Examples.padded_world))) = initial
  /\ only_calls (snd (run Examples.padded_world))
       (snd (run (snd (run Examples.padded_world)))).
Proof.
  assert (H : forall m, In m (mailbox (snd (run Examples.padded_world))) ->
                        msg_unread m = false).
  { intros m Hin. vm_compute in Hin. destruct Hin as [<-|[]]. reflexivity. }
  split; [exact H|].
  apply (nothing_unread_nothing_done (snd (run Examples.padded_world)) H).
Defined.

End SafetyFacts.

(** ** More on store resolution *)

Module ResolveMore.
Import Monad Monad.Notations World Pipeline Spec Frame StepFacts QueryFacts
  ResolveFacts RecordFacts LoopFacts CountFacts SafetyFacts.
Local Open Scope list_scope.

Lemma bind_eq_throw {S A B} (m : M S A) (k : A -> M S B) s e s1 :
  m s = (Throw e, s1) -> bind m k s = (Throw e, s1).
Proof. unfold bind. intros ->. reflexivity. Qed.

Lemma call_fail e w :
  faults w (List.length (trace w)) <> NoFault ->
  call e w = (Throw TransportError, set_trace (e :: trace w) w).
Proof. unfold call. destruct (faults w _); congruence. Qed.

(** When the folder holds no spreadsheet of the name, a resolution that
    returns has created one, at the end of the Drive and in the folder. *)
Lemma resolve_in_inv_empty fid w s w' :
  find_ids (spreadsheet_query fid) 0 (drive w) = [] ->
  resolve_in fid w = (Ok s, w') ->
  s = List.length (drive w)
  /\ drive w' = drive w ++ [add_parent fid new_spreadsheet].
Proof.
  intros E2 H. unfold resolve_in in H.
  apply bind_ok in H as (sheets & w1 & Hl & H).
  apply files_list_ok_inv in Hl as [-> D1]. rewrite E2 in H.
  apply bind_ok in H as (s0 & w2 & Hc & H).
  apply files_create_ok_inv in Hc as [-> D2].
  apply bind_ok in H as (u & w3 & Hb & H). apply batchUpdate_ok_inv in Hb.
  apply bind_ok in H as (u' & w4 & Ha & H). apply addParents_ok_inv in Ha.
  inversion H; subst. rewrite Hb, D2, D1 in Ha.
  rewrite update_nth_snoc in Ha. rewrite D1. auto.
Qed.

Lemma find_ids_lookup fid d s rest :
  find_ids (spreadsheet_query fid) 0 d = s :: rest ->
  exists f, nth_error d s = Some f /\ is_spreadsheet f = true.
Proof.
  intros E. apply find_ids_head in E as [_ (f & Hf & Pf)].
  rewrite Nat.sub_0_r in Hf. exists f. split; [exact Hf|].
  unfold spreadsheet_query in Pf.
  apply andb_prop in Pf as [Pf _]. apply andb_prop in Pf as [_ Pf]. exact Pf.
Qed.

Lemma resolve_in_created fid w s w' :
  resolve_in fid w = (Ok s, w') ->
  lookup_spreadsheet s w = None ->
  s = List.length (drive w)
  /\ drive w' = drive w ++ [add_parent fid new_spreadsheet].
Proof.
  intros H L.
  destruct (find_ids (spreadsheet_query fid) 0 (drive w)) as [|s0 rest] eqn:E2.
  - apply (resolve_in_inv_empty fid w s w' E2 H).
  - exfalso. unfold resolve_in in H.
    apply bind_ok in H as (sheets & w1 & Hl & H).
    apply files_list_ok_inv in Hl as [-> D1]. rewrite E2 in H.
    apply bind_ok in H as (u & w2 & _ & H). inversion H; subst s0.
    destruct (find_ids_lookup _ _ _ _ E2) as (f & Hf & Pf).
    unfold lookup_spreadsheet in L. rewrite Hf, Pf in L. discriminate.
Qed.

(** X5.  Store resolution is idempotent: once [createOrGetSpreadsheet] has
    returned an identifier, a further resolution changes no file, returns
    that same identifier if it returns, and does return when no call
    fails. *)
Theorem resolution_idempotent w s w1 :
  createOrGetSpreadsheet w = (Ok s, w1) ->
  drive (snd (createOrGetSpreadsheet w1)) = drive w1
  /\ (forall s', fst (createOrGetSpreadsheet w1) = Ok s' -> s' = s)
  /\ (no_faults w1 -> fst (createOrGetSpreadsheet w1) = Ok s).
Proof.
  intros H. apply createOrGetSpreadsheet_resolved in H.
  pose proof (createOrGetSpreadsheet_spec w1) as G.
  destruct (createOrGetSpreadsheet_again w1 s H) as [fid Hrun].
  cbv zeta in Hrun.
  destruct (createOrGetSpreadsheet w1) as [[s'|e] w2]; cbn [fst snd].
  - destruct G as [_ G]. destruct (G s H) as [-> D].
    split; [exact D|]. split; [congruence|auto].
  - split; [apply (G s H)|]. split; [discriminate|].
    intros F. rewrite !F in Hrun. discriminate.
Qed.

Lemma resolution_idempotent_witness :
  let w1 := snd (createOrGetSpreadsheet (Examples.new_signup_world Examples.never)) in
  createOrGetSpreadsheet (Examples.new_signup_world Examples.never) = (Ok 1, w1)
  /\ drive (snd (createOrGetSpreadsheet w1)) = drive w1
  /\ (forall s', fst (createOrGetSpreadsheet w1) = Ok s' -> s' = 1)
  /\ (no_faults w1 -> fst (createOrGetSpreadsheet w1) = Ok 1).
Proof.
  cbv zeta. split; [vm_compute; reflexivity|].
  apply (resolution_idempotent (Examples.new_signup_world Examples.never) 1
           (snd (createOrGetSpreadsheet (Examples.new_signup_world Examples.never)))).
  vm_compute; reflexivity.
Defined.

(** X6.  A spreadsheet that [createOrGetSpreadsheet] returns and that did
    not exist before is the last file of the Drive, is the spreadsheet
    "Growth Track Signups" as created, holding the header row and nothing
    else, and has been added to a folder named "Growth Track
    Registrations". *)
Theorem created_store_has_header w s w' :
  createOrGetSpreadsheet w = (Ok s, w') ->
  lookup_spreadsheet s w = None ->
  exists fid g,
    drive w' = firstn s (drive w') ++ [add_parent fid new_spreadsheet]
    /\ nth_error (drive w') s = Some (add_parent fid new_spreadsheet)
    /\ rows_at w' s = Some [["Registration Date"; "Full Name"; "Phone"; "Email"]%string]
    /\ nth_error (drive w') fid = Some g
    /\ file_mime g = folder
    /\ file_name g = "Growth Track Registrations"%string.
Proof.
  rewrite createOrGetSpreadsheet_unfold. intros H L.
  apply bind_ok in H as (folders & w1 & Hl & H).
  apply files_list_ok_inv in Hl as [-> D1].
  apply bind_ok in H as (fid & w2 & Hf & H).
  assert (F : exists g, nth_error (drive w2) fid = Some g
                        /\ folder_query g = true
                        /\ lookup_spreadsheet s w2 = None).
  { destruct (find_ids folder_query 0 (drive w)) as [|f folders] eqn:E1.
    - apply files_create_ok_inv in Hf as [-> D2]. exists new_folder.
      rewrite D2, D1. rewrite nth_error_app2, Nat.sub_diag by lia.
      split; [reflexivity|]. split; [reflexivity|].
      unfold lookup_spreadsheet in *. rewrite D2, D1.
      destruct (nth_error (drive w ++ [new_folder]) s) as [f|] eqn:N;
        [|reflexivity].
      apply nth_error_snoc in N as [N|[_ ->]]; [|reflexivity].
      rewrite N in L. exact L.
    - inversion Hf; subst. apply find_ids_head in E1 as [_ (g & Hg & Pg)].
      rewrite Nat.sub_0_r in Hg. exists g. rewrite D1.
      split; [exact Hg|]. split; [exact Pg|].
      unfold lookup_spreadsheet in *. rewrite D1. exact L. }
  destruct F as (g & Hg & Pg & L2).
  destruct (resolve_in_created fid w2 s w' H L2) as [-> D].
  exists fid, g.
  assert (N : nth_error (drive w') (List.length (drive w2))
              = Some (add_parent fid new_spreadsheet)).
  { rewrite D, nth_error_app2, Nat.sub_diag by lia. reflexivity. }
  split.
  { rewrite D at 1. rewrite D, firstn_app, Nat.sub_diag, firstn_all.
    cbn [firstn]. rewrite app_nil_r. reflexivity. }
  split; [exact N|]. split.
  { unfold rows_at, lookup_spreadsheet. rewrite N. reflexivity. }
  split.
  { rewrite D, nth_error_app1 by (apply nth_error_Some; congruence). exact Hg. }
  unfold folder_query, is_folder in Pg. apply andb_prop in Pg as [P1 P2].
  apply String.eqb_eq in P2. split; [|exact P2].
  destruct (file_mime g); try discriminate. reflexivity.
Qed.

Lemma created_store_has_header_witness :
  let w := Examples.new_signup_world Examples.never in
  createOrGetSpreadsheet w = (Ok 1, snd (createOrGetSpreadsheet w))
  /\ lookup_spreadsheet 1 w = None
  /\ exists fid g,
       drive (snd (createOrGetSpreadsheet w))
       = firstn 1 (drive (snd (createOrGetSpreadsheet w)))
         ++ [add_parent fid new_spreadsheet]
       /\ nth_error (drive (snd (createOrGetSpreadsheet w))) 1
          = Some (add_parent fid new_spreadsheet)
       /\ rows_at (snd (createOrGetSpreadsheet w)) 1
          = Some [["Registration Date"; "Full Name"; "Phone"; "Email"]%string]
       /\ nth_error (drive (snd (createOrGetSpreadsheet w))) fid = Some g
       /\ file_mime g = folder
       /\ file_name g = "Growth Track Registrations"%string.
Proof.
  cbv zeta. split; [vm_compute; reflexivity|]. split; [vm_compute; reflexivity|].
  apply (created_store_has_header (Examples.new_signup_world Examples.never) 1
           (snd (createOrGetSpreadsheet (Examples.new_signup_world Examples.never))));
    vm_compute; reflexivity.
Defined.

(** X7.  The spreadsheet is created before it is moved: when the folder
    exists and holds no spreadsheet of the name, and the fifth call of the
    resolution (the move into the folder) is the first to fail, the
    resolution throws and leaves a new spreadsheet outside the folder.
    The folder still holds none, so the next resolution that meets no
    failure creates one more. *)
Theorem failed_move_leaves_orphan w fid rest :
  find_ids folder_query 0 (drive w) = fid :: rest ->
  find_ids (spreadsheet_query fid) 0 (drive w) = [] ->
  (forall k, k < 4 -> faults w (k + List.length (trace w)) = NoFault) ->
  faults w (4 + List.length (trace w)) <> NoFault ->
  exists w',
    createOrGetSpreadsheet w = (Throw TransportError, w')
    /\ drive w' = drive w ++ [new_spreadsheet]
    /\ find_ids (spreadsheet_query fid) 0 (drive w') = []
    /\ forall w2, drive w2 = drive w' -> no_faults w2 ->
         exists w3,
           createOrGetSpreadsheet w2 = (Ok (S (List.length (drive w))), w3)
           /\ drive w3 = drive w ++ [new_spreadsheet; add_parent fid new_spreadsheet].
Proof.
  intros E1 E2 Hok Hfail.
  assert (Q : forall d, find_ids folder_query 0 d = fid :: rest ->
                find_ids folder_query 0 (d ++ [new_spreadsheet]) = fid :: rest).
  { intros d E. rewrite find_ids_snoc, E.
    change (folder_query new_spreadsheet) with false. apply app_nil_r. }
  assert (P : find_ids (spreadsheet_query fid) 0 (drive w ++ [new_spreadsheet]) = []).
  { rewrite find_ids_snoc, E2. unfold spreadsheet_query, new_spreadsheet.
    cbn [file_parents existsb andb]. reflexivity. }
  set (w1 := set_trace (DriveListFolders :: trace w) w).
  set (w2 := set_trace (DriveListSpreadsheets fid :: trace w1) w1).
  set (w3 := set_drive (drive w2 ++ [new_spreadsheet])
               (set_trace (SheetsCreate :: trace w2) w2)).
  set (w4 := set_trace (SheetsBatchUpdate (List.length (drive w2)) :: trace w3) w3).
  exists (set_trace (DriveAddParents (List.length (drive w2)) fid :: trace w4) w4).
  split; [|split; [reflexivity|split; [exact P|]]].
  - rewrite createOrGetSpreadsheet_unfold.
    rewrite (bind_eq_ok _ _ _ _ _ (files_list_ok _ _ w (Hok 0 ltac:(lia)))).
    rewrite E1. fold w1.
    change ((folderId <- ret fid;; resolve_in folderId) w1)
      with (resolve_in fid w1).
    unfold resolve_in.
    rewrite (bind_eq_ok _ _ _ _ _ (files_list_ok _ _ w1 (Hok 1 ltac:(lia)))).
    change (drive w1) with (drive w). rewrite E2. fold w2.
    rewrite (bind_eq_ok _ _ _ _ _ (files_create_ok _ _ w2 (Hok 2 ltac:(lia)))).
    fold w3.
    rewrite (bind_eq_ok _ _ _ _ _
               (batchUpdate_ok _ _ w3 (Hok 3 ltac:(lia))
                  (lookup_created w3 (drive w2) eq_refl))).
    fold w4. apply bind_eq_throw. unfold files_update_addParents.
    apply bind_eq_throw. apply call_fail. exact Hfail.
  - intros v Dv Fv.
    change (drive v = drive w ++ [new_spreadsheet]) in Dv.
    rewrite createOrGetSpreadsheet_unfold.
    rewrite (bind_eq_ok _ _ _ _ _ (files_list_ok _ _ v (no_faults_next _ Fv))).
    rewrite Dv, (Q _ E1).
    set (v1 := set_trace (DriveListFolders :: trace v) v).
    change ((folderId <- ret fid;; resolve_in folderId) v1)
      with (resolve_in fid v1).
    assert (F1 : no_faults v1) by (intros n; apply Fv).
    destruct (resolve_in_ok fid v1 F1) as (sid & v3 & R).
    assert (D1 : drive v1 = drive w ++ [new_spreadsheet]) by exact Dv.
    assert (P1 : find_ids (spreadsheet_query fid) 0 (drive v1) = [])
      by (rewrite D1; exact P).
    destruct (resolve_in_inv_empty fid v1 sid v3 P1 R) as [-> D3].
    exists v3. rewrite R, D3, D1, <- app_assoc, length_app.
    cbn [List.length app]. rewrite Nat.add_1_r. split; reflexivity.
Qed.

Lemma failed_move_leaves_orphan_witness :
  let w := Examples.folder_only_world (Examples.failing_at 4) in
  exists w',
    createOrGetSpreadsheet w = (Throw TransportError, w')
    /\ drive w' = drive w ++ [new_spreadsheet]
    /\ find_ids (spreadsheet_query 0) 0 (drive w') = []
    /\ forall w2, drive w2 = drive w' -> no_faults w2 ->
         exists w3,
           createOrGetSpreadsheet w2 = (Ok (S (List.length (drive w))), w3)
           /\ drive w3 = drive w ++ [new_spreadsheet; add_parent 0 new_spreadsheet].
Proof.
  cbv zeta.
  apply (failed_move_leaves_orphan
           (Examples.folder_only_world (Examples.failing_at 4)) 0 []).
  - vm_compute; reflexivity.
  - vm_compute; reflexivity.
  - intros k Hk. do 4 (destruct k as [|k]; [vm_compute; reflexivity|]). lia.
  - vm_compute. discriminate.
Defined.

End ResolveMore.

(** ** What the report carries *)

Module ReportFacts.
Import Monad Monad.Notations World Pipeline Spec Frame StepFacts QueryFacts
  ResolveFacts RecordFacts LoopFacts CountFacts SafetyFacts.
Local Open Scope list_scope.

Lemma queryEmails_same_outbox : within same_outbox queryEmails.
Proof. within_steps. Qed.

Lemma process_message_same_outbox id :
  within (on_world same_outbox) (process_message id).
Proof. within_steps. Qed.


(** The first calls of a computation, one by one. *)
Lemma calls_ok_two w :
  calls_ok 2 w
  <-> faults w (List.length (trace w)) = NoFault
      /\ faults w (S (List.length (trace w))) = NoFault.
Proof.
  unfold calls_ok. split.
  - intros H. split.
    + rewrite <- (Nat.add_0_r (List.length (trace w))). apply H. lia.
    + rewrite <- Nat.add_1_r. apply H. lia.
  - intros [H0 H1] [|[|k]] Hk; [rewrite Nat.add_0_r|rewrite Nat.add_1_r|lia];
      assumption.
Qed.

Lemma calls_ok_three w :
  calls_ok 3 w ->
  calls_ok 2 w /\ faults w (S (S (List.length (trace w)))) = NoFault.
Proof.
  intros H. split.
  - intros k Hk. apply H. lia.
  - replace (S (S (List.length (trace w)))) with (List.length (trace w) + 2)
      by lia.
    apply H. lia.
Qed.

(** The send is attempted once the export and the write have succeeded,
    and the mail goes out when the send does not fail either. *)
Lemma sendEmail_attempt s f w :
  lookup_spreadsheet s w = Some f -> calls_ok 2 w ->
  sends (trace (snd (sendEmail (Some s) w))) = S (sends (trace w))
  /\ (faults w (S (S (List.length (trace w)))) = NoFault ->
      outbox (snd (sendEmail (Some s) w))
      = {| mail_from_date :=
             JsDate.formatDate (host_zone w)
               (JsDate.new_Date (Some (sevenDaysAgo w)));
           mail_attachment := file_rows f |} :: outbox w).
Proof.
  intros L C. apply calls_ok_two in C as [F0 F1].
  unfold sendEmail, files_export, sendMail.
  unfold try_catch, bind, fs_writeFile, fs_unlink, call, get, modify, ret,
    throw.
  rewrite F0. world_simpl.
  change (lookup_spreadsheet s (set_trace (DriveExport (Some s) :: trace w) w))
    with (lookup_spreadsheet s w).
  rewrite L. world_simpl. rewrite F1. world_simpl.
  destruct (faults w (S (S (List.length (trace w))))); world_simpl;
    unfold sends, count; cbn [filter is_send List.length];
    (split; [reflexivity|]); intros E; first [reflexivity|discriminate E].
Qed.

(** No send is attempted when the export or the write fails. *)
Lemma sendEmail_no_attempt sid w :
  ~ calls_ok 2 w ->
  sends (trace (snd (sendEmail sid w))) = sends (trace w)
  /\ outbox (snd (sendEmail sid w)) = outbox w.
Proof.
  intros N.
  assert (H : faults w (List.length (trace w)) <> NoFault
              \/ faults w (S (List.length (trace w))) <> NoFault).
  { destruct (faults w (List.length (trace w))) eqn:F0;
      try (left; discriminate).
    destruct (faults w (S (List.length (trace w)))) eqn:F1;
      try (right; discriminate).
    destruct N. apply calls_ok_two. auto. }
  clear N. revert H.
  unfold sendEmail, files_export, sendMail.
  unfold try_catch, bind, fs_writeFile, fs_unlink, call, get, modify, ret,
    throw.
  dispatch_cases; world_simpl; unfold sends, count;
    cbn [filter is_send List.length]; intros [H|H];
    first [split; reflexivity | destruct H; reflexivity].
Qed.

(** A run up to the dispatch: the loop makes no export and no send and
    leaves the mails sent alone; the dispatch, made when a record was
    accepted, exports the spreadsheet whose identifier [main] holds. *)
Lemma run_through_dispatch w :
  emits not_dispatch w (before_dispatch w)
  /\ same_outbox w (before_dispatch w)
  /\ (processedCount (fst (run w)) = 0 -> snd (run w) = before_dispatch w)
  /\ (0 < processedCount (fst (run w)) ->
      exists s f,
        spreadsheetId (fst (run w)) = Some s
        /\ lookup_spreadsheet s (before_dispatch w) = Some f
        /\ snd (run w) = snd (sendEmail (Some s) (before_dispatch w))).
Proof.
  rewrite run_unfold. unfold before_dispatch.
  pose proof (queryEmails_emits w) as E1.
  pose proof (queryEmails_same_outbox w) as Q.
  destruct (queryEmails w) as [[msgs|e] w1]; cbn [fst snd] in *.
  2:{ split; [exact E1|]. split; [exact Q|]. split; [reflexivity|].
      unfold initial. cbn [processedCount]. intros H. inversion H. }
  pose proof (within_for_of (on_world (emits not_dispatch)) msgs
                process_message process_message_emits (initial, w1)) as E2.
  pose proof (within_for_of (on_world same_outbox) msgs process_message
                process_message_same_outbox (initial, w1)) as L.
  assert (J : store_invariant (List.length (drive w1)) (initial, w1)).
  { split; [|split]; cbn [fst snd initial spreadsheetId processedCount].
    - intros s E. discriminate E.
    - intros f N.
      assert (X : nth_error (drive w1) (List.length (drive w1)) = None)
        by (apply nth_error_None; lia).
      congruence.
    - intros H. inversion H. }
  apply (loop_invariant _ msgs) in J.
  unfold on_world in E2, L. cbn [snd] in E2, L. cbv zeta.
  destruct (snd (for_of msgs process_message (initial, w1))) as [l w2].
  destruct J as (R & _ & P). cbn [fst snd] in *.
  split; [etransitivity; eassumption|].
  split; [etransitivity; eassumption|].
  destruct (Nat.ltb 0 (processedCount l)) eqn:Hpc; cbn [fst snd].
  - apply Nat.ltb_lt in Hpc. split; [intros H; lia|]. intros _.
    destruct (spreadsheetId l) as [s|] eqn:Hs; [|destruct (P Hpc eq_refl)].
    destruct (resolved_lookup _ _ (R s eq_refl)) as [f Lf].
    exists s, f. auto.
  - apply Nat.ltb_ge in Hpc. split; [reflexivity|]. intros H. lia.
Qed.



End ReportFacts.

(** ** When the report is dispatched *)

Module DispatchFacts.
Import Monad Monad.Notations World Pipeline Spec Frame StepFacts QueryFacts
  ResolveFacts RecordFacts LoopFacts CountFacts SafetyFacts ReportFacts.
Local Open Scope list_scope.

(** C7 (as amended).  No export and no send occur when no record was
    accepted.  When at least one was accepted, exactly one export is
    requested and the temporary file does not exist afterwards, whether
    the dispatch succeeds or fails.  The send is called exactly once when
    the export and the write of the temporary file succeed, whatever
    failed earlier in the run, and the mail goes out when the send does
    not fail either; when the export or the write fails the send is not
    called and no mail goes out. *)
Theorem report_dispatch_gating w :
  let accepted := processedCount (fst (run w)) in
  let dispatches := if Nat.ltb 0 accepted then 1 else 0 in
  exports (trace (snd (run w))) = exports (trace w) + dispatches
  /\ sends (trace (snd (run w))) <= sends (trace w) + dispatches
  /\ (0 < accepted -> temp_file (snd (run w)) = None)
  /\ (0 < accepted -> calls_ok 2 (before_dispatch w) ->
      sends (trace (snd (run w))) = sends (trace w) + 1)
  /\ (0 < accepted -> calls_ok 3 (before_dispatch w) ->
      exists mail, outbox (snd (run w)) = mail :: outbox w)
  /\ (0 < accepted -> ~ calls_ok 2 (before_dispatch w) ->
      sends (trace (snd (run w))) = sends (trace w)
      /\ outbox (snd (run w)) = outbox w)
  /\ (no_faults w ->
      sends (trace (snd (run w))) = sends (trace w) + dispatches).
Proof.
  cbv zeta.
  destruct (run_dispatch_counts w) as (X & S & T & F).
  destruct (run_through_dispatch w) as (E & (_ & _ & Oo) & _ & P).
  pose proof (emits_count _ _ _ _ E not_dispatch_send) as Cs.
  fold (sends (trace (before_dispatch w))) in Cs. fold (sends (trace w)) in Cs.
  split; [exact X|]. split; [exact S|]. split; [exact T|].
  split; [|split; [|split; [|exact F]]].
  - intros Hpc C. destruct (P Hpc) as (s & f & _ & Lf & ->).
    destruct (sendEmail_attempt s f _ Lf C) as [A _]. rewrite A, Cs. lia.
  - intros Hpc C. destruct (P Hpc) as (s & f & _ & Lf & ->).
    apply calls_ok_three in C as [C2 F2].
    destruct (sendEmail_attempt s f _ Lf C2) as [_ Ho].
    rewrite (Ho F2), Oo. eauto.
  - intros Hpc N. destruct (P Hpc) as (s & f & _ & _ & ->).
    destruct (sendEmail_no_attempt (Some s) _ N) as [A Ho].
    rewrite A, Ho, Cs, Oo. auto.
Qed.

Lemma report_dispatch_gating_witness :
  ~ no_faults (Examples.new_signup_world (Examples.failing_at 14))
  /\ 0 < processedCount
           (fst (run (Examples.new_signup_world (Examples.failing_at 14))))
  /\ calls_ok 3 (before_dispatch (Examples.new_signup_world (Examples.failing_at 14)))
  /\ exports (trace (snd (run (Examples.new_signup_world (Examples.failing_at 14)))))
     = 1
  /\ sends (trace (snd (run (Examples.new_signup_world (Examples.failing_at 14)))))
     = 1
  /\ temp_file (snd (run (Examples.new_signup_world (Examples.failing_at 14))))
     = None
  /\ exists mail,
       outbox (snd (run (Examples.new_signup_world (Examples.failing_at 14))))
       = [mail].
Proof.
  assert (Hn : ~ no_faults (Examples.new_signup_world (Examples.failing_at 14))).
  { intros F. specialize (F 14). vm_compute in F. discriminate F. }
  assert (Hp : 0 < processedCount
                     (fst (run (Examples.new_signup_world (Examples.failing_at 14)))))
    by (vm_compute; lia).
  assert (Hc : calls_ok 3
                 (before_dispatch
                    (Examples.new_signup_world (Examples.failing_at 14)))).
  { intros k Hk. do 3 (destruct k as [|k]; [vm_compute; reflexivity|]). lia. }
  destruct (report_dispatch_gating
              (Examples.new_signup_world (Examples.failing_at 14)))
    as (X & _ & T & S2 & O3 & _).
  split; [exact Hn|]. split; [exact Hp|]. split; [exact Hc|].
  split; [rewrite X; vm_compute; reflexivity|].
  split; [apply (S2 Hp); apply calls_ok_three in Hc as [C2 _]; exact C2|].
  split; [exact (T Hp)|]. exact (O3 Hp Hc).
Defined.

End DispatchFacts.

(** ** A message is marked as read only once its record is stored *)

Module DeliveryFacts.
Import Monad Monad.Notations World Pipeline Spec Frame StepFacts QueryFacts
  ResolveFacts RecordFacts LoopFacts CountFacts SafetyFacts ReportFacts.
Local Open Scope list_scope.

Lemma writeFile_same_mailbox data : within same_mailbox (fs_writeFile data).
Proof. intros w. unfold fs_writeFile. destruct (faults w _); reflexivity. Qed.

Lemma unlink_same_mailbox : within same_mailbox fs_unlink.
Proof. intros w. unfold fs_unlink. destruct (temp_file w); reflexivity. Qed.

#[export] Hint Resolve writeFile_same_mailbox unlink_same_mailbox : frame.

Lemma extractSignupInfo_same_mailbox id : within same_mailbox (extractSignupInfo id).
Proof. within_steps. Qed.

Lemma createOrGetSpreadsheet_same_mailbox : within same_mailbox createOrGetSpreadsheet.
Proof. within_steps. Qed.

Lemma isDuplicateEntry_same_mailbox c sid : within same_mailbox (isDuplicateEntry c sid).
Proof. within_steps. Qed.

Lemma saveToGoogleSheets_same_mailbox c : within same_mailbox (saveToGoogleSheets c).
Proof. within_steps. Qed.

Lemma sendEmail_same_mailbox sid : within same_mailbox (sendEmail sid).
Proof. within_steps. Qed.

Lemma extractSignupInfo_ok_inv id w c w1 :
  extractSignupInfo id w = (Ok c, w1) -> signup_of w id = Some c.
Proof.
  unfold extractSignupInfo, messages_get, signup_of. intros H.
  apply bind_ok in H as (m & w2 & Hg & H).
  apply bind_ok in Hg as (u & w3 & Hc & Hg). apply call_ok_inv in Hc as [_ ->].
  unfold bind, get in Hg. cbv beta iota in Hg. cbn [mailbox set_trace] in Hg.
  destruct (find_message id (mailbox w)) as [m0|]; [|discriminate].
  inversion Hg; subst m0 w2. clear Hg.
  apply bind_ok in H as (body & w4 & Hb & H).
  assert (D : decoded_body (payload m) = Some body
              /\ w4 = set_trace (GmailGet id full :: trace w) w).
  { unfold message_body, decode, decoded_body in *.
    destruct (parts (payload m)) as [[|p0 ps]|]; try discriminate.
    - destruct (part_data p0); inversion Hb; auto.
    - destruct (body_data (payload m)); inversion Hb; auto. }
  destruct D as [-> ->]. inversion H. reflexivity.
Qed.

(** [markEmailAsRead] marks the message when it returns and changes
    nothing of the mailbox when it throws. *)
Lemma markEmailAsRead_spec id w :
  drive (snd (markEmailAsRead id w)) = drive w
  /\ match fst (markEmailAsRead id w) with
     | Ok _ => mailbox (snd (markEmailAsRead id w)) = map (mark_read id) (mailbox w)
     | Throw _ => mailbox (snd (markEmailAsRead id w)) = mailbox w
     end.
Proof.
  unfold markEmailAsRead, messages_modify, try_catch, bind, call, get, modify,
    throw.
  destruct (faults w _); world_simpl; try (split; reflexivity);
    destruct (find_message id (mailbox w)); world_simpl; split; reflexivity.
Qed.

Lemma stored_same l w w' c :
  drive w' = drive w -> stored c (l, w) -> stored c (l, w').
Proof.
  intros D (s & rows & Hs & Hr & Hx). exists s, rows. cbn [fst snd] in *.
  split; [exact Hs|]. split; [|exact Hx].
  unfold rows_at, lookup_spreadsheet in *. rewrite D. exact Hr.
Qed.

Lemma stored_locals l l' w c :
  spreadsheetId l' = spreadsheetId l -> stored c (l, w) -> stored c (l', w).
Proof.
  intros E (s & rows & Hs & Hr & Hx). exists s, rows. cbn [fst snd] in *.
  rewrite E. auto.
Qed.

Lemma rows_at_update w w' s row rows :
  drive w' = update_nth s (add_row row) (drive w) ->
  rows_at w s = Some rows -> rows_at w' s = Some (rows ++ [row]).
Proof.
  intros D. unfold rows_at, lookup_spreadsheet. rewrite D.
  rewrite nth_error_update_nth, Nat.eqb_refl.
  destruct (nth_error (drive w) s) as [g|]; [|discriminate]. cbn [option_map].
  change (is_spreadsheet (add_row row g)) with (is_spreadsheet g).
  destruct (is_spreadsheet g); [|discriminate].
  intros H. inversion H. reflexivity.
Qed.

Lemma rows_at_update_other w w' s k row rows :
  drive w' = update_nth k (add_row row) (drive w) ->
  rows_at w s = Some rows ->
  exists more, rows_at w' s = Some (rows ++ more).
Proof.
  intros D Hr. destruct (Nat.eqb s k) eqn:E.
  - apply Nat.eqb_eq in E. subst k. exists [row].
    apply (rows_at_update w w' s row rows D Hr).
  - exists []. rewrite app_nil_r. unfold rows_at, lookup_spreadsheet in *.
    rewrite D, nth_error_update_nth, E. exact Hr.
Qed.

Lemma triple_row_of c : triple (row_of c) = triple_of c.
Proof. reflexivity. Qed.

(** The steps after the extraction, with the identifier cached and
    valid. *)
Lemma record_and_mark_step id c l w s :
  spreadsheetId l = Some s -> resolved w s ->
  let r' := snd (record_and_mark id c (l, w)) in
  cache_valid r'
  /\ spreadsheetId (fst r') = Some s
  /\ (forall c0, stored c0 (l, w) -> stored c0 r')
  /\ (mailbox (snd r') = mailbox w
      \/ (mailbox (snd r') = map (mark_read id) (mailbox w) /\ stored c r')).
Proof.
  intros Hs R. cbv zeta.
  unfold record_and_mark, bind, get, lift, modify. cbn [fst snd]. rewrite Hs.
  pose proof (isDuplicateEntry_spec c (Some s) w) as G.
  pose proof (isDuplicateEntry_same_mailbox c (Some s) w) as M1.
  destruct (isDuplicateEntry c (Some s) w) as [[b|e] w1];
    cbv beta iota; cbn [fst snd] in *.
  2:{ split; [|split; [exact Hs|split]].
      - intros s0 E. cbn [fst snd] in *.
        apply (resolved_same_drive w); [exact G|]. congruence.
      - intros c0. apply stored_same. exact G.
      - left. exact M1. }
  destruct G as [D1 (s0 & rows & Es & Hr & Eb)]. inversion Es; subst s0.
  assert (R1 : resolved w1 s) by (apply (resolved_same_drive w); assumption).
  destruct b; cbv beta iota delta [fst snd incr_skippedCount].
  - cbn [spreadsheetId processedCount skippedCount].
    destruct (markEmailAsRead_spec id w1) as [D2 M2].
    destruct (markEmailAsRead id w1) as [[u|e] w2]; cbn [fst snd] in *.
    + split; [|split; [exact Hs|split]].
      * intros s0 E. cbn [fst snd spreadsheetId] in *.
        apply (resolved_same_drive w1); [exact D2|]. congruence.
      * intros c0 St. apply (stored_locals l); [reflexivity|].
        apply (stored_same l w); [congruence|exact St].
      * right. split; [congruence|]. exists s, rows. cbn [fst snd spreadsheetId].
        split; [exact Hs|]. split.
        -- unfold rows_at, lookup_spreadsheet in *. rewrite D2, D1. exact Hr.
        -- apply existsb_same_triple. auto.
    + split; [|split; [exact Hs|split]].
      * intros s0 E. cbn [fst snd spreadsheetId] in *.
        apply (resolved_same_drive w1); [exact D2|]. congruence.
      * intros c0 St. apply (stored_locals l); [reflexivity|].
        apply (stored_same l w); [congruence|exact St].
      * left. congruence.
  - pose proof (saveToGoogleSheets_spec c s w1 R1) as Sv.
    pose proof (saveToGoogleSheets_same_mailbox c w1) as M3.
    destruct (saveToGoogleSheets c w1) as [[s'|e] w2];
      cbv beta iota delta [fst snd assign_spreadsheetId incr_processedCount] in *.
    2:{ split; [|split; [exact Hs|split]].
        - intros s0 E. cbn [fst snd] in *.
          apply (resolved_same_drive w1); [exact Sv|]. congruence.
        - intros c0. apply stored_same. congruence.
        - left. unfold same_mailbox in *. congruence. }
    destruct Sv as [-> D3]. cbn [spreadsheetId processedCount skippedCount].
    assert (R2 : resolved w2 s).
    { destruct R1 as (fid & rest & rest' & E1 & E2). exists fid, rest, rest'.
      rewrite D3, !find_ids_update; auto. }
    assert (K : forall c0 w3, drive w3 = drive w2 -> stored c0 (l, w) ->
                  stored c0 ({| spreadsheetId := Some s;
                                processedCount := S (processedCount l);
                                skippedCount := skippedCount l |}, w3)).
    { intros c0 w3 D (s1 & rows1 & Hs1 & Hr1 & row & Hin & Ht).
      cbn [fst snd] in *. assert (s1 = s) by congruence. subst s1.
      assert (Hr1' : rows_at w1 s = Some rows1).
      { unfold rows_at, lookup_spreadsheet in *. rewrite D1. exact Hr1. }
      pose proof (rows_at_update w1 w2 s (row_of c) rows1 D3 Hr1') as U.
      exists s, (rows1 ++ [row_of c]). cbn [fst snd spreadsheetId].
      split; [reflexivity|]. split.
      - unfold rows_at, lookup_spreadsheet in *. rewrite D. exact U.
      - exists row. split; [apply in_or_app; auto|exact Ht]. }
    destruct (markEmailAsRead_spec id w2) as [D4 M4].
    destruct (markEmailAsRead id w2) as [[u|e] w3]; cbn [fst snd] in *.
    + split; [|split; [reflexivity|split]].
      * intros s0 E. cbn [fst snd spreadsheetId] in *.
        apply (resolved_same_drive w2); [exact D4|]. congruence.
      * intros c0. apply K. exact D4.
      * right. unfold same_mailbox in *. split; [congruence|].
        exists s, (rows ++ [row_of c]). cbn [fst snd spreadsheetId].
        split; [reflexivity|]. split.
        -- pose proof (rows_at_update w1 w2 s (row_of c) rows D3) as U.
           unfold rows_at, lookup_spreadsheet in *. rewrite D4. apply U.
           rewrite D1. exact Hr.
        -- exists (row_of c). split; [apply in_or_app; right; left; reflexivity|].
           apply triple_row_of.
    + split; [|split; [reflexivity|split]].
      * intros s0 E. cbn [fst snd spreadsheetId] in *.
        apply (resolved_same_drive w2); [exact D4|]. congruence.
      * intros c0. apply K. exact D4.
      * left. unfold same_mailbox in *. congruence.
Qed.

Lemma resolve_once_step l w :
  cache_valid (l, w) ->
  cache_valid (snd (resolve_once (l, w)))
  /\ mailbox (snd (snd (resolve_once (l, w)))) = mailbox w
  /\ (forall c0, stored c0 (l, w) -> stored c0 (snd (resolve_once (l, w))))
  /\ (forall u, fst (resolve_once (l, w)) = Ok u ->
        spreadsheetId (fst (snd (resolve_once (l, w)))) <> None).
Proof.
  intros V. unfold resolve_once, bind, get, lift, modify. cbn [fst snd].
  destruct (spreadsheetId l) as [s|] eqn:Hs.
  - cbn [ret fst snd]. rewrite Hs. repeat split; auto. discriminate.
  - cbv beta iota delta [fst snd].
    pose proof (createOrGetSpreadsheet_resolved w) as G.
    pose proof (createOrGetSpreadsheet_same_mailbox w) as Mb.
    destruct (createOrGetSpreadsheet w) as [[s|e] w1];
      cbv beta iota delta [fst snd assign_spreadsheetId] in *.
    + split; [|split; [exact Mb|split]].
      * intros s0 E. cbn [fst snd spreadsheetId] in *.
        inversion E; subst s0. apply (G s w1 eq_refl).
      * intros c0 (s0 & rows & Hs0 & _). cbn [fst] in Hs0. congruence.
      * intros _ _. cbn [spreadsheetId]. discriminate.
    + split; [|split; [exact Mb|split]].
      * intros s0 E. cbn [fst] in E. congruence.
      * intros c0 (s0 & rows & Hs0 & _). cbn [fst] in Hs0. congruence.
      * discriminate.
Qed.

(** One turn of the loop: the cache stays valid, what is stored stays
    stored, and the mailbox is as before unless this message was marked,
    in which case its record is stored. *)
Lemma process_message_step id l w :
  cache_valid (l, w) ->
  cache_valid (snd (process_message id (l, w)))
  /\ (forall c0, stored c0 (l, w) -> stored c0 (snd (process_message id (l, w))))
  /\ (mailbox (snd (snd (process_message id (l, w)))) = mailbox w
      \/ (mailbox (snd (snd (process_message id (l, w))))
          = map (mark_read id) (mailbox w)
          /\ exists c, signup_of w id = Some c
                       /\ stored c (snd (process_message id (l, w))))).
Proof.
  intros V. remember (snd (process_message id (l, w))) as r' eqn:E.
  unfold process_message, try_catch in E. unfold bind at 1 in E.
  unfold lift at 1 in E. cbv beta iota delta [fst snd] in E.
  pose proof (extractSignupInfo_same_drive id w) as D.
  pose proof (extractSignupInfo_same_mailbox id w) as Mb.
  destruct (extractSignupInfo id w) as [[c|e] w1] eqn:EX;
    cbv beta iota delta [fst snd] in *.
  2:{ cbn [ret snd fst] in E. subst r'. split; [|split].
      - intros s0 Es. apply (resolved_same_drive w); [exact D|]. apply V, Es.
      - intros c0. apply stored_same. exact D.
      - left. exact Mb. }
  apply extractSignupInfo_ok_inv in EX.
  assert (V1 : cache_valid (l, w1)).
  { intros s0 Es. apply (resolved_same_drive w); [exact D|]. apply V, Es. }
  unfold bind in E.
  destruct (resolve_once_step l w1 V1) as (V2 & M2 & S2 & N2).
  destruct (resolve_once (l, w1)) as [[u|e] [l2 w2]];
    cbv beta iota in E; cbn [fst snd] in *.
  2:{ cbn [ret snd fst] in E. subst r'. split; [exact V2|]. split.
      - intros c0 St. apply S2. apply (stored_same l w); assumption.
      - left. unfold same_mailbox in *. congruence. }
  destruct (spreadsheetId l2) as [s|] eqn:Hs; [|destruct (N2 u eq_refl eq_refl)].
  destruct (record_and_mark_step id c l2 w2 s Hs (V2 s Hs)) as (V3 & _ & S3 & M3).
  cbv zeta in *.
  assert (R3 : r' = snd (record_and_mark id c (l2, w2))).
  { destruct (record_and_mark id c (l2, w2)) as [[u'|e] r3]; exact E. }
  rewrite <- R3 in *. clear E R3. destruct r' as [l3 w3]. cbn [fst snd] in *.
  split; [exact V3|]. split.
  - intros c0 St. apply S3, S2. apply (stored_same l w); assumption.
  - unfold same_mailbox in *. destruct M3 as [C|[C1 C2]].
    + left. congruence.
    + right. split; [congruence|]. exists c. auto.
Qed.

Lemma find_message_only_marks id mb mb' :
  Forall2 same_but_unread mb mb' ->
  match find_message id mb, find_message id mb' with
  | Some m, Some m' => same_but_unread m m'
  | None, None => True
  | _, _ => False
  end.
Proof.
  unfold find_message. induction 1 as [|m m' mb mb' Hm H IH]; cbn [find]; [exact I|].
  destruct Hm as (E1 & E2 & E3 & E4 & E5). rewrite E1.
  destruct (String.eqb (msg_id m) id); [|exact IH].
  repeat split; assumption.
Qed.

Lemma signup_of_only_marks w0 w id :
  only_marks w0 w -> host_zone w = host_zone w0 ->
  signup_of w id = signup_of w0 id.
Proof.
  intros O H. unfold signup_of. rewrite H.
  pose proof (find_message_only_marks id _ _ O) as F.
  destruct (find_message id (mailbox w0)) as [m|],
           (find_message id (mailbox w)) as [m'|]; try contradiction; [|reflexivity].
  destruct F as (_ & _ & E3 & E4 & _). rewrite E4.
  destruct (decoded_body (payload m)); [|reflexivity].
  unfold record_of. rewrite E3. reflexivity.
Qed.

Lemma process_message_only_marks id :
  within (on_world only_marks) (process_message id).
Proof. within_steps. Qed.

Lemma Forall2_impl_on {A B} (P Q : A -> B -> Prop) l l' :
  (forall a b, P a b -> Q a b) -> Forall2 P l l' -> Forall2 Q l l'.
Proof. intros H F. induction F; constructor; auto. Qed.

Lemma Forall2_map_r {A B C} (P : A -> C -> Prop) (g : B -> C) l l' :
  Forall2 (fun a b => P a (g b)) l l' -> Forall2 P l (map g l').
Proof. intros F. induction F; constructor; auto. Qed.

Lemma Forall2_both {A B} (P Q : A -> B -> Prop) l l' :
  Forall2 P l l' -> Forall2 Q l l' -> Forall2 (fun a b => P a b /\ Q a b) l l'.
Proof.
  intros F. induction F; intros G; inversion G; subst; constructor; auto.
Qed.

Lemma process_message_delivery w0 id r :
  delivery_invariant w0 r -> delivery_invariant w0 (snd (process_message id r)).
Proof.
  destruct r as [l w]. intros (V & H & O & F). cbn [fst snd] in *.
  destruct (process_message_step id l w V) as (V' & S' & M').
  pose proof (process_message_same_outbox id (l, w)) as (_ & H' & _).
  pose proof (process_message_only_marks id (l, w)) as O'.
  unfold on_world in O'. cbn [snd] in *.
  destruct (snd (process_message id (l, w))) as [l' w'] eqn:E. cbn [fst snd] in *.
  unfold delivery_invariant. cbn [fst snd].
  split; [exact V'|]. split; [congruence|].
  split; [etransitivity; eassumption|].
  assert (F1 : Forall2 (marked_means_stored w0 (l', w')) (mailbox w0) (mailbox w)).
  { revert F. apply Forall2_impl_on. intros m m1 P U1 U2.
    destruct (P U1 U2) as (c & Hc & St). exists c. auto. }
  destruct M' as [M'|[M' (c & Hc & St)]]; rewrite M'; [exact F1|].
  apply Forall2_map_r.
  pose proof (Forall2_both _ _ _ _ O F1) as B. revert B.
  apply Forall2_impl_on. intros m m1 [(E1 & _) P] U1 U2.
  unfold mark_read in U2. destruct (String.eqb (msg_id m1) id) eqn:Q.
  - apply String.eqb_eq in Q. exists c. split; [|exact St].
    rewrite <- E1, Q, <- (signup_of_only_marks w0 w id O H). exact Hc.
  - apply P; assumption.
Qed.

Lemma loop_delivery w0 msgs : forall r,
  delivery_invariant w0 r ->
  delivery_invariant w0 (snd (for_of msgs process_message r)).
Proof.
  induction msgs as [|id msgs IH]; intros r J; [exact J|].
  cbn [for_of]. unfold bind.
  pose proof (process_message_delivery w0 id r J) as J1.
  destruct (process_message id r) as [[u|e] r1]; [apply IH|]; exact J1.
Qed.

Lemma nothing_marked w0 r mb :
  Forall2 (marked_means_stored w0 r) mb mb.
Proof.
  apply Forall2_refl_on. intros m U1 U2. congruence.
Qed.

(** X9.  No signup is lost by being marked as read: whichever calls fail,
    a message that was unread before the run and has lost its UNREAD
    label after it is one whose record was extracted, and the spreadsheet
    whose identifier [main] holds at the end has a row with that record's
    name, phone and email. *)
Theorem marked_only_when_stored w :
  Forall2
    (fun m m' =>
       msg_unread m = true -> msg_unread m' = false ->
       exists c, signup_of w (msg_id m) = Some c /\ stored c (run w))
    (mailbox w) (mailbox (snd (run w))).
Proof.
  change (Forall2 (marked_means_stored w (run w))
            (mailbox w) (mailbox (snd (run w)))).
  rewrite run_unfold.
  pose proof (queryEmails_only_calls w) as Q.
  destruct (queryEmails w) as [[msgs|e] w1]; cbn [snd] in Q;
    destruct Q as (_ & Qh & Qm & _).
  2:{ cbn [snd]. rewrite Qm. apply nothing_marked. }
  assert (J : delivery_invariant w (initial, w1)).
  { unfold delivery_invariant. cbn [fst snd]. split; [|split; [exact Qh|split]].
    - intros s E. discriminate E.
    - apply only_marks_same. exact Qm.
    - rewrite Qm. apply nothing_marked. }
  apply (loop_delivery w msgs) in J. cbv zeta.
  destruct (snd (for_of msgs process_message (initial, w1))) as [l w2].
  destruct J as (_ & _ & _ & F). cbn [fst snd] in *.
  destruct (Nat.ltb 0 (processedCount l)); cbn [snd]; [|exact F].
  rewrite (sendEmail_same_mailbox (spreadsheetId l) w2).
  revert F. apply Forall2_impl_on. intros m m' P U1 U2.
  destruct (P U1 U2) as (c & Hc & St). exists c. split; [exact Hc|].
  apply (stored_same l w2); [apply sendEmail_same_drive|exact St].
Qed.

Lemma marked_only_when_stored_witness :
  msg_unread Examples.padded_message = true
  /\ (exists m', mailbox (snd (run (Examples.new_signup_world Examples.never))) = [m']
                 /\ msg_unread m' = false)
  /\ exists c,
       signup_of (Examples.new_signup_world Examples.never)
         (msg_id Examples.padded_message) = Some c
       /\ stored c (run (Examples.new_signup_world Examples.never)).
Proof.
  assert (E : exists m',
             mailbox (snd (run (Examples.new_signup_world Examples.never))) = [m']
             /\ msg_unread m' = false)
    by (vm_compute; eexists; split; reflexivity).
  split; [reflexivity|]. split; [exact E|].
  destruct E as (m' & E1 & E2).
  pose proof (marked_only_when_stored (Examples.new_signup_world Examples.never)) as F.
  rewrite E1 in F.
  change (mailbox (Examples.new_signup_world Examples.never))
    with [Examples.padded_message] in F.
  inversion F as [|m0 m1 l0 l1 P _]; subst.
  apply P; [reflexivity|exact E2].
Defined.

End DeliveryFacts.

(** ** Every listed message is attempted *)

Module AttemptFacts.
Import Monad Monad.Notations World Pipeline Spec Frame StepFacts QueryFacts
  ResolveFacts RecordFacts LoopFacts CountFacts SafetyFacts ReportFacts
  DeliveryFacts.
Local Open Scope list_scope.

Lemma fetched_emits w w' :
  emits not_fetch w w' -> fetched (trace w') = fetched (trace w).
Proof.
  intros (_ & new & -> & H). induction new as [|e new IH]; [reflexivity|].
  cbn [forallb] in H. apply andb_prop in H as [He H].
  cbn [app fetched]. destruct e; try (apply IH; exact H).
  match goal with fmt : Format |- _ => destruct fmt end;
    [apply IH; exact H|discriminate He].
Qed.

Lemma queryEmails_no_fetch : within (emits not_fetch) queryEmails.
Proof. within_steps. Qed.

Lemma sendEmail_no_fetch sid : within (emits not_fetch) (sendEmail sid).
Proof. within_steps. Qed.

Lemma resolve_once_no_fetch : within (on_world (emits not_fetch)) resolve_once.
Proof. within_steps. Qed.

Lemma record_and_mark_no_fetch id c :
  within (on_world (emits not_fetch)) (record_and_mark id c).
Proof. within_steps. Qed.

Lemma after_extraction_no_fetch id c :
  within (on_world (emits not_fetch))
    (resolve_once ;; record_and_mark id c).
Proof.
  apply within_bind; [typeclasses eauto|apply resolve_once_no_fetch|].
  intros ?. apply record_and_mark_no_fetch.
Qed.

(** [extractSignupInfo] asks for the message once, in full, and makes no
    other call. *)
Lemma extractSignupInfo_trace id w :
  trace (snd (extractSignupInfo id w)) = GmailGet id full :: trace w.
Proof.
  unfold extractSignupInfo, messages_get, message_body, decode, bind, call,
    get, ret, throw.
  destruct (faults w _); world_simpl; try reflexivity;
    destruct (find_message id (mailbox w)) as [m|]; world_simpl; try reflexivity;
    destruct (parts (payload m)) as [[|p0 ps]|]; try reflexivity;
    [destruct (part_data p0)|destruct (body_data (payload m))]; reflexivity.
Qed.

(** One turn of the loop fetches its message, and no other. *)
Lemma process_message_fetches id r :
  fetched (trace (snd (snd (process_message id r))))
  = fetched (trace (snd r)) ++ [id].
Proof.
  destruct r as [l w]. cbn [snd].
  remember (snd (process_message id (l, w))) as r' eqn:E.
  unfold process_message, try_catch in E. unfold bind at 1 in E.
  unfold lift at 1 in E. cbv beta iota delta [fst snd] in E.
  pose proof (extractSignupInfo_trace id w) as T.
  destruct (extractSignupInfo id w) as [[c|e] w1]; cbn [snd] in T.
  2:{ cbn [ret snd] in E. subst r'. cbn [snd]. rewrite T. reflexivity. }
  assert (N : on_world (emits not_fetch) (l, w1) r').
  { pose proof (after_extraction_no_fetch id c (l, w1)) as B.
    destruct (bind resolve_once (fun _ => record_and_mark id c) (l, w1))
      as [[u|e] r3]; cbn [ret snd] in *; subst r'; exact B. }
  unfold on_world in N. cbn [snd] in N.
  rewrite (fetched_emits _ _ N), T. reflexivity.
Qed.

Lemma loop_fetches msgs : forall r,
  fetched (trace (snd (snd (for_of msgs process_message r))))
  = fetched (trace (snd r)) ++ msgs.
Proof.
  induction msgs as [|id msgs IH]; intros r.
  - cbn [for_of ret snd]. rewrite app_nil_r. reflexivity.
  - cbn [for_of]. unfold bind.
    pose proof (process_message_fetches id r) as P.
    pose proof (process_message_returns id r) as Rt.
    destruct (process_message id r) as [[u|e] r1]; [|discriminate].
    cbn [snd] in P. rewrite IH, P, <- app_assoc. reflexivity.
Qed.

(** X10.  A failure while one message is processed never stops the loop:
    whichever calls fail, once the scanner has returned, every message it
    listed is fetched in full exactly once, in listing order, and nothing
    else is; when the scanner throws, nothing is fetched in full. *)
Theorem every_listed_message_attempted w :
  fetched (trace (snd (run w)))
  = fetched (trace w)
    ++ match fst (queryEmails w) with
       | Ok _ => listing (selected_query w) w
       | Throw _ => []
       end.
Proof.
  rewrite run_unfold.
  pose proof (queryEmails_no_fetch w) as Q.
  destruct (queryEmails w) as [[msgs|e] w1] eqn:E; cbn [fst snd] in *.
  2:{ rewrite (fetched_emits _ _ Q), app_nil_r. reflexivity. }
  apply queryEmails_ok_inv in E. subst msgs. cbv zeta.
  pose proof (loop_fetches (listing (selected_query w) w) (initial, w1)) as L.
  cbn [snd] in L. rewrite (fetched_emits _ _ Q) in L.
  destruct (snd (for_of (listing (selected_query w) w) process_message (initial, w1)))
    as [l w2]. cbn [fst snd] in *.
  destruct (Nat.ltb 0 (processedCount l)); cbn [snd]; [|exact L].
  rewrite (fetched_emits _ _ (sendEmail_no_fetch (spreadsheetId l) w2)). exact L.
Qed.

End AttemptFacts.

(** ** The extracted fields are clean *)

Module FieldFacts.
Import Monad Monad.Notations World Pipeline Spec JsString Pattern PatternFacts
  ExtractFacts DeliveryFacts.
Local Open Scope string_scope.

Lemma trimEnd_idem s : trimEnd (trimEnd s) = trimEnd s.
Proof.
  induction s as [|c s IH]; [reflexivity|]. cbn [trimEnd]. cbv zeta.
  destruct (is_space c && String.eqb (trimEnd s) "") eqn:E; [reflexivity|].
  cbn [trimEnd]. cbv zeta. rewrite IH, E. reflexivity.
Qed.

Lemma trimStart_head s :
  trimStart s = ""
  \/ exists c r, trimStart s = String c r /\ is_space c = false.
Proof.
  induction s as [|c s IH]; [left; reflexivity|]. cbn [trimStart].
  destruct (is_space c) eqn:E; [exact IH|]. right. eauto.
Qed.

Lemma trimEnd_head c r :
  is_space c = false -> trimEnd (String c r) = String c (trimEnd r).
Proof. intros E. cbn [trimEnd]. cbv zeta. rewrite E. reflexivity. Qed.

(** [trim] is idempotent. *)
Lemma trim_idem s : trim (trim s) = trim s.
Proof.
  unfold trim. destruct (trimStart_head s) as [->|(c & r & -> & E)];
    [reflexivity|].
  rewrite (trimEnd_head c r E). cbn [trimStart]. rewrite E.
  rewrite <- (trimEnd_head c r E). apply trimEnd_idem.
Qed.

Lemma trimStart_no_lt s : no_lt s = true -> no_lt (trimStart s) = true.
Proof.
  induction s as [|c s IH]; [auto|]. cbn [trimStart no_lt]. intros H.
  destruct (is_space c); [|exact H].
  apply andb_prop in H as [_ H]. auto.
Qed.

Lemma trimEnd_no_lt s : no_lt s = true -> no_lt (trimEnd s) = true.
Proof.
  induction s as [|c s IH]; [auto|]. cbn [trimEnd no_lt]. cbv zeta. intros H.
  apply andb_prop in H as [H1 H2].
  destruct (is_space c && String.eqb (trimEnd s) ""); [reflexivity|].
  cbn [no_lt]. rewrite H1. cbn [andb]. auto.
Qed.

Lemma trim_no_lt s : no_lt s = true -> no_lt (trim s) = true.
Proof. intros H. apply trimEnd_no_lt, trimStart_no_lt, H. Qed.

(** What [trim] removes is white space at the two ends. *)
Lemma trimStart_split s :
  exists a, s = a ++ trimStart s /\ all_space a = true.
Proof.
  induction s as [|c s (a & E & H)]; [exists ""; auto|]. cbn [trimStart].
  destruct (is_space c) eqn:Hc.
  - exists (String c a). cbn [append all_space]. rewrite Hc, H, <- E. auto.
  - exists "". auto.
Qed.

Lemma trimEnd_split s :
  exists b, s = trimEnd s ++ b /\ all_space b = true.
Proof.
  induction s as [|c s (b & E & H)]; [exists ""; auto|]. cbn [trimEnd]. cbv zeta.
  destruct (is_space c) eqn:Hc; cbn [andb].
  - destruct (String.eqb (trimEnd s) "") eqn:Q.
    + apply String.eqb_eq in Q. rewrite Q in E. cbn [append] in E.
      exists (String c b). cbn [append all_space]. rewrite Hc, H, <- E. auto.
    + exists b. cbn [append]. rewrite <- E. auto.
  - exists b. cbn [append]. rewrite <- E. auto.
Qed.

Lemma append_assoc (a b c : string) : (a ++ b) ++ c = a ++ (b ++ c).
Proof. induction a as [|x a IH]; cbn [append]; [reflexivity|]. rewrite IH. reflexivity. Qed.

Lemma trim_split s :
  exists a b, s = a ++ trim s ++ b /\ all_space a = true /\ all_space b = true.
Proof.
  destruct (trimStart_split s) as (a & Ea & Ha).
  destruct (trimEnd_split (trimStart s)) as (b & Eb & Hb).
  exists a, b. unfold trim. rewrite <- Eb. auto.
Qed.

Lemma regex_match_inside label body v :
  regex_match label body = Some v ->
  no_lt v = true /\ exists pre post, body = pre ++ v ++ post.
Proof.
  intros H. apply regex_match_first_row in H as (n & R & _).
  destruct R as (pre & lab & ws & op & cl & post & E & _ & _ & _ & _ & N & _).
  split; [exact N|]. exists (pre ++ lab ++ ws ++ op), (cl ++ post).
  rewrite E, !append_assoc. reflexivity.
Qed.

(** The field the code returns for a key: clean, and taken from the body
    unless it is the sentinel. *)
Lemma field_clean k body :
  no_lt (field k body) = true
  /\ trim (field k body) = field k body
  /\ (field k body = "Not provided"
      \/ exists pre post, body = pre ++ field k body ++ post).
Proof.
  unfold field. rewrite or_else_if. unfold extract_key.
  destruct (regex_match (patterns k) body) as [v|] eqn:E.
  2:{ cbn [String.eqb]. repeat split; auto. }
  destruct (String.eqb (trim v) "") eqn:Q; [repeat split; auto|].
  apply regex_match_inside in E as [N (pre & post & E)].
  split; [apply trim_no_lt, N|]. split; [apply trim_idem|]. right.
  destruct (trim_split v) as (a & b & Ev & _).
  exists (pre ++ a), (b ++ post). rewrite E. rewrite Ev at 1.
  rewrite !append_assoc. reflexivity.
Qed.

(** X11.  A record that [extractSignupInfo] returns has clean fields: the
    name, the phone and the email each hold no [<], carry no white space
    at either end, and are either the sentinel "Not provided" or a piece
    of the decoded body of the message. *)
Theorem extracted_fields_clean id w c w1 :
  extractSignupInfo id w = (Ok c, w1) ->
  exists m body,
    find_message id (mailbox w) = Some m
    /\ decoded_body (payload m) = Some body
    /\ forall k,
         no_lt (field_of k c) = true
         /\ trim (field_of k c) = field_of k c
         /\ (field_of k c = "Not provided"
             \/ exists pre post, body = pre ++ field_of k c ++ post).
Proof.
  intros H. apply extractSignupInfo_ok_inv in H. unfold signup_of in H.
  destruct (find_message id (mailbox w)) as [m|] eqn:Hm; [|discriminate].
  destruct (decoded_body (payload m)) as [body|] eqn:Hb; [|discriminate].
  inversion H; subst c. exists m, body. split; [reflexivity|].
  split; [exact Hb|]. intros k. rewrite field_of_record. apply field_clean.
Qed.

Lemma extracted_fields_clean_witness :
  exists c w1,
    extractSignupInfo "m1" Examples.padded_world = (Ok c, w1)
    /\ name c = "Ann Lee"
    /\ exists m body,
         find_message "m1" (mailbox Examples.padded_world) = Some m
         /\ decoded_body (payload m) = Some body
         /\ forall k,
              no_lt (field_of k c) = true
              /\ trim (field_of k c) = field_of k c
              /\ (field_of k c = "Not provided"
                  \/ exists pre post, body = pre ++ field_of k c ++ post).
Proof.
  exists (record_of Examples.utc_host Examples.padded_message Examples.padded_body),
         (snd (extractSignupInfo "m1" Examples.padded_world)).
  split; [vm_compute; reflexivity|]. split; [vm_compute; reflexivity|].
  apply (extracted_fields_clean "m1" Examples.padded_world
           (record_of Examples.utc_host Examples.padded_message Examples.padded_body)
           (snd (extractSignupInfo "m1" Examples.padded_world))).
  vm_compute; reflexivity.
Defined.

End FieldFacts.

(** ** When the scanner returns *)

Module ScanFacts.
Import Monad Monad.Notations World Pipeline Spec Frame StepFacts QueryFacts
  ResolveFacts RecordFacts LoopFacts CountFacts SafetyFacts.
Local Open Scope list_scope.

Lemma calls_ok_step n w e :
  calls_ok (S n) w ->
  next_call_ok w /\ calls_ok n (set_trace (e :: trace w) w).
Proof.
  intros H. split.
  - unfold next_call_ok. rewrite <- (Nat.add_0_r (List.length (trace w))).
    apply H. lia.
  - intros k Hk. cbn [faults trace set_trace List.length].
    replace (S (List.length (trace w)) + k) with (List.length (trace w) + S k)
      by lia.
    apply H. lia.
Qed.

Lemma calls_ok_cons n w e :
  next_call_ok w -> calls_ok n (set_trace (e :: trace w) w) ->
  calls_ok (S n) w.
Proof.
  intros H0 H [|k] Hk.
  - rewrite Nat.add_0_r. exact H0.
  - specialize (H k ltac:(lia)). cbn [faults trace set_trace List.length] in H.
    replace (List.length (trace w) + S k) with (S (List.length (trace w)) + k)
      by lia.
    exact H.
Qed.

Lemma metadata_loop_bounded ids : forall w,
  calls_ok (List.length ids) w ->
  (forall id, In id ids -> In id (map msg_id (mailbox w))) ->
  for_of ids (fun id => _ <- messages_get id metadata ;; ret tt) w
  = (Ok tt,
     set_trace (rev (map (fun id => GmailGet id metadata) ids) ++ trace w) w).
Proof.
  induction ids as [|id ids IH]; intros w Hf Hin.
  - destruct w; reflexivity.
  - cbn [List.length] in Hf.
    destruct (calls_ok_step _ _ (GmailGet id metadata) Hf) as [H0 H1].
    cbn [for_of]. unfold bind at 1. unfold bind at 1.
    unfold messages_get, bind at 1.
    rewrite (call_ok _ _ H0).
    unfold bind, get. cbn [mailbox set_trace].
    destruct (find_message_in id (mailbox w)) as [m Hm];
      [apply Hin; left; reflexivity|].
    rewrite Hm. cbn [ret].
    rewrite IH.
    + cbn [map rev trace set_trace]. rewrite <- app_assoc. reflexivity.
    + exact H1.
    + intros id' H. apply Hin. right. exact H.
Qed.

Lemma metadata_loop_inv ids : forall w u w',
  for_of ids (fun id => _ <- messages_get id metadata ;; ret tt) w = (Ok u, w') ->
  calls_ok (List.length ids) w.
Proof.
  induction ids as [|id ids IH]; intros w u w' H.
  - intros k Hk. inversion Hk.
  - cbn [for_of] in H. apply bind_ok in H as (u1 & w1 & H1 & H2).
    apply bind_ok in H1 as (m & w2 & Hg & Hr). inversion Hr; subst w2.
    unfold messages_get in Hg. apply bind_ok in Hg as (u0 & w3 & Hc & Hg).
    apply call_ok_inv in Hc as [Hn ->].
    unfold bind, get in Hg. cbv beta iota in Hg. cbn [mailbox set_trace] in Hg.
    destruct (find_message id (mailbox w)); inversion Hg; subst w1.
    cbn [List.length]. apply (calls_ok_cons _ _ (GmailGet id metadata) Hn).
    apply (IH _ _ _ H2).
Qed.

Lemma messages_list_inv q n w l w' :
  messages_list q n w = (Ok l, w') ->
  next_call_ok w /\ w' = set_trace (GmailList q n :: trace w) w
  /\ l = firstn n (all_matching q w).
Proof.
  unfold messages_list. intros H.
  apply bind_ok in H as (u & w1 & Hc & H). apply call_ok_inv in Hc as [Hn ->].
  inversion H; subst. auto.
Qed.

Lemma queryEmails_bounded w :
  calls_ok (scan_calls w) w ->
  exists w1, queryEmails w = (Ok (listing (selected_query w) w), w1).
Proof.
  unfold scan_calls. intros Hf.
  unfold queryEmails, try_catch, bind at 1, get.
  unfold bind at 1. unfold selected_query in *.
  assert (Hl : forall q t, listing q (set_trace t w) = listing q w) by reflexivity.
  destruct (listing primary_query w) as [|id ids] eqn:E.
  - cbn [plus] in Hf.
    destruct (calls_ok_step _ _ (GmailList primary_query 100) Hf) as [H0 H1].
    destruct (calls_ok_step _ _ (GmailList fallback_query 100) H1) as [H2 H3].
    rewrite (messages_list_ok _ _ H0), E.
    cbn [List.length Nat.eqb]. unfold bind at 1.
    rewrite (messages_list_ok _ _ H2), Hl.
    cbn [trace set_trace].
    destruct (listing fallback_query w) as [|id ids] eqn:E2.
    + eexists. destruct w; reflexivity.
    + unfold bind at 1. cbn [List.length Nat.ltb Nat.leb].
      rewrite metadata_loop_bounded.
      * eexists. reflexivity.
      * exact H3.
      * intros id' H. apply (listing_in fallback_query w). rewrite E2. exact H.
  - cbn [plus] in Hf.
    destruct (calls_ok_step _ _ (GmailList primary_query 100) Hf) as [H0 H1].
    rewrite (messages_list_ok _ _ H0), E.
    cbn [List.length Nat.eqb]. unfold bind at 1. cbn [ret].
    unfold bind at 1. cbn [List.length Nat.ltb Nat.leb].
    rewrite metadata_loop_bounded.
    + eexists. reflexivity.
    + cbv iota in H1. rewrite E in H1. exact H1.
    + intros id' H. apply (listing_in primary_query w). rewrite E. exact H.
Qed.

Lemma metadata_branch_inv msgs w u w' :
  (if Nat.ltb 0 (List.length msgs)
   then for_of msgs (fun id => _ <- messages_get id metadata ;; ret tt)
   else ret tt) w = (Ok u, w') ->
  calls_ok (List.length msgs) w.
Proof.
  destruct msgs as [|id ids].
  - intros _ k Hk. inversion Hk.
  - cbn [List.length Nat.ltb Nat.leb]. apply metadata_loop_inv.
Qed.

Lemma queryEmails_inv w r w1 :
  queryEmails w = (Ok r, w1) -> calls_ok (scan_calls w) w.
Proof.
  unfold queryEmails. rewrite try_catch_rethrow. intros H.
  apply bind_ok in H as (w0 & s0 & Hg & H). inversion Hg; subst w0 s0.
  cbv zeta in H.
  apply bind_ok in H as (msgs & wa & Hl & H).
  apply messages_list_inv in Hl as (H0 & -> & ->).
  apply bind_ok in H as (msgs2 & wb & H2 & H).
  apply bind_ok in H as (u & wc & Hloop & H). inversion H; subst r w1.
  apply metadata_branch_inv in Hloop.
  unfold scan_calls, selected_query, listing in *.
  destruct (firstn 100 (all_matching primary_query w)) as [|id ids] eqn:E.
  - cbn [List.length Nat.eqb] in H2.
    apply messages_list_inv in H2 as (H1 & -> & ->).
    cbn [plus]. apply (calls_ok_cons _ _ (GmailList primary_query 100) H0).
    apply (calls_ok_cons _ _ (GmailList fallback_query 100) H1).
    exact Hloop.
  - cbn [List.length Nat.eqb] in H2. inversion H2; subst msgs2 wb.
    cbv iota. rewrite E.
    cbn [plus]. apply (calls_ok_cons _ _ (GmailList primary_query 100) H0).
    exact Hloop.
Qed.

(** X12.  The scanner returns exactly when none of its calls fails: the one
    or two listings and one metadata request per message listed, which
    serves the log only.  When one of them fails the run ends at once: no
    message is processed, nothing is counted, and the mailbox, the Drive
    and the mails sent are as before. *)
Theorem scan_returns_iff_no_call_fails w :
  ((exists r w1, queryEmails w = (Ok r, w1)) <-> calls_ok (scan_calls w) w)
  /\ (~ calls_ok (scan_calls w) w ->
      fst (run w) = initial /\ only_calls w (snd (run w))).
Proof.
  split; [split|].
  - intros (r & w1 & H). apply (queryEmails_inv w r w1 H).
  - intros H. destruct (queryEmails_bounded w H) as [w1 Hq]. eauto.
  - intros N. rewrite run_unfold.
    pose proof (queryEmails_only_calls w) as Q.
    destruct (queryEmails w) as [[msgs|e] w1] eqn:E; cbn [snd] in Q.
    + destruct N. apply (queryEmails_inv w msgs w1 E).
    + auto.
Qed.

Lemma scan_returns_iff_no_call_fails_witness :
  ~ calls_ok (scan_calls (Examples.new_signup_world (Examples.failing_at 1)))
      (Examples.new_signup_world (Examples.failing_at 1))
  /\ fst (run (Examples.new_signup_world (Examples.failing_at 1))) = initial
  /\ only_calls (Examples.new_signup_world (Examples.failing_at 1))
       (snd (run (Examples.new_signup_world (Examples.failing_at 1)))).
Proof.
  assert (N : ~ calls_ok
                  (scan_calls (Examples.new_signup_world (Examples.failing_at 1)))
                  (Examples.new_signup_world (Examples.failing_at 1))).
  { intros H.
    assert (L : 1 < scan_calls (Examples.new_signup_world (Examples.failing_at 1)))
      by (vm_compute; lia).
    specialize (H 1 L). vm_compute in H. discriminate H. }
  split; [exact N|].
  apply (scan_returns_iff_no_call_fails
           (Examples.new_signup_world (Examples.failing_at 1))).
  exact N.
Defined.

End ScanFacts.

(** ** When no call fails, every listed message is settled *)

Module ProgressFacts.
Import Monad Monad.Notations World Pipeline Spec Frame StepFacts QueryFacts
  ExtractFacts ResolveFacts RecordFacts LoopFacts CountFacts SafetyFacts
  ReportFacts DeliveryFacts.
Local Open Scope list_scope.

(** A message without a record is passed over: whichever calls fail, the
    turn of the loop makes the one request and changes nothing else. *)
Lemma process_message_skip id l w :
  signup_of w id = None ->
  snd (process_message id (l, w))
  = (l, set_trace (GmailGet id full :: trace w) w).
Proof.
  intros N. unfold process_message, try_catch. unfold bind at 1.
  unfold lift at 1. cbv beta iota delta [fst snd].
  assert (X : exists e, extractSignupInfo id w
                        = (Throw e, set_trace (GmailGet id full :: trace w) w)).
  { unfold signup_of in N.
    unfold extractSignupInfo, messages_get, message_body, decode, bind, call,
      get, ret, throw.
    destruct (faults w _); world_simpl; try (eexists; reflexivity);
      destruct (find_message id (mailbox w)) as [m|]; world_simpl;
      try (eexists; reflexivity);
      unfold decoded_body in N;
      destruct (parts (payload m)) as [[|p0 ps]|]; try (eexists; reflexivity);
      [destruct (part_data p0)|destruct (body_data (payload m))];
      try discriminate N; eexists; reflexivity. }
  destruct X as [e ->]. reflexivity.
Qed.

Lemma resolve_once_counts l w :
  processedCount (fst (snd (resolve_once (l, w)))) = processedCount l
  /\ skippedCount (fst (snd (resolve_once (l, w)))) = skippedCount l.
Proof.
  unfold resolve_once, bind, get, lift, modify. cbn [fst snd].
  destruct (spreadsheetId l); [split; reflexivity|].
  cbv beta iota delta [fst snd].
  destruct (createOrGetSpreadsheet w) as [[s|e] w1]; split; reflexivity.
Qed.

(** With the identifier cached and valid and no failing call, the record
    is settled and the message marked. *)
Lemma record_and_mark_returns id c l w s m :
  no_faults w -> spreadsheetId l = Some s -> resolved w s ->
  find_message id (mailbox w) = Some m ->
  exists l' w',
    record_and_mark id c (l, w) = (Ok tt, (l', w'))
    /\ mailbox w' = map (mark_read id) (mailbox w)
    /\ settled l' = S (settled l)
    /\ stored c (l', w').
Proof.
  intros Hf Hsid R Hm.
  destruct (resolved_lookup _ _ R) as [f L].
  unfold record_and_mark. unfold bind at 1, get. cbn [fst]. rewrite Hsid.
  rewrite (bind_eq_ok _ _ _ _ _
             (lift_eq _ l _ _ _ (isDuplicateEntry_ok c _ _ _ (Hf _) L))).
  set (w1 := set_trace (SheetsValuesGet (Some s) :: trace w) w).
  destruct (existsb (same_triple c) (file_rows f)) eqn:D.
  - unfold bind at 1, modify, incr_skippedCount. cbv beta iota. cbn [fst snd].
    rewrite (lift_eq _ _ _ _ _ (markEmailAsRead_ok id m w1 (Hf _) Hm)).
    eexists _, _. split; [reflexivity|]. split; [reflexivity|].
    split; [unfold settled; cbn [processedCount skippedCount]; lia|].
    exists s, (file_rows f). cbn [fst snd spreadsheetId].
    split; [exact Hsid|]. split.
    + unfold rows_at.
      change (lookup_spreadsheet s _) with (lookup_spreadsheet s w).
      rewrite L. reflexivity.
    + apply existsb_same_triple. exact D.
  - assert (Hf1 : no_faults w1) by (intros n; apply Hf).
    destruct (saveToGoogleSheets_ok c s f w1 Hf1 R L) as [fid Hs].
    unfold bind at 1. rewrite (bind_eq_ok _ _ _ _ _ (lift_eq _ l _ _ _ Hs)).
    unfold bind, modify.
    unfold incr_processedCount, assign_spreadsheetId.
    cbv beta iota. cbn [fst snd].
    set (w2 := set_drive _ _).
    rewrite (lift_eq _ _ _ _ _ (markEmailAsRead_ok id m w2 (Hf _) Hm)).
    eexists _, _. split; [reflexivity|]. split; [reflexivity|].
    split; [unfold settled; cbn [processedCount skippedCount]; lia|].
    exists s, (file_rows f ++ [row_of c]). cbn [fst snd spreadsheetId].
    split; [reflexivity|]. split.
    + apply (rows_at_update w w2 s (row_of c) (file_rows f)); [reflexivity|].
      unfold rows_at. rewrite L. reflexivity.
    + exists (row_of c). split; [apply in_or_app; right; left; reflexivity|].
      apply triple_row_of.
Qed.

Lemma signup_of_inv w id c :
  signup_of w id = Some c ->
  exists m body,
    find_message id (mailbox w) = Some m
    /\ decoded_body (payload m) = Some body
    /\ c = record_of (host_zone w) m body.
Proof.
  unfold signup_of.
  destruct (find_message id (mailbox w)) as [m|]; [|discriminate].
  destruct (decoded_body (payload m)) as [body|] eqn:Hb; [|discriminate].
  intros H. inversion H. eauto.
Qed.

(** One turn of the loop for a message that has a record, when no call
    fails. *)
Lemma process_message_settles r0 id l w c :
  counting_invariant r0 (l, w) -> signup_of w id = Some c ->
  mailbox (snd (snd (process_message id (l, w)))) = map (mark_read id) (mailbox w)
  /\ settled (fst (snd (process_message id (l, w)))) = S (settled l)
  /\ stored c (snd (process_message id (l, w))).
Proof.
  intros J Hc. pose proof J as (F & _). cbn [fst snd] in F.
  destruct (signup_of_inv w id c Hc) as (m & body & Hm & Hb & ->).
  remember (snd (process_message id (l, w))) as r' eqn:E.
  unfold process_message, try_catch in E. unfold bind at 1 in E.
  unfold lift at 1 in E. cbv beta iota delta [fst snd] in E.
  rewrite (extractSignupInfo_ok w id m body (F _) Hm Hb) in E.
  cbv beta iota delta [fst snd] in E.
  set (w1 := set_trace (GmailGet id full :: trace w) w) in *.
  assert (J1 : counting_invariant r0 (l, w1)).
  { destruct J as (F0 & R0 & C0 & P0). cbn [fst snd] in *.
    split; [|split; [|split]]; cbn [fst snd].
    - intros n. apply F0.
    - exact R0.
    - exact C0.
    - exact P0. }
  pose proof (resolve_once_counts l w1) as [K1 K2].
  assert (V1 : cache_valid (l, w1)) by (destruct J1 as (_ & R1 & _); exact R1).
  destruct (resolve_once_step l w1 V1) as (_ & M2 & _).
  destruct (resolve_once_counting r0 l w1 J1) as (l2 & w2 & Hr & J2 & N).
  rewrite Hr in K1, K2, M2. cbn [fst snd] in K1, K2, M2.
  unfold bind in E. rewrite Hr in E.
  destruct J2 as (F2 & R2 & _). cbn [fst snd] in *.
  destruct (spreadsheetId l2) as [s|] eqn:Hs; [|congruence].
  assert (Hm2 : find_message id (mailbox w2) = Some m) by (rewrite M2; exact Hm).
  destruct (record_and_mark_returns id (record_of (host_zone w) m body)
              l2 w2 s m F2 Hs (R2 s eq_refl) Hm2)
    as (l3 & w3 & Hrm & M3 & S3 & St).
  rewrite Hrm in E. cbn [fst snd] in E. subst r'. cbn [fst snd].
  split; [rewrite M3, M2; reflexivity|]. split; [|exact St].
  rewrite S3. unfold settled. rewrite K1, K2. reflexivity.
Qed.

Lemma Forall2_in_r {A B} (R : A -> B -> Prop) l l' b :
  Forall2 R l l' -> In b l' -> exists a, In a l /\ R a b.
Proof.
  intros F. induction F as [|x y l l' Hxy F IH]; intros H; [destruct H|].
  destruct H as [<-|H].
  - exists x. split; [left; reflexivity|exact Hxy].
  - destruct (IH H) as (a & Ha & Hr). exists a. split; [right; exact Ha|exact Hr].
Qed.

(** A message that has been marked stays marked. *)
Lemma is_read_only_marks id w w' :
  only_marks w w' -> is_read id w -> is_read id w'.
Proof.
  intros O H m' Hin Hid.
  destruct (Forall2_in_r _ _ _ _ O Hin) as (m & Hm & E1 & _ & _ & _ & E5).
  destruct (msg_unread m') eqn:U; [|reflexivity].
  rewrite <- (H m Hm); [|congruence]. symmetry. apply E5. reflexivity.
Qed.

Lemma loop_only_marks msgs :
  within (on_world only_marks) (for_of msgs process_message).
Proof.
  apply within_for_of; [typeclasses eauto|]. apply process_message_only_marks.
Qed.

Lemma loop_same_outbox msgs :
  within (on_world same_outbox) (for_of msgs process_message).
Proof.
  apply within_for_of; [typeclasses eauto|]. apply process_message_same_outbox.
Qed.

(** What is stored stays stored to the end of the loop. *)
Lemma loop_stored c0 msgs : forall r,
  cache_valid r -> stored c0 r ->
  stored c0 (snd (for_of msgs process_message r)).
Proof.
  induction msgs as [|id msgs IH]; intros r V St; [exact St|].
  cbn [for_of]. unfold bind.
  pose proof (process_message_returns id r) as Rt.
  destruct r as [l w]. destruct (process_message_step id l w V) as (V1 & S1 & _).
  destruct (process_message id (l, w)) as [[u|e] r1]; [|discriminate].
  cbn [snd] in *. apply IH; [exact V1|apply S1, St].
Qed.

Lemma loop_settles w0 r0 msgs : forall r,
  counting_invariant r0 r ->
  only_marks w0 (snd r) -> host_zone (snd r) = host_zone w0 ->
  settled (fst (snd (for_of msgs process_message r)))
  = settled (fst r) + List.length (filter (decodes w0) msgs)
  /\ forall id c,
       In id msgs -> signup_of w0 id = Some c ->
       is_read id (snd (snd (for_of msgs process_message r)))
       /\ stored c (snd (for_of msgs process_message r)).
Proof.
  induction msgs as [|id msgs IH]; intros r J O H.
  - cbn [for_of ret snd fst filter List.length]. split; [lia|].
    intros id c [].
  - pose proof (process_message_counting r0 id r J) as J1.
    pose proof (process_message_only_marks id r) as O1.
    pose proof (process_message_same_outbox id r) as (_ & H1 & _).
    pose proof (process_message_returns id r) as Rt.
    assert (Eq : signup_of (snd r) id = signup_of w0 id)
      by (apply signup_of_only_marks; assumption).
    assert (Step : settled (fst (snd (process_message id r)))
                   = settled (fst r)
                     + (if decodes w0 id then 1 else 0)
                   /\ forall c, signup_of w0 id = Some c ->
                        is_read id (snd (snd (process_message id r)))
                        /\ stored c (snd (process_message id r))).
    { destruct r as [l w]. cbn [fst snd] in *. unfold decodes.
      destruct (signup_of w0 id) as [c|] eqn:Hc.
      - destruct (process_message_settles r0 id l w c J Eq) as (M & S & St).
        split; [rewrite S; lia|]. intros c' E. inversion E; subst c'.
        split; [|exact St]. apply (is_read_marked id (mailbox w)). exact M.
      - rewrite (process_message_skip id l w Eq). cbn [fst].
        split; [lia|]. discriminate. }
    destruct Step as [S1 D1].
    cbn [for_of]. unfold bind.
    destruct (process_message id r) as [[u|e] r1]; [|discriminate].
    cbn [snd] in *. unfold on_world in O1.
    assert (O2 : only_marks w0 (snd r1)) by (etransitivity; eassumption).
    assert (H2 : host_zone (snd r1) = host_zone w0) by congruence.
    destruct (IH r1 J1 O2 H2) as [S2 D2]. split.
    + rewrite S2, S1. cbn [filter]. destruct (decodes w0 id); cbn [List.length]; lia.
    + intros id' c [<-|Hin] Hc; [|apply (D2 id' c Hin Hc)].
      destruct (D1 c Hc) as [Rd St]. split.
      * apply (is_read_only_marks id (snd r1)); [|exact Rd].
        apply (loop_only_marks msgs r1).
      * apply loop_stored; [|exact St].
        destruct J1 as (_ & V & _). exact V.
Qed.

(** X13.  When no call fails, every listed message is settled: the
    records accepted and the duplicates skipped add up to the listed
    messages whose body decodes, each of these is marked as read, and the
    spreadsheet whose identifier [main] holds at the end has a row with
    its name, phone and email.  A listed message whose body does not
    decode is settled by nothing. *)
Theorem every_listed_message_settled w :
  no_faults w ->
  settled (fst (run w))
  = List.length (filter (decodes w) (listing (selected_query w) w))
  /\ forall id c,
       In id (listing (selected_query w) w) -> signup_of w id = Some c ->
       is_read id (snd (run w)) /\ stored c (run w).
Proof.
  intros F. rewrite run_unfold.
  pose proof (queryEmails_only_calls w) as Q.
  pose proof (queryEmails_emits w) as E1.
  pose proof (queryEmails_no_resolution w) as N1.
  rewrite (queryEmails_ok w F) in *. cbn [snd] in Q, E1, N1.
  set (w1 := set_trace _ w) in *. cbv zeta.
  assert (J : counting_invariant (resolutions (trace w)) (initial, w1)).
  { split; [|split; [|split]]; unfold guard_resolutions, initial;
      cbn [fst snd spreadsheetId processedCount].
    - apply (emits_no_faults _ _ _ E1 F).
    - discriminate.
    - rewrite (emits_resolutions _ _ N1). lia.
    - lia. }
  destruct Q as (_ & Qh & Qm & _).
  destruct (loop_settles w (resolutions (trace w)) (listing (selected_query w) w)
              (initial, w1) J (only_marks_same w w1 Qm) Qh) as [S D].
  destruct (snd (for_of (listing (selected_query w) w) process_message (initial, w1)))
    as [l w2]. cbn [fst snd] in *.
  destruct (Nat.ltb 0 (processedCount l)); cbn [fst snd]; [|split; [exact S|exact D]].
  split; [exact S|]. intros id c Hin Hc. destruct (D id c Hin Hc) as [Rd St].
  split.
  - intros m Hm. apply Rd.
    rewrite <- (sendEmail_same_mailbox (spreadsheetId l) w2). exact Hm.
  - apply (stored_same l w2); [apply sendEmail_same_drive|exact St].
Qed.

Lemma every_listed_message_settled_witness :
  no_faults Examples.stored_twin_world
  /\ settled (fst (run Examples.stored_twin_world)) = 3
  /\ forall id c,
       In id (listing (selected_query Examples.stored_twin_world)
                Examples.stored_twin_world) ->
       signup_of Examples.stored_twin_world id = Some c ->
       is_read id (snd (run Examples.stored_twin_world))
       /\ stored c (run Examples.stored_twin_world).
Proof.
  assert (Hf : no_faults Examples.stored_twin_world) by (intros n; reflexivity).
  split; [exact Hf|].
  destruct (every_listed_message_settled Examples.stored_twin_world Hf) as [S D].
  split; [|exact D]. rewrite S. vm_compute. reflexivity.
Defined.

End ProgressFacts.

(** ** The accepted records and the rows of the store *)

Module AccountFacts.
Import Monad Monad.Notations World Pipeline Spec Frame StepFacts QueryFacts
  ExtractFacts ResolveFacts RecordFacts LoopFacts CountFacts SafetyFacts
  ReportFacts DeliveryFacts.
Local Open Scope list_scope.

#[global] Instance no_row_written_preorder : PreOrder no_row_written.
Proof.
  split; unfold no_row_written.
  - intros w. split; [lia|]. intros i f H. left. eauto.
  - intros a b c [L1 H1] [L2 H2]. split; [lia|]. intros i f'' H.
    destruct (H2 i f'' H) as [(f' & Hf' & E' & M')|[N P]].
    + destruct (H1 i f' Hf') as [(f & Hf & E & M)|[N P]].
      * left. exists f. repeat split; congruence.
      * right. split; [exact N|]. rewrite E', M'. exact P.
    + right. split; [|exact P].
      apply nth_error_None. apply nth_error_None in N. lia.
Qed.

Lemma no_row_written_same w w' : drive w' = drive w -> no_row_written w w'.
Proof.
  intros E. unfold no_row_written. rewrite E. split; [lia|].
  intros i f H. left. eauto.
Qed.

Lemma no_row_written_create w f :
  file_mime f = folder \/ file_rows f = [header] ->
  no_row_written w (set_drive (drive w ++ [f]) w).
Proof.
  intros P. unfold no_row_written. cbn [drive set_drive]. split.
  - rewrite length_app. lia.
  - intros i f' H. apply nth_error_snoc in H as [H|[-> ->]]; [left; eauto|].
    right. split; [|exact P]. apply nth_error_None. lia.
Qed.

Lemma no_row_written_create_folder w :
  no_row_written w (set_drive (drive w ++ [new_folder]) w).
Proof. apply no_row_written_create. left. reflexivity. Qed.

Lemma no_row_written_create_spreadsheet w :
  no_row_written w (set_drive (drive w ++ [new_spreadsheet]) w).
Proof. apply no_row_written_create. right. reflexivity. Qed.

Lemma length_update_nth {A} (g : A -> A) k (d : list A) :
  List.length (update_nth k g d) = List.length d.
Proof.
  revert k. induction d as [|x d IH]; intros [|k]; cbn [update_nth List.length];
    auto.
Qed.

Lemma no_row_written_add_parent w k fid :
  no_row_written w (set_drive (update_nth k (add_parent fid) (drive w)) w).
Proof.
  unfold no_row_written. cbn [drive set_drive]. split.
  - rewrite length_update_nth. lia.
  - intros i f' H. rewrite nth_error_update_nth in H. left.
    destruct (Nat.eqb i k); [|eauto].
    destruct (nth_error (drive w) i) as [f|]; [|discriminate].
    inversion H. exists f. auto.
Qed.

Lemma call_no_row_written e : within no_row_written (call e).
Proof.
  intros w. unfold call.
  destruct (faults w _); apply no_row_written_same; reflexivity.
Qed.

#[export] Hint Resolve call_no_row_written no_row_written_create_folder
  no_row_written_create_spreadsheet no_row_written_add_parent : frame.
#[export] Hint Extern 1 (no_row_written _ _) =>
  apply no_row_written_same; reflexivity : frame.










End AccountFacts.

(** ** Dates that do not parse *)

Module DateEdgeFacts.
Import Monad Monad.Notations World Pipeline Spec JsString JsDate ExtractFacts
  DeliveryFacts ProgressFacts.
Local Open Scope string_scope.

Lemma decimal_head n rest : (decimal n ++ rest)%string <> "Invalid Date".
Proof.
  unfold decimal, DecimalString.NilZero.string_of_int,
    DecimalString.NilZero.string_of_uint.
  destruct (Z.to_int n) as [d|d]; destruct d; cbn; discriminate.
Qed.

(** A valid date is never rendered as "Invalid Date". *)
Lemma formatDate_valid host t : formatDate host (Some t) <> "Invalid Date".
Proof.
  unfold formatDate, toLocaleDateString_en_ZA.
  destruct (civil_from_days _) as [[y m] dd]. apply decimal_head.
Qed.

(** X15.  Extraction does not reject a message whose [internalDate] is
    unusable: the record it returns has the date "Invalid Date" exactly
    when [parseInt] finds no number in [internalDate] or the number is
    beyond the range of a JavaScript time value, and a rendered date
    otherwise. *)
Theorem invalid_date_iff_unparsed id w c w1 :
  extractSignupInfo id w = (Ok c, w1) ->
  exists m,
    find_message id (mailbox w) = Some m
    /\ (date c = "Invalid Date"
        <-> match parseInt (internalDate m) with
            | None => True
            | Some ms => (8640000000000000 < Z.abs ms)%Z
            end).
Proof.
  intros H. apply extractSignupInfo_ok_inv in H.
  destruct (signup_of_inv w id c H) as (m & body & Hm & _ & ->).
  exists m. split; [exact Hm|]. cbn [date record_of]. unfold new_Date.
  destruct (parseInt (internalDate m)) as [ms|]; [|split; auto].
  destruct (Z.abs ms <=? 8640000000000000)%Z eqn:B.
  - apply Z.leb_le in B. split.
    + intros E. destruct (formatDate_valid _ _ E).
    + intros L. lia.
  - apply Z.leb_gt in B. split; [intros _; exact B|reflexivity].
Qed.

Lemma invalid_date_iff_unparsed_witness :
  exists c w1,
    extractSignupInfo "u1" Examples.undated_world = (Ok c, w1)
    /\ date c = "Invalid Date"
    /\ exists m,
         find_message "u1" (mailbox Examples.undated_world) = Some m
         /\ (date c = "Invalid Date"
             <-> match parseInt (internalDate m) with
                 | None => True
                 | Some ms => (8640000000000000 < Z.abs ms)%Z
                 end).
Proof.
  exists (record_of Examples.utc_host
            (Examples.message "u1" "Growth Track Signup" "soon" Examples.padded_body)
            Examples.padded_body),
         (snd (extractSignupInfo "u1" Examples.undated_world)).
  split; [vm_compute; reflexivity|]. split; [vm_compute; reflexivity|].
  apply (invalid_date_iff_unparsed "u1" Examples.undated_world
           (record_of Examples.utc_host
              (Examples.message "u1" "Growth Track Signup" "soon"
                 Examples.padded_body)
              Examples.padded_body)
           (snd (extractSignupInfo "u1" Examples.undated_world))).
  vm_compute; reflexivity.
Defined.

End DateEdgeFacts.

(** ** What store resolution returns *)

Module ResolvePost.
Import Monad Monad.Notations World Pipeline Spec Frame StepFacts ResolveFacts.
Local Open Scope list_scope.

Lemma find_ids_first p d : forall i k rest,
  find_ids p i d = k :: rest ->
  forall j h, j < k - i -> nth_error d j = Some h -> p h = false.
Proof.
  induction d as [|x d IH]; intros i k rest H j h Hj Hn; [discriminate H|].
  cbn [find_ids] in H. destruct (p x) eqn:E.
  - inversion H; subst. lia.
  - destruct j as [|j]; cbn [nth_error] in Hn.
    + inversion Hn; subst. exact E.
    + apply (IH (S i) k rest H j h); [lia|exact Hn].
Qed.

(** X16.  Whatever [createOrGetSpreadsheet] returns, found or created, is
    a spreadsheet named "Growth Track Signups" that lies in the first
    folder named "Growth Track Registrations" of the Drive, and is the
    first such spreadsheet in it: further folders or spreadsheets of the
    same names are never used. *)
Theorem resolution_returns_first_match w s w' :
  createOrGetSpreadsheet w = (Ok s, w') ->
  exists fid g f,
    nth_error (drive w') fid = Some g
    /\ file_mime g = folder
    /\ file_name g = "Growth Track Registrations"%string
    /\ (forall j h, j < fid -> nth_error (drive w') j = Some h ->
          folder_query h = false)
    /\ nth_error (drive w') s = Some f
    /\ file_mime f = spreadsheet
    /\ file_name f = "Growth Track Signups"%string
    /\ In fid (file_parents f)
    /\ (forall j h, j < s -> nth_error (drive w') j = Some h ->
          spreadsheet_query fid h = false).
Proof.
  intros H. apply createOrGetSpreadsheet_resolved in H.
  destruct H as (fid & rest & rest' & E1 & E2).
  pose proof (find_ids_first _ _ _ _ _ E1) as F1.
  pose proof (find_ids_first _ _ _ _ _ E2) as F2.
  apply find_ids_head in E1 as [_ (g & Hg & Pg)].
  apply find_ids_head in E2 as [_ (f & Hf & Pf)].
  rewrite Nat.sub_0_r in *.
  exists fid, g, f.
  unfold folder_query, is_folder in Pg. apply andb_prop in Pg as [Pg1 Pg2].
  apply String.eqb_eq in Pg2.
  unfold spreadsheet_query, is_spreadsheet in Pf.
  apply andb_prop in Pf as [Pf Pf3]. apply andb_prop in Pf as [Pf1 Pf2].
  apply String.eqb_eq in Pf3.
  apply existsb_exists in Pf1 as (x & Hx & Ex). apply Nat.eqb_eq in Ex. subst x.
  split; [exact Hg|]. split; [destruct (file_mime g); try discriminate; reflexivity|].
  split; [exact Pg2|]. split; [exact F1|]. split; [exact Hf|].
  split; [destruct (file_mime f); try discriminate; reflexivity|].
  split; [exact Pf3|]. split; [exact Hx|exact F2].
Qed.

Lemma resolution_returns_first_match_witness :
  exists fid g f,
    nth_error (drive (snd (createOrGetSpreadsheet Examples.stored_world))) fid = Some g
    /\ file_mime g = folder
    /\ file_name g = "Growth Track Registrations"%string
    /\ (forall j h, j < fid ->
          nth_error (drive (snd (createOrGetSpreadsheet Examples.stored_world))) j
          = Some h ->
          folder_query h = false)
    /\ nth_error (drive (snd (createOrGetSpreadsheet Examples.stored_world))) 1 = Some f
    /\ file_mime f = spreadsheet
    /\ file_name f = "Growth Track Signups"%string
    /\ In fid (file_parents f)
    /\ (forall j h, j < 1 ->
          nth_error (drive (snd (createOrGetSpreadsheet Examples.stored_world))) j
          = Some h ->
          spreadsheet_query fid h = false).
Proof.
  apply (resolution_returns_first_match Examples.stored_world 1
           (snd (createOrGetSpreadsheet Examples.stored_world))).
  vm_compute; reflexivity.
Defined.

End ResolvePost.
